(** * passlib framework of BTCRecover: codec, registry, policy, rounds

    A shallow embedding of [lib/passlib/utils/binary.py] (the [Base64Engine]
    codec) together with models of the registry, the policy engine and the
    rounds mixin, and the properties stated about them. *)

From Stdlib Require Import ZArith Lia.
From Stdlib.Strings Require Import Byte Ascii.
From stdpp Require Import base option list gmap strings.

Local Open Scope Z_scope.

(** ** Python values, exceptions and results *)

(** The exceptions raised by the modelled code. *)
Inductive exn : Type :=
| TypeError
| ValueError
| KeyError
| IndexError
| StopIteration
| AssertionError
| ImportError.

(** A call either returns a value or raises. *)
Inductive result (A : Type) : Type :=
| Ok (a : A)
| Raise (e : exn).
Arguments Ok {A} a.
Arguments Raise {A} e.

#[global] Instance result_ret : MRet result := @Ok.
#[global] Instance result_bind : MBind result := λ A B f m,
  match m with
  | Ok a => f a
  | Raise e => Raise e
  end.

(** The values a caller can pass where the code expects a string: a byte
    string, a unicode string (its code points), [None], an integer, or an
    instance of some other class. *)
Inductive pyval : Type :=
| PyBytes (b : list byte)
| PyUnicode (u : list Z)
| PyNone
| PyInt (n : Z)
| PyObject (cls : string).

(** [isinstance(v, bytes)] *)
Definition isinstance_bytes (v : pyval) : bool :=
  match v with
  | PyBytes _ => true
  | _ => false
  end.

(** [isinstance(v, unicode)] *)
Definition isinstance_unicode (v : pyval) : bool :=
  match v with
  | PyUnicode _ => true
  | _ => false
  end.

(** The integer value of a byte element ([ord] on Python 2, the element itself
    on Python 3). *)
Definition ord (b : byte) : Z := Z.of_N (Byte.to_N b).

(** [len] of a sequence, as a Python integer. *)
Definition len {A} (l : list A) : Z := Z.of_nat (length l).

(** [divmod(a, b)] for a positive [b]. *)
Definition divmod (a b : Z) : Z * Z := (a / b, a mod b).

(** ** Helpers of [passlib.utils.compat] *)

(** Modelled from the spec: [lib/passlib/utils/compat] is not part of the
    sources. [join_byte_values] builds a byte string from integers; an
    integer outside [range(256)] raises [ValueError]. *)
Definition byte_of_value (v : Z) : result byte :=
  if bool_decide (0 ≤ v < 256) then
    match Byte.of_N (Z.to_N v) with
    | Some b => Ok b
    | None => Raise ValueError
    end
  else Raise ValueError.

Fixpoint mapR {A B} (f : A → result B) (l : list A) : result (list B) :=
  match l with
  | [] => Ok []
  | x :: l' =>
      y ← f x;
      ys ← mapR f l';
      Ok (y :: ys)
  end.

Definition join_byte_values (values : list Z) : result (list byte) :=
  mapR byte_of_value values.

(** Modelled from the spec: [join_byte_elems] joins byte elements (what
    indexing a byte string gives) into a byte string. *)
Definition join_byte_elems (elems : list byte) : list byte := elems.

(** ** Iterators and generators

    A generator body reads from an iterator through [next_value]; the state
    threaded through it is what the iterator has left. Its result is the list
    of values it yields. *)
Definition gen (A : Type) : Type := list byte → result (A * list byte).

#[global] Instance gen_ret : MRet gen := λ A a st, Ok (a, st).
#[global] Instance gen_bind : MBind gen := λ A B f m st,
  match m st with
  | Ok (a, st') => f a st'
  | Raise e => Raise e
  end.

(** [nextgetter(imap(f, source))]: take the next element and apply [f] to it;
    an exhausted iterator raises [StopIteration]. *)
Definition nextgetter (f : byte → result Z) : gen Z := λ st,
  match st with
  | [] => Raise StopIteration
  | c :: st' =>
      match f c with
      | Ok v => Ok (v, st')
      | Raise e => Raise e
      end
  end.

(** [idx = 0; while idx < chunks: body; idx += 1], collecting the yields. *)
Fixpoint while_idx (n : nat) (body : gen (list Z)) : gen (list Z) :=
  match n with
  | O => mret []
  | S n' =>
      ys ← body;
      rest ← while_idx n' body;
      mret (ys ++ rest)
  end.

(** Run a generator over a source and collect what it yields. *)
Definition collect (g : gen (list Z)) (source : list byte) : result (list Z) :=
  match g source with
  | Ok (ys, _) => Ok ys
  | Raise e => Raise e
  end.

(** ** Base64Engine *)

(** [sequence[i]], with Python's negative indices. *)
Definition getitem {A} (l : list A) (i : Z) : result A :=
  let j := if bool_decide (i < 0) then i + len l else i in
  if bool_decide (0 ≤ j) then
    match l !! Z.to_nat j with
    | Some x => Ok x
    | None => Raise IndexError
    end
  else Raise IndexError.

(** [enumerate(l)] counting from [i]. *)
Fixpoint enumerate_from {A} (i : Z) (l : list A) : list (Z * A) :=
  match l with
  | [] => []
  | x :: l' => (i, x) :: enumerate_from (i + 1) l'
  end.

(** [dict((value, idx) for idx, value in pairs)]: a later pair overrides an
    earlier one with the same key. Keys are byte elements, stored by value. *)
Definition dict_of (pairs : list (Z * byte)) : gmap Z Z :=
  foldl (λ m p, <[ord p.2 := p.1]> m) ∅ pairs.

Record Base64Engine : Type := {
  bytemap : list byte;
  lookup : gmap Z Z;
  big : bool
}.

(** [charmap.encode("latin-1")] *)
Definition encode_latin1 (u : list Z) : result (list byte) :=
  mapR byte_of_value u.

(** [bytemap.decode("latin-1")] *)
Definition decode_latin1 (b : list byte) : list Z := map ord b.

(** [len(set(charmap))] *)
Definition distinct_count (charmap : list byte) : Z :=
  Z.of_nat (size (list_to_set (map ord charmap) : gset Z)).

(** [Base64Engine.__init__] *)
Definition Base64Engine_init (charmap : pyval) (big : bool)
  : result Base64Engine :=
  charmap ← match charmap with
            | PyUnicode u => encode_latin1 u
            | PyBytes b => Ok b
            | _ => Raise TypeError
            end;
  if bool_decide (len charmap ≠ 64) then Raise ValueError
  else if bool_decide (distinct_count charmap ≠ 64) then Raise ValueError
  else Ok {| bytemap := charmap;
             lookup := dict_of (enumerate_from 0 charmap);
             big := big |}.

(** [self.charmap] *)
Definition charmap (self : Base64Engine) : list Z :=
  decode_latin1 (bytemap self).

(** [self._encode64 = charmap.__getitem__] *)
Definition _encode64 (self : Base64Engine) (v : Z) : result byte :=
  getitem (bytemap self) v.

(** [self._decode64 = lookup.__getitem__] *)
Definition _decode64 (self : Base64Engine) (c : byte) : result Z :=
  match lookup self !! ord c with
  | Some v => Ok v
  | None => Raise KeyError
  end.

(** [assert cond] *)
Definition assert (cond : bool) : result unit :=
  if cond then Ok () else Raise AssertionError.

(** *** Encoding byte strings *)

(** [Base64Engine._encode_bytes_little] *)
Definition _encode_bytes_little (next_value : gen Z) (chunks tail : Z)
  : gen (list Z) :=
  body ← while_idx (Z.to_nat chunks)
    (v1 ← next_value;
     v2 ← next_value;
     v3 ← next_value;
     mret [Z.land v1 0x3f;
           Z.lor (Z.shiftl (Z.land v2 0x0f) 2) (Z.shiftr v1 6);
           Z.lor (Z.shiftl (Z.land v3 0x03) 4) (Z.shiftr v2 4);
           Z.shiftr v3 2]);
  if bool_decide (tail ≠ 0) then
    v1 ← next_value;
    if bool_decide (tail = 1) then
      mret (body ++ [Z.land v1 0x3f; Z.shiftr v1 6])
    else
      if bool_decide (tail = 2) then
        v2 ← next_value;
        mret (body ++ [Z.land v1 0x3f;
                       Z.lor (Z.shiftl (Z.land v2 0x0f) 2) (Z.shiftr v1 6);
                       Z.shiftr v2 4])
      else λ _, Raise AssertionError
  else mret body.

(** [Base64Engine._encode_bytes_big] *)
Definition _encode_bytes_big (next_value : gen Z) (chunks tail : Z)
  : gen (list Z) :=
  body ← while_idx (Z.to_nat chunks)
    (v1 ← next_value;
     v2 ← next_value;
     v3 ← next_value;
     mret [Z.shiftr v1 2;
           Z.lor (Z.shiftl (Z.land v1 0x03) 4) (Z.shiftr v2 4);
           Z.lor (Z.shiftl (Z.land v2 0x0f) 2) (Z.shiftr v3 6);
           Z.land v3 0x3f]);
  if bool_decide (tail ≠ 0) then
    v1 ← next_value;
    if bool_decide (tail = 1) then
      mret (body ++ [Z.shiftr v1 2; Z.shiftl (Z.land v1 0x03) 4])
    else
      if bool_decide (tail = 2) then
        v2 ← next_value;
        mret (body ++ [Z.shiftr v1 2;
                       Z.lor (Z.shiftl (Z.land v1 0x03) 4) (Z.shiftr v2 4);
                       Z.shiftl (Z.land v2 0x0f) 2])
      else λ _, Raise AssertionError
  else mret body.

(** [self._encode_bytes], chosen by [__init__] from the endianness. *)
Definition _encode_bytes (self : Base64Engine) :=
  if big self then _encode_bytes_big else _encode_bytes_little.

(** [Base64Engine.encode_bytes]. The values of the generator are looked up
    as they are yielded; the generator is run first here, which gives the
    same result since it raises nothing of its own on a source of the
    announced length. *)
Definition encode_bytes (self : Base64Engine) (source : pyval)
  : result (list byte) :=
  match source with
  | PyBytes source =>
      let '(chunks, tail) := divmod (len source) 3 in
      let next_value := nextgetter (λ elem, Ok (ord elem)) in
      values ← collect (_encode_bytes self next_value chunks tail) source;
      out ← mapR (_encode64 self) values;
      Ok (join_byte_elems out)
  | _ => Raise TypeError
  end.

(** *** Decoding byte strings *)

(** [Base64Engine._decode_bytes_little] *)
Definition _decode_bytes_little (next_value : gen Z) (chunks tail : Z)
  : gen (list Z) :=
  body ← while_idx (Z.to_nat chunks)
    (v1 ← next_value;
     v2 ← next_value;
     v3 ← next_value;
     v4 ← next_value;
     mret [Z.lor v1 (Z.shiftl (Z.land v2 0x3) 6);
           Z.lor (Z.shiftr v2 2) (Z.shiftl (Z.land v3 0xF) 4);
           Z.lor (Z.shiftr v3 4) (Z.shiftl v4 2)]);
  if bool_decide (tail ≠ 0) then
    v1 ← next_value;
    v2 ← next_value;
    if bool_decide (tail = 3) then
      v3 ← next_value;
      mret (body ++ [Z.lor v1 (Z.shiftl (Z.land v2 0x3) 6);
                     Z.lor (Z.shiftr v2 2) (Z.shiftl (Z.land v3 0xF) 4)])
    else mret (body ++ [Z.lor v1 (Z.shiftl (Z.land v2 0x3) 6)])
  else mret body.

(** [Base64Engine._decode_bytes_big] *)
Definition _decode_bytes_big (next_value : gen Z) (chunks tail : Z)
  : gen (list Z) :=
  body ← while_idx (Z.to_nat chunks)
    (v1 ← next_value;
     v2 ← next_value;
     v3 ← next_value;
     v4 ← next_value;
     mret [Z.lor (Z.shiftl v1 2) (Z.shiftr v2 4);
           Z.lor (Z.shiftl (Z.land v2 0xF) 4) (Z.shiftr v3 2);
           Z.lor (Z.shiftl (Z.land v3 0x3) 6) v4]);
  if bool_decide (tail ≠ 0) then
    v1 ← next_value;
    v2 ← next_value;
    if bool_decide (tail = 3) then
      v3 ← next_value;
      mret (body ++ [Z.lor (Z.shiftl v1 2) (Z.shiftr v2 4);
                     Z.lor (Z.shiftl (Z.land v2 0xF) 4) (Z.shiftr v3 2)])
    else mret (body ++ [Z.lor (Z.shiftl v1 2) (Z.shiftr v2 4)])
  else mret body.

(** [self._decode_bytes], chosen by [__init__] from the endianness. *)
Definition _decode_bytes (self : Base64Engine) :=
  if big self then _decode_bytes_big else _decode_bytes_little.

(** [Base64Engine.decode_bytes]. The generator runs inside the [try]: a
    [KeyError] of the lookup becomes a [ValueError], as does a value that
    [join_byte_values] refuses. *)
Definition decode_bytes (self : Base64Engine) (source : pyval)
  : result (list byte) :=
  match source with
  | PyBytes source =>
      let '(chunks, tail) := divmod (len source) 4 in
      if bool_decide (tail = 1) then Raise ValueError
      else
        let next_value := nextgetter (_decode64 self) in
        match collect (_decode_bytes self next_value chunks tail) source with
        | Ok values => join_byte_values values
        | Raise KeyError => Raise ValueError
        | Raise e => Raise e
        end
  | _ => Raise TypeError
  end.

(** *** Unused bits of the last character *)

(** What [__make_padset] builds: the byte elements and the unicode characters
    that are valid last characters. *)
Record padset : Type := {
  pad_elems : gset Z;
  pad_chars : gset Z
}.

(** [Base64Engine.__make_padset] *)
Definition make_padset (self : Base64Engine) (bits : Z) : padset :=
  {| pad_elems :=
       list_to_set
         (map (λ p, ord p.2)
              (filter (λ p, Z.land p.1 bits = 0)
                      (enumerate_from 0 (bytemap self))));
     pad_chars :=
       list_to_set
         (map snd
              (filter (λ p, Z.land p.1 bits = 0)
                      (enumerate_from 0 (charmap self)))) |}.

(** [Base64Engine._padinfo2] *)
Definition _padinfo2 (self : Base64Engine) : Z * padset :=
  let bits := if big self then 15 else Z.shiftl 15 2 in
  (Z.lnot bits, make_padset self bits).

(** [Base64Engine._padinfo3] *)
Definition _padinfo3 (self : Base64Engine) : Z * padset :=
  let bits := if big self then 3 else Z.shiftl 3 4 in
  (Z.lnot bits, make_padset self bits).

(** [source[:-1]] *)
Definition but_last {A} (l : list A) : list A := take (length l - 1)%nat l.

(** [sequence.index(x)]: the first position of [x], or [ValueError]. *)
Fixpoint index_from (i : Z) (l : list Z) (x : Z) : result Z :=
  match l with
  | [] => Raise ValueError
  | y :: l' => if bool_decide (y = x) then Ok i else index_from (i + 1) l' x
  end.

(** [len(source)], a [TypeError] for a value without length. *)
Definition py_len (source : pyval) : result Z :=
  match source with
  | PyBytes b => Ok (len b)
  | PyUnicode u => Ok (len u)
  | _ => Raise TypeError
  end.

(** The part of [check_repair_unused] after [mask, padset] are chosen. *)
Definition repair_last (self : Base64Engine) (info : Z * padset)
  (source : pyval) : result (bool * pyval) :=
  let '(mask, padset) := info in
  match source with
  | PyUnicode u =>
      last ← getitem u (-1);
      if bool_decide (last ∈ pad_chars padset) then Ok (false, source)
      else
        let cm := charmap self in
        i ← index_from 0 cm last;
        last ← getitem cm (Z.land i mask);
        _ ← assert (bool_decide (last ∈ pad_chars padset));
        Ok (true, PyUnicode (but_last u ++ [last]))
  | PyBytes b =>
      last ← getitem b (-1);
      if bool_decide (ord last ∈ pad_elems padset) then Ok (false, source)
      else
        v ← _decode64 self last;
        last ← _encode64 self (Z.land v mask);
        _ ← assert (bool_decide (ord last ∈ pad_elems padset));
        Ok (true, PyBytes (but_last b ++ [last]))
  | _ => Raise TypeError
  end.

(** [Base64Engine.check_repair_unused] *)
Definition check_repair_unused (self : Base64Engine) (source : pyval)
  : result (bool * pyval) :=
  n ← py_len source;
  let tail := Z.land n 3 in
  if bool_decide (tail = 2) then repair_last self (_padinfo2 self) source
  else if bool_decide (tail = 3) then repair_last self (_padinfo3 self) source
  else if bool_decide (tail = 0) then Ok (false, source)
  else Raise ValueError.

(** *** Integers *)

(** [irange(start, stop, step)] for a non-zero [step]. *)
Definition irange (start stop step : Z) : list Z :=
  let n := if bool_decide (0 < step) then (stop - start + step - 1) / step
           else (start - stop - step - 1) / (- step) in
  map (λ i, start + i * step) (seqZ 0 n).

(** The loop of [_decode_int] inside its [try]: a [KeyError] becomes a
    [ValueError]. *)
Fixpoint decode_loop (self : Base64Engine) (out : Z) (source : list byte)
  : result Z :=
  match source with
  | [] => Ok out
  | c :: source' =>
      match _decode64 self c with
      | Ok v => decode_loop self (Z.shiftl out 6 + v) source'
      | Raise KeyError => Raise ValueError
      | Raise e => Raise e
      end
  end.

(** [Base64Engine._decode_int]. [chars = (bits+pad)/6] is a true division;
    [len(source) != chars] is compared here after multiplying by 6. *)
Definition _decode_int (self : Base64Engine) (source : pyval) (bits : Z)
  : result Z :=
  match source with
  | PyBytes source =>
      let pad := (- bits) mod 6 in
      if bool_decide (6 * len source ≠ bits + pad) then Raise ValueError
      else
        out ← decode_loop self 0
                (if big self then source else reverse source);
        if bool_decide (pad ≠ 0) then
          if big self then Ok (Z.shiftr out pad)
          else Ok (Z.land out (Z.shiftl 1 bits - 1))
        else Ok out
  | _ => Raise TypeError
  end.

(** [Base64Engine.decode_int64] *)
Definition decode_int64 (self : Base64Engine) (source : pyval) : result Z :=
  _decode_int self source 64.

(** [Base64Engine._encode_int] *)
Definition _encode_int (self : Base64Engine) (value bits : Z)
  : result (list byte) :=
  _ ← assert (bool_decide (0 ≤ value));
  let pad := (- bits) mod 6 in
  let bits := bits + pad in
  let '(itr, value) :=
    if big self then (irange (bits - 6) (-6) (-6), Z.shiftl value pad)
    else (irange 0 bits 6, value) in
  out ← mapR (_encode64 self)
             (map (λ off, Z.land (Z.shiftr value off) 0x3f) itr);
  Ok (join_byte_elems out).

(** [Base64Engine.encode_int64] *)
Definition encode_int64 (self : Base64Engine) (value : Z)
  : result (list byte) :=
  if bool_decide (value < 0 ∨ value > 0xffffffffffffffff)
  then Raise ValueError
  else _encode_int self value 64.

(** *** Common variants *)

(** [HASH64_CHARS], the characters of the string as code points. *)
Definition HASH64_CHARS : list Z :=
  map ord (String.list_byte_of_string
    "./0123456789ABCDEFGHIJKLMNOPQRSTUVWXYZabcdefghijklmnopqrstuvwxyz").

(** [h64 = LazyBase64Engine(HASH64_CHARS)] and
    [h64big = LazyBase64Engine(HASH64_CHARS, big=True)], once initialised. *)
Definition h64 : result Base64Engine :=
  Base64Engine_init (PyUnicode HASH64_CHARS) false.
Definition h64big : result Base64Engine :=
  Base64Engine_init (PyUnicode HASH64_CHARS) true.

(** The engine [h64] evaluates to. *)
Definition h64_engine (big : bool) : Base64Engine :=
  let bm := String.list_byte_of_string
    "./0123456789ABCDEFGHIJKLMNOPQRSTUVWXYZabcdefghijklmnopqrstuvwxyz" in
  {| bytemap := bm; lookup := dict_of (enumerate_from 0 bm); big := big |}.

(** A symbol of the engine's alphabet. *)
Definition in_alphabet (self : Base64Engine) (c : byte) : Prop :=
  c ∈ bytemap self.

(** The bits of the last character that carry no data, for a string whose
    length is [tail] mod 4: four bits when [tail] is 2 and two bits when it
    is 3, the least significant ones for a big-endian engine and the most
    significant ones otherwise. *)
Definition padding_bits (big : bool) (tail : Z) : Z :=
  if bool_decide (tail = 2) then (if big then 0x0f else 0x3c)
  else if bool_decide (tail = 3) then (if big then 0x03 else 0x30)
  else 0.

(** ** The values of the generators, as functions of the input

    [grouped k fc ft n vs] is what a generator yields that reads [n] groups
    of [k] values, yielding [fc] of each, and then yields [ft] of the rest. *)
Fixpoint grouped (k : nat) (fc ft : list Z → list Z) (n : nat) (vs : list Z)
  : list Z :=
  match n with
  | O => ft vs
  | S n' => fc (take k vs) ++ grouped k fc ft n' (drop k vs)
  end.

Definition enc_little_chunk (vs : list Z) : list Z :=
  match vs with
  | [v1; v2; v3] =>
      [Z.land v1 0x3f;
       Z.lor (Z.shiftl (Z.land v2 0x0f) 2) (Z.shiftr v1 6);
       Z.lor (Z.shiftl (Z.land v3 0x03) 4) (Z.shiftr v2 4);
       Z.shiftr v3 2]
  | _ => []
  end.

Definition enc_little_tail (vs : list Z) : list Z :=
  match vs with
  | [v1] => [Z.land v1 0x3f; Z.shiftr v1 6]
  | [v1; v2] =>
      [Z.land v1 0x3f;
       Z.lor (Z.shiftl (Z.land v2 0x0f) 2) (Z.shiftr v1 6);
       Z.shiftr v2 4]
  | _ => []
  end.

Definition enc_big_chunk (vs : list Z) : list Z :=
  match vs with
  | [v1; v2; v3] =>
      [Z.shiftr v1 2;
       Z.lor (Z.shiftl (Z.land v1 0x03) 4) (Z.shiftr v2 4);
       Z.lor (Z.shiftl (Z.land v2 0x0f) 2) (Z.shiftr v3 6);
       Z.land v3 0x3f]
  | _ => []
  end.

Definition enc_big_tail (vs : list Z) : list Z :=
  match vs with
  | [v1] => [Z.shiftr v1 2; Z.shiftl (Z.land v1 0x03) 4]
  | [v1; v2] =>
      [Z.shiftr v1 2;
       Z.lor (Z.shiftl (Z.land v1 0x03) 4) (Z.shiftr v2 4);
       Z.shiftl (Z.land v2 0x0f) 2]
  | _ => []
  end.

Definition dec_little_chunk (vs : list Z) : list Z :=
  match vs with
  | [v1; v2; v3; v4] =>
      [Z.lor v1 (Z.shiftl (Z.land v2 0x3) 6);
       Z.lor (Z.shiftr v2 2) (Z.shiftl (Z.land v3 0xF) 4);
       Z.lor (Z.shiftr v3 4) (Z.shiftl v4 2)]
  | _ => []
  end.

Definition dec_little_tail (vs : list Z) : list Z :=
  match vs with
  | [v1; v2] => [Z.lor v1 (Z.shiftl (Z.land v2 0x3) 6)]
  | [v1; v2; v3] =>
      [Z.lor v1 (Z.shiftl (Z.land v2 0x3) 6);
       Z.lor (Z.shiftr v2 2) (Z.shiftl (Z.land v3 0xF) 4)]
  | _ => []
  end.

Definition dec_big_chunk (vs : list Z) : list Z :=
  match vs with
  | [v1; v2; v3; v4] =>
      [Z.lor (Z.shiftl v1 2) (Z.shiftr v2 4);
       Z.lor (Z.shiftl (Z.land v2 0xF) 4) (Z.shiftr v3 2);
       Z.lor (Z.shiftl (Z.land v3 0x3) 6) v4]
  | _ => []
  end.

Definition dec_big_tail (vs : list Z) : list Z :=
  match vs with
  | [v1; v2] => [Z.lor (Z.shiftl v1 2) (Z.shiftr v2 4)]
  | [v1; v2; v3] =>
      [Z.lor (Z.shiftl v1 2) (Z.shiftr v2 4);
       Z.lor (Z.shiftl (Z.land v2 0xF) 4) (Z.shiftr v3 2)]
  | _ => []
  end.

(** The values [encode_bytes] looks up, and the values [decode_bytes]
    joins, for a source of [n] full groups. *)
Definition enc_values (big : bool) (n : nat) (vs : list Z) : list Z :=
  if big then grouped 3 enc_big_chunk enc_big_tail n vs
  else grouped 3 enc_little_chunk enc_little_tail n vs.

Definition dec_values (big : bool) (n : nat) (vs : list Z) : list Z :=
  if big then grouped 4 dec_big_chunk dec_big_tail n vs
  else grouped 4 dec_little_chunk dec_little_tail n vs.

(** The values of a byte and of a 6-bit group. *)
Definition is_byte (v : Z) : Prop := 0 ≤ v < 256.
Definition is_six (v : Z) : Prop := 0 ≤ v < 64.

(** * The registry of handlers *)

Module Registry.

(** A handler type: its [name] attribute, and what tells one class object
    from another with the same name. *)
Record handler : Type := {
  handler_name : string;
  handler_id : nat
}.

#[global] Instance handler_eq_dec : EqDecision handler.
Proof. solve_decision. Defined.

(** A deferred location: a module path and, optionally, the name the
    handler is exported under. *)
Record location : Type := {
  loc_module : string;
  loc_attr : option string
}.

(** The registry: the handlers that are loaded, and the locations of the
    ones to import on demand. *)
Record registry : Type := {
  handlers : gmap string handler;
  locations : gmap string location
}.

(** An operation on the registry returns or raises, and leaves a state. *)
Definition op (A : Type) : Type := registry → result A * registry.

Fixpoint has_char (p : Ascii.ascii → bool) (s : string) : bool :=
  match s with
  | EmptyString => false
  | String c s' => p c || has_char p s'
  end.

Fixpoint has_double_underscore (s : string) : bool :=
  match s with
  | EmptyString => false
  | String c s' =>
      match s' with
      | String c' _ =>
          (Ascii.eqb c "_"%char && Ascii.eqb c' "_"%char)
|| has_double_underscore s'
      | EmptyString => false
      end
  end.

Definition is_upper (c : Ascii.ascii) : bool :=
  let n := Z.of_N (Ascii.N_of_ascii c) in
  bool_decide (65 ≤ n ≤ 90).

(** A private name starts with an underscore. *)
Definition is_private (name : string) : bool :=
  match name with
  | String c _ => Ascii.eqb c "_"%char
  | EmptyString => false
  end.

(** Modelled from the spec: [lib/passlib/registry.py] is not part of the
    sources. A name is rejected when it is empty, has an uppercase letter,
    has a hyphen, has a double underscore, or is the reserved word
    [default]. *)
Definition valid_name (name : string) : bool :=
  negb (String.eqb name "")
  && negb (has_char is_upper name)
  && negb (has_char (λ c, Ascii.eqb c "-"%char) name)
  && negb (has_double_underscore name)
  && negb (String.eqb name "default").

(** Modelled from the spec: [register(handler, force=False)] inserts the
    handler under its name; it fails with a [ValueError] on a rejected
    name, and with a name collision ([KeyError]) when another handler is
    loaded under the name, unless [force] is set or the loaded handler is
    the same one. *)
Definition register_crypt_handler (h : handler) (force : bool) : op unit :=
  λ r,
  let name := handler_name h in
  if negb (valid_name name) then (Raise ValueError, r)
  else
    let r' := {| handlers := <[name := h]> (handlers r);
                 locations := locations r |} in
    match handlers r !! name with
    | Some other =>
        if bool_decide (other = h) then (Ok (), r)
        else if force then (Ok (), r')
        else (Raise KeyError, r)
    | None => (Ok (), r')
    end.

(** Modelled from the spec: [register_lazy(name, location)] stores the
    location without importing; it fails on a rejected name. *)
Definition register_crypt_handler_path (name : string) (loc : location)
  : op unit :=
  λ r,
  if negb (valid_name name) then (Raise ValueError, r)
  else (Ok (), {| handlers := handlers r;
                  locations := <[name := loc]> (locations r) |}).

Section Lazy.
(** The modules that can be imported: the handler each module exports
    under each attribute name. *)
Variable modules : gmap string (gmap string handler).

(** Modelled from the spec: [resolve(name, required=True)]. A private
    name is never resolved. A loaded handler is returned. A lazy entry
    is imported from its module, under the alternate name if there is
    one; the handler must carry the registered name (a [ValueError]
    otherwise), and is then kept as loaded. A missing name raises
    [KeyError] when [required], and gives [None] otherwise. *)
Definition get_crypt_handler (name : string) (required : bool)
  : op (option handler) :=
  λ r,
  let missing : result (option handler) :=
    if required then Raise KeyError else Ok None in
  if is_private name then (missing, r)
  else
    match handlers r !! name with
    | Some h => (Ok (Some h), r)
    | None =>
        match locations r !! name with
        | Some loc =>
            match modules !! loc_module loc with
            | Some exported =>
                match exported !! default name (loc_attr loc) with
                | Some h =>
                    if bool_decide (handler_name h = name) then
                      (Ok (Some h),
                       {| handlers := <[name := h]> (handlers r);
                          locations := locations r |})
                    else (Raise ValueError, r)
                | None => (Raise KeyError, r)
                end
            | None => (Raise ImportError, r)
            end
        | None => (missing, r)
        end
    end.
End Lazy.

(** Modelled from the spec: [unload(name)] forgets the loaded handler; the
    location, when there is one, stays. *)
Definition _unload_handler_name (name : string) : op unit :=
  λ r, (Ok (), {| handlers := delete name (handlers r);
                  locations := locations r |}).

(** Modelled from the spec: [list(loaded_only=False)], the public names. *)
Definition list_crypt_handlers (loaded_only : bool) (r : registry)
  : gset string :=
  let names := if loaded_only then dom (handlers r)
               else dom (handlers r) ∪ dom (locations r) in
  filter (λ name, is_private name = false) names.

End Registry.

(** * The policy engine *)

Module Policy.

(** The value of an option: a list of names, a text, or a number. *)
Inductive value : Type :=
| VList (names : list string)
| VStr (s : string)
| VInt (n : Z).

(** An option key, split at its separators into components. *)
Definition key : Type := list string.

(** A source given as a structured mapping. *)
Definition source : Type := list (key * value).

(** A key in three levels: the category ([None] for the global scope), the
    scheme ([all] for every scheme, [context] for the options of the
    policy itself), and the name of the option. *)
Definition option_key : Type := option string * string * string.

(** Modelled from the spec: [lib/passlib/context.py] is not part of the
    sources. A policy is a snapshot of the scheme list, the default scheme
    and the deprecated schemes (each per category, [None] being the global
    scope), and the map of the other options. *)
Record policy : Type := {
  scheme_list : option (list string);
  defaults : gmap (option string) string;
  deprecated : gmap (option string) (list string);
  options : gmap option_key value
}.

Definition empty : policy :=
  {| scheme_list := None; defaults := ∅; deprecated := ∅; options := ∅ |}.

(** Modelled from the spec: a key decomposes into at most three
    components, [[category.]scheme.option]; deeper nesting is rejected.
    The category [default] is the global scope. *)
Definition split_key (k : key) : result option_key :=
  match k with
  | [opt] => Ok (None, "context", opt)
  | [scheme; opt] => Ok (None, scheme, opt)
  | [cat; scheme; opt] =>
      Ok (if String.eqb cat "default" then None else Some cat, scheme, opt)
  | _ => Raise TypeError
  end.

Definition as_names (v : value) : result (list string) :=
  match v with
  | VList names => Ok names
  | VStr s => Ok [s]
  | VInt _ => Raise TypeError
  end.

Definition as_name (v : value) : result string :=
  match v with
  | VStr s => Ok s
  | _ => Raise TypeError
  end.

(** Modelled from the spec: one key of a source laid over a policy. The
    scheme list, a default and a deprecated list replace what was there;
    any other option replaces the option with the same key. A scheme list
    for a category and a [salt] option are rejected. *)
Definition set_option (p : policy) (kv : key * value) : result policy :=
  '(cat, scheme, opt) ← split_key kv.1;
  if String.eqb scheme "context" then
    if String.eqb opt "schemes" then
      match cat with
      | Some _ => Raise KeyError
      | None =>
          names ← as_names kv.2;
          Ok {| scheme_list := Some names; defaults := defaults p;
                deprecated := deprecated p; options := options p |}
      end
    else if String.eqb opt "default" then
      name ← as_name kv.2;
      Ok {| scheme_list := scheme_list p;
            defaults := <[cat := name]> (defaults p);
            deprecated := deprecated p; options := options p |}
    else if String.eqb opt "deprecated" then
      names ← as_names kv.2;
      Ok {| scheme_list := scheme_list p; defaults := defaults p;
            deprecated := <[cat := names]> (deprecated p);
            options := options p |}
    else
      Ok {| scheme_list := scheme_list p; defaults := defaults p;
            deprecated := deprecated p;
            options := <[(cat, scheme, opt) := kv.2]> (options p) |}
  else if String.eqb opt "salt" then Raise KeyError
  else
    Ok {| scheme_list := scheme_list p; defaults := defaults p;
          deprecated := deprecated p;
          options := <[(cat, scheme, opt) := kv.2]> (options p) |}.

Fixpoint foldR {A B} (f : B → A → result B) (b : B) (l : list A)
  : result B :=
  match l with
  | [] => Ok b
  | x :: l' => b' ← f b x; foldR f b' l'
  end.

(** A source laid over a policy, key by key. *)
Definition overlay (p : policy) (src : source) : result policy :=
  foldR set_option p src.

(** Modelled from the spec: a default or a deprecated scheme that is not
    in the scheme list is rejected. *)
Definition validate (p : policy) : result policy :=
  match scheme_list p with
  | None => Ok p
  | Some names =>
      if bool_decide (map_Forall (λ _ d, d ∈ names) (defaults p))
         && bool_decide (map_Forall (λ _ ds, Forall (λ d, d ∈ names) ds)
                                    (deprecated p))
      then Ok p
      else Raise KeyError
  end.

(** Modelled from the spec: construction merges one or more sources from
    left to right and validates the result. *)
Definition from_sources (srcs : list source) : result policy :=
  match srcs with
  | [] => Raise ValueError
  | _ => p ← foldR overlay empty srcs; validate p
  end.

(** Modelled from the spec: the overlay operation gives a new policy. *)
Definition replace (p : policy) (src : source) : result policy :=
  p' ← overlay p src; validate p'.

(** The ordered scheme-name list. *)
Definition schemes (p : policy) : list string :=
  default [] (scheme_list p).

(** The default scheme of the global scope. *)
Definition default_scheme (p : policy) : option string :=
  defaults p !! None.

(** Modelled from the spec: [handler_is_deprecated(scheme, category)]; the
    deprecated list of a category replaces the global one. *)
Definition handler_is_deprecated (p : policy) (scheme : string)
  (category : option string) : bool :=
  let global := default [] (deprecated p !! None) in
  let names := match category with
               | Some cat => default global (deprecated p !! Some cat)
               | None => global
               end in
  bool_decide (scheme ∈ names).

(** A key that sets the scheme list, the default or the deprecated list of
    the global scope. *)
Definition sets_global (k : key) : bool :=
  match split_key k with
  | Ok (None, scheme, opt) =>
      String.eqb scheme "context"
      && (String.eqb opt "schemes" || String.eqb opt "default"
          || String.eqb opt "deprecated")
  | _ => false
  end.

(** The source of the policy with schemes [a] and [b], default [a] and
    [a] deprecated. *)
Definition source_ab : source :=
  [(["schemes"], VList ["a"; "b"]);
   (["default"], VStr "a");
   (["deprecated"], VList ["a"])].

End Policy.

(** * Handlers with rounds *)

Module Rounds.

(** The class attributes of a handler that supports rounds. *)
Record handler : Type := {
  min_rounds : Z;
  max_rounds : Z;
  default_rounds : option Z
}.

(** The [rounds] argument of the constructor: left out (or [None]), an
    integer, or a value that is not an integer. *)
Inductive arg : Type :=
| NoRounds
| IntRounds (n : Z)
| OtherRounds.

Inductive warning : Type :=
| RoundsBelowMin
| RoundsAboveMax.

(** An instance, with the warnings its construction signalled. *)
Record instance : Type := {
  rounds : Z;
  warnings : list warning
}.

(** Modelled from the spec: [lib/passlib/utils/handlers.py] is not part of
    the sources. [rounds] must be an integer in [[min_rounds, max_rounds]];
    when it is left out, [default_rounds] is used if defaults are
    requested and the class has one, and a [TypeError] is raised
    otherwise; a value outside the bounds raises [ValueError], or in
    relaxed mode is clamped with a warning. *)
Definition init (cls : handler) (r : arg) (use_defaults relaxed : bool)
  : result instance :=
  match r with
  | NoRounds =>
      if use_defaults then
        match default_rounds cls with
        | Some d => Ok {| rounds := d; warnings := [] |}
        | None => Raise TypeError
        end
      else Raise TypeError
  | OtherRounds => Raise TypeError
  | IntRounds n =>
      if bool_decide (n < min_rounds cls) then
        if relaxed then
          Ok {| rounds := min_rounds cls; warnings := [RoundsBelowMin] |}
        else Raise ValueError
      else if bool_decide (max_rounds cls < n) then
        if relaxed then
          Ok {| rounds := max_rounds cls; warnings := [RoundsAboveMax] |}
        else Raise ValueError
      else Ok {| rounds := n; warnings := [] |}
  end.

(** The handler [d1] of the rounds test, and [d1] once its
    [default_rounds] is set to [None]. *)
Definition d1 : handler :=
  {| min_rounds := 1; max_rounds := 3; default_rounds := Some 2 |}.

End Rounds.

(** * More of the codec *)

(** [Base64Engine.repair_unused] *)
Definition repair_unused (self : Base64Engine) (source : pyval)
  : result pyval :=
  r ← check_repair_unused self source;
  Ok r.2.

(** ** Transposed encoding *)

(** [sequence[i] = x], with Python's negative indices. *)
Definition setitem {A} (l : list A) (i : Z) (x : A) : result (list A) :=
  let j := if bool_decide (i < 0) then i + len l else i in
  if bool_decide (0 ≤ j < len l) then Ok (<[Z.to_nat j := x]> l)
  else Raise IndexError.

(** A loop [for x in xs: state = f(state, x)] whose body can raise. *)
Fixpoint for_each {A B} (f : B → A → result B) (state : B) (xs : list A)
  : result B :=
  match xs with
  | [] => Ok state
  | x :: xs' =>
      match f state x with
      | Ok state' => for_each f state' xs'
      | Raise e => Raise e
      end
  end.

(** [Base64Engine.encode_transposed_bytes] *)
Definition encode_transposed_bytes (self : Base64Engine) (source : pyval)
  (offsets : list Z) : result (list byte) :=
  match source with
  | PyBytes source =>
      tmp ← mapR (getitem source) offsets;
      encode_bytes self (PyBytes (join_byte_elems tmp))
  | _ => Raise TypeError
  end.

(** [join_byte_elems(buf)] for a buffer that can still hold [None]: a [None]
    is no byte element, and the join raises [TypeError]. *)
Definition join_byte_elems_opt (buf : list (option byte))
  : result (list byte) :=
  mapR (λ elem, match elem with
                | Some b => Ok b
                | None => Raise TypeError
                end) buf.

(** [Base64Engine.decode_transposed_bytes] *)
Definition decode_transposed_bytes (self : Base64Engine) (source : pyval)
  (offsets : list Z) : result (list byte) :=
  tmp ← decode_bytes self source;
  buf ← for_each (λ buf p, setitem buf p.1 (Some p.2))
                 (replicate (length offsets) None) (zip offsets tmp);
  join_byte_elems_opt buf.

(** ** Integers of 6, 12, 24 and 30 bits *)

(** [try: ... except KeyError: raise ValueError(...)] *)
Definition except_KeyError {A} (r : result A) : result A :=
  match r with
  | Raise KeyError => Raise ValueError
  | _ => r
  end.

(** [Base64Engine.decode_int6] *)
Definition decode_int6 (self : Base64Engine) (source : pyval) : result Z :=
  match source with
  | PyBytes source =>
      if bool_decide (len source ≠ 1) then Raise ValueError
      else
        source ← getitem source 0;
        except_KeyError (_decode64 self source)
  | _ => Raise TypeError
  end.

(** [Base64Engine.decode_int12]; the operands of [+] are evaluated from the
    left. *)
Definition decode_int12 (self : Base64Engine) (source : pyval) : result Z :=
  match source with
  | PyBytes source =>
      if bool_decide (len source ≠ 2) then Raise ValueError
      else
        let decode i := c ← getitem source i; _decode64 self c in
        except_KeyError
          (if big self then
             a ← decode 1; b ← decode 0; Ok (a + Z.shiftl b 6)
           else
             a ← decode 0; b ← decode 1; Ok (a + Z.shiftl b 6))
  | _ => Raise TypeError
  end.

(** [Base64Engine.decode_int24] *)
Definition decode_int24 (self : Base64Engine) (source : pyval) : result Z :=
  match source with
  | PyBytes source =>
      if bool_decide (len source ≠ 4) then Raise ValueError
      else
        let decode i := c ← getitem source i; _decode64 self c in
        except_KeyError
          (if big self then
             a ← decode 3; b ← decode 2; c ← decode 1; d ← decode 0;
             Ok (a + Z.shiftl b 6 + Z.shiftl c 12 + Z.shiftl d 18)
           else
             a ← decode 0; b ← decode 1; c ← decode 2; d ← decode 3;
             Ok (a + Z.shiftl b 6 + Z.shiftl c 12 + Z.shiftl d 18))
  | _ => Raise TypeError
  end.

(** [Base64Engine.decode_int30] *)
Definition decode_int30 (self : Base64Engine) (source : pyval) : result Z :=
  _decode_int self source 30.

(** [sequence[start:stop]] for [0 <= start <= stop]. *)
Definition getslice {A} (l : list A) (start stop : Z) : list A :=
  take (Z.to_nat (stop - start)) (drop (Z.to_nat start) l).

(** [Base64Engine.encode_int6], on Python 3: a slice of [bytemap]. *)
Definition encode_int6 (self : Base64Engine) (value : Z)
  : result (list byte) :=
  if bool_decide (value < 0 ∨ value > 63) then Raise ValueError
  else Ok (getslice (bytemap self) value (value + 1)).

(** [Base64Engine.encode_int12] *)
Definition encode_int12 (self : Base64Engine) (value : Z)
  : result (list byte) :=
  if bool_decide (value < 0 ∨ value > 0xFFF) then Raise ValueError
  else
    let raw := [Z.land value 0x3f; Z.land (Z.shiftr value 6) 0x3f] in
    let raw := if big self then reverse raw else raw in
    out ← mapR (_encode64 self) raw;
    Ok (join_byte_elems out).

(** [Base64Engine.encode_int24] *)
Definition encode_int24 (self : Base64Engine) (value : Z)
  : result (list byte) :=
  if bool_decide (value < 0 ∨ value > 0xFFFFFF) then Raise ValueError
  else
    let raw := [Z.land value 0x3f; Z.land (Z.shiftr value 6) 0x3f;
                Z.land (Z.shiftr value 12) 0x3f;
                Z.land (Z.shiftr value 18) 0x3f] in
    let raw := if big self then reverse raw else raw in
    out ← mapR (_encode64 self) raw;
    Ok (join_byte_elems out).

(** [Base64Engine.encode_int30] *)
Definition encode_int30 (self : Base64Engine) (value : Z)
  : result (list byte) :=
  if bool_decide (value < 0 ∨ value > 0x3fffffff) then Raise ValueError
  else _encode_int self value 30.

(** ** Byte translations *)

(** [ALL_BYTE_VALUES = join_byte_values(irange(256))] *)
Definition ALL_BYTE_VALUES : result (list byte) :=
  join_byte_values (irange 0 256 1).

(** Modelled from the spec: [iter_byte_chars] is a helper of
    [lib/passlib/utils/compat], which is not part of the sources; it yields
    the bytes of a byte string, each one as a byte string of length one. *)
Definition iter_byte_chars (source : list byte) : list (list byte) :=
  map (λ c, [c]) source.

(** [_TRANSLATE_SOURCE = list(iter_byte_chars(ALL_BYTE_VALUES))] *)
Definition _TRANSLATE_SOURCE : result (list (list byte)) :=
  all ← ALL_BYTE_VALUES;
  Ok (iter_byte_chars all).

(** [ord(k)] on a string: the string must hold one character. *)
Definition py_ord (k : pyval) : result pyval :=
  match k with
  | PyBytes [c] => Ok (PyInt (ord c))
  | PyUnicode [c] => Ok (PyInt c)
  | _ => Raise TypeError
  end.

(** [v.encode("ascii")]; a code point above 127 raises [UnicodeEncodeError],
    a [ValueError]. *)
Definition encode_ascii (u : list Z) : result (list byte) :=
  mapR (λ c, if bool_decide (0 ≤ c < 128) then byte_of_value c
             else Raise ValueError) u.

(** The body of the loop of [compile_byte_translation]. *)
Definition translation_step (target : list (list byte)) (item : pyval * pyval)
  : result (list (list byte)) :=
  let '(k, v) := item in
  k ← (if isinstance_unicode k || isinstance_bytes k then py_ord k
       else Ok k);
  k ← match k with
      | PyInt k => assert (bool_decide (0 ≤ k < 256));; Ok k
      | _ => Raise AssertionError
      end;
  v ← match v with
      | PyUnicode u => b ← encode_ascii u; Ok (PyBytes b)
      | _ => Ok v
      end;
  v ← match v with
      | PyBytes b => assert (bool_decide (len b = 1));; Ok b
      | _ => Raise AssertionError
      end;
  setitem target k v.

(** [compile_byte_translation(mapping, source)]; [mapping] is given by its
    items, in the order the dict yields them. *)
Definition compile_byte_translation (mapping : list (pyval * pyval))
  (source : pyval) : result (list byte) :=
  target ← match source with
           | PyNone => _TRANSLATE_SOURCE
           | PyBytes source =>
               assert (bool_decide (len source = 255));;
               Ok (iter_byte_chars source)
           | _ => Raise AssertionError
           end;
  target ← for_each translation_step target mapping;
  Ok (concat target).

(** [_b32_translate = compile_byte_translation({"8": "B", "0": "O"})] *)
Definition _b32_translate : result (list byte) :=
  compile_byte_translation
    [(PyUnicode [56], PyUnicode [66]); (PyUnicode [48], PyUnicode [79])]
    PyNone.

(** The byte that the key of an item of the mapping names. *)
Definition key_value (k : pyval) : option Z :=
  match k with
  | PyInt n => Some n
  | PyBytes [c] => Some (ord c)
  | PyUnicode [c] => Some c
  | _ => None
  end.

(** The byte that the value of an item of the mapping gives. *)
Definition value_byte (v : pyval) : option byte :=
  match v with
  | PyBytes [b] => Some b
  | PyUnicode [c] =>
      if bool_decide (0 ≤ c < 128) then
        match byte_of_value c with
        | Ok b => Some b
        | Raise _ => None
        end
      else None
  | _ => None
  end.

(** An item that [compile_byte_translation] accepts. *)
Definition valid_item (item : pyval * pyval) : Prop :=
  match key_value item.1, value_byte item.2 with
  | Some n, Some _ => 0 ≤ n < 256
  | _, _ => False
  end.

(** * The test helper [_makelang] *)

(** The generator [helper(size)] inside [_makelang], as the list of strings
    it yields; [alphabet] is a string, iterated by character. [fuel] bounds
    the depth of the recursion. *)
Fixpoint _makelang_helper (alphabet : string) (fuel : nat) (size : Z)
  : list string :=
  match fuel with
  | O => []
  | S fuel =>
      if bool_decide (size < 2) then
        map (λ char, String char EmptyString) (String.list_ascii_of_string alphabet)
      else
        flat_map (λ char,
                    map (λ tail, String char tail)
                        (_makelang_helper alphabet fuel (size - 1)))
                 (String.list_ascii_of_string alphabet)
  end.

(** [_makelang(alphabet, size)]: [set(helper(size))]; the recursion is at
    most [size] deep. *)
Definition _makelang (alphabet : string) (size : Z) : gset string :=
  list_to_set (_makelang_helper alphabet (S (Z.to_nat size)) size).

(** * Properties of the codec *)

(** ** Bytes and their values *)

Lemma ord_range (b : byte) : 0 ≤ ord b < 256.
Proof.
  unfold ord. pose proof (Byte.to_N_bounded b). lia.
Qed.

Lemma ord_inj (a b : byte) : ord a = ord b → a = b.
Proof.
  unfold ord. intros H. apply N2Z.inj in H.
  pose proof (Byte.of_to_N a) as Ha. rewrite H, Byte.of_to_N in Ha.
  congruence.
Qed.

#[global] Instance ord_Inj : Inj (=) (=) ord.
Proof. intros a b. apply ord_inj. Qed.

Lemma byte_of_value_ord (b : byte) : byte_of_value (ord b) = Ok b.
Proof.
  unfold byte_of_value. pose proof (ord_range b).
  rewrite bool_decide_true by lia.
  unfold ord. rewrite N2Z.id, Byte.of_to_N. reflexivity.
Qed.

Lemma byte_of_value_range (v : Z) :
  0 ≤ v < 256 → ∃ b, byte_of_value v = Ok b ∧ ord b = v.
Proof.
  intros Hv. unfold byte_of_value. rewrite bool_decide_true by lia.
  destruct (Byte.of_N (Z.to_N v)) as [b|] eqn:E.
  - exists b. split; [reflexivity|]. apply Byte.to_of_N in E.
    unfold ord. rewrite E. lia.
  - apply Byte.of_N_None_iff in E. lia.
Qed.

Lemma join_byte_values_ord (l : list byte) :
  join_byte_values (map ord l) = Ok l.
Proof.
  unfold join_byte_values. induction l as [|b l IH]; simpl; [reflexivity|].
  rewrite byte_of_value_ord. simpl. rewrite IH. reflexivity.
Qed.

(** ** The engine built by [__init__] *)

(** What [__init__] establishes. *)
Definition engine_ok (e : Base64Engine) : Prop :=
  length (bytemap e) = 64%nat ∧
  NoDup (map ord (bytemap e)) ∧
  lookup e = dict_of (enumerate_from 0 (bytemap e)).

Lemma size_list_to_set_le (l : list Z) :
  (size (list_to_set l : gset Z) ≤ length l)%nat.
Proof.
  induction l as [|x l IH].
  - change (list_to_set [] : gset Z) with (∅ : gset Z).
    rewrite size_empty. simpl. lia.
  - change (list_to_set (x :: l) : gset Z)
      with ({[x]} ∪ list_to_set l : gset Z).
    simpl length. rewrite size_union_alt, size_singleton.
    assert (size (list_to_set l ∖ {[x]} : gset Z)
            ≤ size (list_to_set l : gset Z))%nat
      by (apply subseteq_size, subseteq_difference_l; reflexivity).
    lia.
Qed.

Lemma size_list_to_set_NoDup (l : list Z) :
  size (list_to_set l : gset Z) = length l → NoDup l.
Proof.
  induction l as [|x l IH]; intros Hs.
  - constructor.
  - change (list_to_set (x :: l) : gset Z)
      with ({[x]} ∪ list_to_set l : gset Z) in Hs.
    simpl length in Hs.
    destruct (decide (x ∈ l)) as [Hin|Hnin].
    + exfalso.
      assert (({[x]} ∪ list_to_set l : gset Z) = list_to_set l) as Heq
        by (apply subseteq_union_1_L, singleton_subseteq_l,
              elem_of_list_to_set; assumption).
      rewrite Heq in Hs. pose proof (size_list_to_set_le l). lia.
    + constructor; [assumption|]. apply IH.
      rewrite size_union, size_singleton in Hs
        by (apply disjoint_singleton_l; rewrite elem_of_list_to_set;
            assumption).
      lia.
Qed.

Lemma init_engine_ok (cm : pyval) (b : bool) (e : Base64Engine) :
  Base64Engine_init cm b = Ok e → engine_ok e ∧ big e = b.
Proof.
  unfold Base64Engine_init. intros H.
  destruct (match cm with
            | PyUnicode u => encode_latin1 u
            | PyBytes b0 => Ok b0
            | _ => Raise TypeError
            end) as [l|ex] eqn:El; simpl in H; [|discriminate].
  destruct (bool_decide (len l ≠ 64)) eqn:E1; [discriminate|].
  destruct (bool_decide (distinct_count l ≠ 64)) eqn:E2; [discriminate|].
  inversion H; subst e; clear H. simpl.
  apply bool_decide_eq_false in E1, E2.
  assert (len l = 64) as Hl by (destruct (decide (len l = 64)); tauto).
  assert (distinct_count l = 64) as Hd
    by (destruct (decide (distinct_count l = 64)); tauto).
  unfold len in Hl. unfold distinct_count in Hd.
  unfold engine_ok. simpl. repeat split.
  - lia.
  - apply size_list_to_set_NoDup. rewrite length_map. lia.
Qed.

(** The dictionary built over [enumerate]. *)
Lemma dict_fold_notin (l : list byte) (i k : Z) (m : gmap Z Z) :
  k ∉ map ord l →
  foldl (λ m p, <[ord p.2 := p.1]> m) m (enumerate_from i l) !! k = m !! k.
Proof.
  revert i m. induction l as [|c l IH]; intros i m Hk; simpl; [reflexivity|].
  simpl in Hk. apply not_elem_of_cons in Hk as [Hne Hk].
  rewrite IH by assumption. apply lookup_insert_ne. congruence.
Qed.

Lemma dict_fold_lookup (l : list byte) (i : Z) (m : gmap Z Z) (n : nat)
  (c : byte) :
  NoDup (map ord l) → l !! n = Some c →
  foldl (λ m p, <[ord p.2 := p.1]> m) m (enumerate_from i l) !! ord c
  = Some (i + Z.of_nat n).
Proof.
  revert i m n. induction l as [|x l IH]; intros i m n Hnd Hn; [discriminate|].
  simpl in Hnd. apply NoDup_cons in Hnd as [Hx Hnd].
  destruct n as [|n]; simpl in *.
  - inversion Hn; subst x. rewrite dict_fold_notin by assumption.
    rewrite lookup_insert_eq. f_equal. lia.
  - rewrite (IH (i + 1) _ n) by assumption. f_equal. lia.
Qed.

Lemma dict_fold_inv (l : list byte) (i k v : Z) (m : gmap Z Z) :
  foldl (λ m p, <[ord p.2 := p.1]> m) m (enumerate_from i l) !! k = Some v →
  m !! k = Some v ∨
  ∃ (n : nat) (c : byte),
    l !! n = Some c ∧ ord c = k ∧ v = i + Z.of_nat n.
Proof.
  revert i m. induction l as [|x l IH]; intros i m H; simpl in H; [auto|].
  apply IH in H as [H|(n & c & Hn & Hc & Hv)].
  - destruct (decide (ord x = k)) as [Hk|Hk].
    + subst k. rewrite lookup_insert_eq in H.
      right. exists 0%nat, x. simpl.
      split; [reflexivity|split; [reflexivity|]]. injection H. lia.
    + rewrite lookup_insert_ne in H by assumption. auto.
  - right. exists (S n), c. simpl.
    split; [assumption|split; [assumption|lia]].
Qed.

Section Engine.
Variable e : Base64Engine.
Hypothesis He : engine_ok e.

Lemma getitem_bytemap (v : Z) (c : byte) :
  0 ≤ v → bytemap e !! Z.to_nat v = Some c → _encode64 e v = Ok c.
Proof.
  intros Hv Hc. unfold _encode64, getitem. cbv zeta.
  rewrite (bool_decide_false (v < 0)) by lia.
  rewrite (bool_decide_true (0 ≤ v)) by lia.
  rewrite Hc. reflexivity.
Qed.

(** Every 6-bit value has a character, which decodes back to it. *)
Lemma encode64_decode64 (v : Z) :
  0 ≤ v < 64 → ∃ c, _encode64 e v = Ok c ∧ _decode64 e c = Ok v.
Proof.
  intros Hv. destruct He as (Hlen & Hnd & Hlk).
  destruct (lookup_lt_is_Some_2 (bytemap e) (Z.to_nat v)) as [c Hc]; [lia|].
  exists c. split; [apply getitem_bytemap; [lia|assumption]|].
  unfold _decode64. rewrite Hlk. unfold dict_of.
  rewrite (dict_fold_lookup _ 0 ∅ (Z.to_nat v) c) by assumption.
  f_equal. lia.
Qed.

(** A character that decodes is the character of its value. *)
Lemma decode64_inv (c : byte) (v : Z) :
  _decode64 e c = Ok v → 0 ≤ v < 64 ∧ _encode64 e v = Ok c.
Proof.
  destruct He as (Hlen & Hnd & Hlk).
  unfold _decode64. rewrite Hlk.
  destruct (dict_of _ !! ord c) as [w|] eqn:E; [|discriminate].
  intros H; inversion H; subst w; clear H.
  apply dict_fold_inv in E as [E|(n & c' & Hn & Hc & Hv)];
    [rewrite lookup_empty in E; discriminate|].
  apply ord_inj in Hc. subst c'.
  pose proof (lookup_lt_Some _ _ _ Hn) as Hlt.
  split; [lia|]. apply getitem_bytemap; [lia|].
  replace (Z.to_nat v) with n by lia. assumption.
Qed.

Lemma decode64_error (c : byte) :
  (∃ v, _decode64 e c = Ok v) ∨ _decode64 e c = Raise KeyError.
Proof.
  unfold _decode64. destruct (lookup e !! ord c); eauto.
Qed.
End Engine.

(** ** Facts about bytes, checked on every byte *)

Lemma all_below_1 (n : Z) (P : Z → bool) :
  forallb P (seqZ 0 n) = true → ∀ a, 0 ≤ a < n → P a = true.
Proof.
  intros H a Ha. rewrite forallb_forall in H. apply H.
  apply list_elem_of_In, elem_of_seqZ. lia.
Qed.

Lemma all_below_2 (n m : Z) (P : Z → Z → bool) :
  forallb (λ a, forallb (P a) (seqZ 0 m)) (seqZ 0 n) = true →
  ∀ a b, 0 ≤ a < n → 0 ≤ b < m → P a b = true.
Proof.
  intros H a b Ha Hb.
  pose proof (all_below_1 n _ H a Ha) as H1. simpl in H1.
  apply (all_below_1 m _ H1 b Hb).
Qed.

(** Prove [∀ a, 0 ≤ a < n → X = Y] (and the same with two variables) by
    evaluating both sides on every value. *)
Ltac below1 :=
  unfold is_byte, is_six;
  let a := fresh "a" in
  let Ha := fresh "Ha" in
  intros a Ha; apply Z.eqb_eq; revert a Ha;
  match goal with
  | |- ∀ a, 0 ≤ a < ?n → @?P a = true => apply (all_below_1 n P)
  end;
  vm_compute; reflexivity.

Ltac below2 :=
  unfold is_byte, is_six;
  let a := fresh "a" in
  let b := fresh "b" in
  let Ha := fresh "Ha" in
  let Hb := fresh "Hb" in
  intros a b Ha Hb; apply Z.eqb_eq; revert a b Ha Hb;
  match goal with
  | |- ∀ a b, 0 ≤ a < ?n → 0 ≤ b < ?m → @?P a b = true =>
      apply (all_below_2 n m P)
  end;
  vm_compute; reflexivity.

(** A value is within [k] bits exactly when masking leaves it unchanged. *)
Lemma land_ones_id (k v : Z) :
  0 ≤ k → Z.land v (Z.ones k) = v → 0 ≤ v < 2 ^ k.
Proof.
  intros Hk H. rewrite Z.land_ones in H by lia.
  pose proof (Z.mod_pos_bound v (2 ^ k)). rewrite <- H. lia.
Qed.

Lemma is_six_mask (v : Z) : Z.land v 0x3f = v → is_six v.
Proof. intros H. apply (land_ones_id 6) in H; [exact H|lia]. Qed.

Lemma is_byte_mask (v : Z) : Z.land v 0xff = v → is_byte v.
Proof. intros H. apply (land_ones_id 8) in H; [exact H|lia]. Qed.

Lemma is_six_byte (v : Z) : is_six v → is_byte v.
Proof. unfold is_six, is_byte. lia. Qed.

(** *** The encoders yield 6-bit values *)

Lemma enc_little_chunk_six (v1 v2 v3 : Z) :
  is_byte v1 → is_byte v2 → is_byte v3 →
  Forall is_six (enc_little_chunk [v1; v2; v3]).
Proof.
  intros H1 H2 H3. unfold enc_little_chunk.
  repeat apply Forall_cons_2; try apply Forall_nil_2; apply is_six_mask.
  - revert v1 H1. below1.
  - revert v1 v2 H1 H2. below2.
  - revert v2 v3 H2 H3. below2.
  - revert v3 H3. below1.
Qed.

Lemma enc_little_tail_six (vs : list Z) :
  Forall is_byte vs → Forall is_six (enc_little_tail vs).
Proof.
  intros H. destruct vs as [|v1 [|v2 [|v3 vs]]]; simpl;
    try apply Forall_nil_2.
  - apply Forall_cons in H as [H1 _].
    repeat apply Forall_cons_2; try apply Forall_nil_2; apply is_six_mask.
    + revert v1 H1. below1.
    + revert v1 H1. below1.
  - apply Forall_cons in H as [H1 H]. apply Forall_cons in H as [H2 _].
    repeat apply Forall_cons_2; try apply Forall_nil_2; apply is_six_mask.
    + revert v1 H1. below1.
    + revert v1 v2 H1 H2. below2.
    + revert v2 H2. below1.
Qed.

Lemma enc_big_chunk_six (v1 v2 v3 : Z) :
  is_byte v1 → is_byte v2 → is_byte v3 →
  Forall is_six (enc_big_chunk [v1; v2; v3]).
Proof.
  intros H1 H2 H3. unfold enc_big_chunk.
  repeat apply Forall_cons_2; try apply Forall_nil_2; apply is_six_mask.
  - revert v1 H1. below1.
  - revert v1 v2 H1 H2. below2.
  - revert v2 v3 H2 H3. below2.
  - revert v3 H3. below1.
Qed.

Lemma enc_big_tail_six (vs : list Z) :
  Forall is_byte vs → Forall is_six (enc_big_tail vs).
Proof.
  intros H. destruct vs as [|v1 [|v2 [|v3 vs]]]; simpl;
    try apply Forall_nil_2.
  - apply Forall_cons in H as [H1 _].
    repeat apply Forall_cons_2; try apply Forall_nil_2; apply is_six_mask.
    + revert v1 H1. below1.
    + revert v1 H1. below1.
  - apply Forall_cons in H as [H1 H]. apply Forall_cons in H as [H2 _].
    repeat apply Forall_cons_2; try apply Forall_nil_2; apply is_six_mask.
    + revert v1 H1. below1.
    + revert v1 v2 H1 H2. below2.
    + revert v2 H2. below1.
Qed.

(** *** The decoders yield byte values *)

Lemma dec_little_chunk_byte (v1 v2 v3 v4 : Z) :
  is_six v1 → is_six v2 → is_six v3 → is_six v4 →
  Forall is_byte (dec_little_chunk [v1; v2; v3; v4]).
Proof.
  intros H1 H2 H3 H4. unfold dec_little_chunk.
  repeat apply Forall_cons_2; try apply Forall_nil_2; apply is_byte_mask.
  - revert v1 v2 H1 H2. below2.
  - revert v2 v3 H2 H3. below2.
  - revert v3 v4 H3 H4. below2.
Qed.

Lemma dec_little_tail_byte (vs : list Z) :
  Forall is_six vs → Forall is_byte (dec_little_tail vs).
Proof.
  intros H. destruct vs as [|v1 [|v2 [|v3 [|v4 vs]]]]; simpl;
    try apply Forall_nil_2.
  - apply Forall_cons in H as [H1 H]. apply Forall_cons in H as [H2 _].
    repeat apply Forall_cons_2; try apply Forall_nil_2; apply is_byte_mask.
    revert v1 v2 H1 H2. below2.
  - apply Forall_cons in H as [H1 H]. apply Forall_cons in H as [H2 H].
    apply Forall_cons in H as [H3 _].
    repeat apply Forall_cons_2; try apply Forall_nil_2; apply is_byte_mask.
    + revert v1 v2 H1 H2. below2.
    + revert v2 v3 H2 H3. below2.
Qed.

Lemma dec_big_chunk_byte (v1 v2 v3 v4 : Z) :
  is_six v1 → is_six v2 → is_six v3 → is_six v4 →
  Forall is_byte (dec_big_chunk [v1; v2; v3; v4]).
Proof.
  intros H1 H2 H3 H4. unfold dec_big_chunk.
  repeat apply Forall_cons_2; try apply Forall_nil_2; apply is_byte_mask.
  - revert v1 v2 H1 H2. below2.
  - revert v2 v3 H2 H3. below2.
  - revert v3 v4 H3 H4. below2.
Qed.

Lemma dec_big_tail_byte (vs : list Z) :
  Forall is_six vs → Forall is_byte (dec_big_tail vs).
Proof.
  intros H. destruct vs as [|v1 [|v2 [|v3 [|v4 vs]]]]; simpl;
    try apply Forall_nil_2.
  - apply Forall_cons in H as [H1 H]. apply Forall_cons in H as [H2 _].
    repeat apply Forall_cons_2; try apply Forall_nil_2; apply is_byte_mask.
    revert v1 v2 H1 H2. below2.
  - apply Forall_cons in H as [H1 H]. apply Forall_cons in H as [H2 H].
    apply Forall_cons in H as [H3 _].
    repeat apply Forall_cons_2; try apply Forall_nil_2; apply is_byte_mask.
    + revert v1 v2 H1 H2. below2.
    + revert v2 v3 H2 H3. below2.
Qed.

(** *** Decoding a group undoes encoding it *)

Lemma little_mid_low (v1 v2 : Z) : is_byte v1 → is_byte v2 →
  Z.shiftr (Z.lor (Z.shiftl (Z.land v2 0x0f) 2) (Z.shiftr v1 6)) 2
  = Z.land v2 0x0f.
Proof. revert v1 v2. below2. Qed.

Lemma little_mid_high (v2 v3 : Z) : is_byte v2 → is_byte v3 →
  Z.land (Z.lor (Z.shiftl (Z.land v3 0x03) 4) (Z.shiftr v2 4)) 0xF
  = Z.shiftr v2 4.
Proof. revert v2 v3. below2. Qed.

Lemma nibbles_low_high (v : Z) : is_byte v →
  Z.lor (Z.land v 0x0f) (Z.shiftl (Z.shiftr v 4) 4) = v.
Proof. revert v. below1. Qed.

Lemma little_first (v1 v2 : Z) : is_byte v1 → is_byte v2 →
  Z.lor (Z.land v1 0x3f)
    (Z.shiftl
       (Z.land (Z.lor (Z.shiftl (Z.land v2 0x0f) 2) (Z.shiftr v1 6)) 0x3) 6)
  = v1.
Proof. revert v1 v2. below2. Qed.

Lemma little_third (v2 v3 : Z) : is_byte v2 → is_byte v3 →
  Z.lor (Z.shiftr (Z.lor (Z.shiftl (Z.land v3 0x03) 4) (Z.shiftr v2 4)) 4)
    (Z.shiftl (Z.shiftr v3 2) 2)
  = v3.
Proof. revert v2 v3. below2. Qed.

Lemma dec_enc_little_chunk (v1 v2 v3 : Z) :
  is_byte v1 → is_byte v2 → is_byte v3 →
  dec_little_chunk (enc_little_chunk [v1; v2; v3]) = [v1; v2; v3].
Proof.
  intros H1 H2 H3. unfold enc_little_chunk, dec_little_chunk.
  rewrite little_first, little_third by assumption.
  rewrite little_mid_low, little_mid_high by assumption.
  rewrite nibbles_low_high by assumption. reflexivity.
Qed.

Lemma little_tail1 (v : Z) : is_byte v →
  Z.lor (Z.land v 0x3f) (Z.shiftl (Z.land (Z.shiftr v 6) 0x3) 6) = v.
Proof. revert v. below1. Qed.

Lemma little_tail2 (v : Z) : is_byte v →
  Z.lor (Z.land v 0x0f) (Z.shiftl (Z.land (Z.shiftr v 4) 0xF) 4) = v.
Proof. revert v. below1. Qed.

Lemma dec_enc_little_tail (vs : list Z) :
  Forall is_byte vs → (length vs < 3)%nat →
  dec_little_tail (enc_little_tail vs) = vs.
Proof.
  intros H Hl. destruct vs as [|v1 [|v2 [|v3 vs]]]; simpl in *;
    [reflexivity| | |lia].
  - apply Forall_cons in H as [H1 _]. rewrite little_tail1 by assumption.
    reflexivity.
  - apply Forall_cons in H as [H1 H]. apply Forall_cons in H as [H2 _].
    rewrite little_first, little_mid_low, little_tail2 by assumption.
    reflexivity.
Qed.

Lemma big_first (v1 v2 : Z) : is_byte v1 → is_byte v2 →
  Z.lor (Z.shiftl (Z.shiftr v1 2) 2)
    (Z.shiftr (Z.lor (Z.shiftl (Z.land v1 0x03) 4) (Z.shiftr v2 4)) 4)
  = v1.
Proof. revert v1 v2. below2. Qed.

Lemma big_mid_high (v1 v2 : Z) : is_byte v1 → is_byte v2 →
  Z.land (Z.lor (Z.shiftl (Z.land v1 0x03) 4) (Z.shiftr v2 4)) 0xF
  = Z.shiftr v2 4.
Proof. revert v1 v2. below2. Qed.

Lemma big_mid_low (v2 v3 : Z) : is_byte v2 → is_byte v3 →
  Z.shiftr (Z.lor (Z.shiftl (Z.land v2 0x0f) 2) (Z.shiftr v3 6)) 2
  = Z.land v2 0x0f.
Proof. revert v2 v3. below2. Qed.

Lemma nibbles_high_low (v : Z) : is_byte v →
  Z.lor (Z.shiftl (Z.shiftr v 4) 4) (Z.land v 0x0f) = v.
Proof. revert v. below1. Qed.

Lemma big_third (v2 v3 : Z) : is_byte v2 → is_byte v3 →
  Z.lor
    (Z.shiftl
       (Z.land (Z.lor (Z.shiftl (Z.land v2 0x0f) 2) (Z.shiftr v3 6)) 0x3) 6)
    (Z.land v3 0x3f)
  = v3.
Proof. revert v2 v3. below2. Qed.

Lemma dec_enc_big_chunk (v1 v2 v3 : Z) :
  is_byte v1 → is_byte v2 → is_byte v3 →
  dec_big_chunk (enc_big_chunk [v1; v2; v3]) = [v1; v2; v3].
Proof.
  intros H1 H2 H3. unfold enc_big_chunk, dec_big_chunk.
  rewrite big_first, big_third by assumption.
  rewrite big_mid_high, big_mid_low by assumption.
  rewrite nibbles_high_low by assumption. reflexivity.
Qed.

Lemma big_tail1 (v : Z) : is_byte v →
  Z.lor (Z.shiftl (Z.shiftr v 2) 2)
    (Z.shiftr (Z.shiftl (Z.land v 0x03) 4) 4)
  = v.
Proof. revert v. below1. Qed.

Lemma big_tail2 (v : Z) : is_byte v →
  Z.lor (Z.shiftl (Z.shiftr v 4) 4)
    (Z.shiftr (Z.shiftl (Z.land v 0x0f) 2) 2)
  = v.
Proof. revert v. below1. Qed.

Lemma dec_enc_big_tail (vs : list Z) :
  Forall is_byte vs → (length vs < 3)%nat →
  dec_big_tail (enc_big_tail vs) = vs.
Proof.
  intros H Hl. destruct vs as [|v1 [|v2 [|v3 vs]]]; simpl in *;
    [reflexivity| | |lia].
  - apply Forall_cons in H as [H1 _]. rewrite big_tail1 by assumption.
    reflexivity.
  - apply Forall_cons in H as [H1 H]. apply Forall_cons in H as [H2 _].
    rewrite big_first, big_mid_high, big_tail2 by assumption.
    reflexivity.
Qed.

(** ** Mapping a function that can raise *)

Lemma mapR_ok_map {A B} (f : A → B) (l : list A) :
  mapR (λ x, Ok (f x)) l = Ok (map f l).
Proof.
  induction l as [|x l IH]; simpl; [reflexivity|].
  rewrite IH. reflexivity.
Qed.

Lemma mapR_length {A B} (f : A → result B) (l : list A) (ys : list B) :
  mapR f l = Ok ys → length ys = length l.
Proof.
  revert ys. induction l as [|x l IH]; intros ys H; simpl in H.
  - inversion H. reflexivity.
  - destruct (f x) as [y|ex]; simpl in H; [|discriminate].
    destruct (mapR f l) as [ys'|ex]; simpl in H; [|discriminate].
    inversion H. simpl. f_equal. apply IH. reflexivity.
Qed.

Lemma mapR_app {A B} (f : A → result B) (l1 l2 : list A) :
  mapR f (l1 ++ l2)
  = match mapR f l1 with
    | Ok ys1 =>
        match mapR f l2 with
        | Ok ys2 => Ok (ys1 ++ ys2)
        | Raise ex => Raise ex
        end
    | Raise ex => Raise ex
    end.
Proof.
  induction l1 as [|x l1 IH]; simpl.
  - destruct (mapR f l2); reflexivity.
  - destruct (f x) as [y|ex]; simpl; [|reflexivity].
    rewrite IH. destruct (mapR f l1); simpl; [|reflexivity].
    destruct (mapR f l2); reflexivity.
Qed.

Lemma mapR_Forall2 {A B} (f : A → result B) (l : list A) (ys : list B) :
  mapR f l = Ok ys ↔ Forall2 (λ x y, f x = Ok y) l ys.
Proof.
  revert ys. induction l as [|x l IH]; intros ys; simpl.
  - split.
    + intros H. inversion H. constructor.
    + intros H. inversion H. reflexivity.
  - split.
    + destruct (f x) as [y|ex] eqn:E; simpl; [|discriminate].
      destruct (mapR f l) as [ys'|ex] eqn:E'; simpl; [|discriminate].
      intros H. inversion H. constructor; [assumption|].
      apply IH. reflexivity.
    + intros H. inversion H as [|? y ? ys' Hy Hys]; subst.
      rewrite Hy. simpl. apply IH in Hys. rewrite Hys. reflexivity.
Qed.

(** ** What the generators yield *)

Lemma grouped_app (k : nat) (fc ft : list Z → list Z) (n : nat)
  (vs1 vs2 : list Z) :
  length vs1 = (n * k)%nat →
  grouped k fc ft n (vs1 ++ vs2)
  = grouped k fc (λ _, []) n vs1 ++ ft vs2.
Proof.
  revert vs1. induction n as [|n IH]; intros vs1 Hl; simpl in *.
  - destruct vs1; [reflexivity|discriminate].
  - rewrite <- app_assoc. rewrite take_app_le, drop_app_le by lia.
    f_equal. apply IH. rewrite length_drop. lia.
Qed.

Lemma while_idx_grouped (k : nat) (body : gen (list Z))
  (g : byte → result Z) (fc : list Z → list Z) :
  (∀ chunk rest, length chunk = k →
     body (chunk ++ rest)
     = match mapR g chunk with
       | Ok vs => Ok (fc vs, rest)
       | Raise ex => Raise ex
       end) →
  ∀ n src rest, length src = (n * k)%nat →
    while_idx n body (src ++ rest)
    = match mapR g src with
      | Ok vs => Ok (grouped k fc (λ _, []) n vs, rest)
      | Raise ex => Raise ex
      end.
Proof.
  intros Hbody. induction n as [|n IH]; intros src rest Hl; simpl in Hl.
  - destruct src; [reflexivity|discriminate].
  - rewrite <- (take_drop k src) at 1 2.
    rewrite <- app_assoc.
    simpl. unfold mbind, gen_bind.
    rewrite Hbody by (rewrite length_take; lia).
    rewrite mapR_app.
    destruct (mapR g (take k src)) as [vs1|ex] eqn:E1; [|reflexivity].
    rewrite IH by (rewrite length_drop; lia).
    destruct (mapR g (drop k src)) as [vs2|ex] eqn:E2; [|reflexivity].
    unfold mret, gen_ret. do 2 f_equal.
    apply mapR_length in E1. rewrite length_take in E1.
    rewrite take_app_length' by lia. rewrite drop_app_length' by lia.
    reflexivity.
Qed.

Ltac gen_unfold :=
  unfold mbind, mret, gen_bind, gen_ret, result_bind, nextgetter.

Ltac body_cases g :=
  repeat match goal with
         | |- context [g ?c] => destruct (g c); simpl
         end.

(** The four generators, run on a source of [n] full groups and a rest. *)
Ltac run_generator g k fc ft E tl :=
  unfold mbind at 1; unfold gen_bind at 1; rewrite Nat2Z.id;
  rewrite (while_idx_grouped k _ g fc);
  [ rewrite mapR_app;
    destruct (mapR g _) as [?vs|?ex] eqn:E; [|reflexivity];
    apply mapR_length in E; gen_unfold;
    destruct tl as [|?c [|?c [|?c [|?c ?tl]]]]; simpl in *; try lia;
    body_cases g; rewrite ?(grouped_app k fc ft) by lia;
    rewrite ?app_nil_r; reflexivity
  | clear;
    let chunk := fresh "chunk" in
    let rest := fresh "rest" in
    let Hc := fresh "Hc" in
    intros chunk rest Hc; gen_unfold;
    destruct chunk as [|?c [|?c [|?c [|?c [|?c chunk]]]]];
    try discriminate; simpl; body_cases g; reflexivity
  | assumption ].

Section Generators.
Variable g : byte → result Z.

Lemma encode_little_run (n : nat) (src tl : list byte) :
  length src = (n * 3)%nat → (length tl < 3)%nat →
  _encode_bytes_little (nextgetter g) (Z.of_nat n) (len tl) (src ++ tl)
  = match mapR g (src ++ tl) with
    | Ok vs => Ok (grouped 3 enc_little_chunk enc_little_tail n vs, [])
    | Raise ex => Raise ex
    end.
Proof.
  intros Hs Ht. unfold _encode_bytes_little.
  run_generator g 3%nat enc_little_chunk enc_little_tail E tl.
Qed.

Lemma encode_big_run (n : nat) (src tl : list byte) :
  length src = (n * 3)%nat → (length tl < 3)%nat →
  _encode_bytes_big (nextgetter g) (Z.of_nat n) (len tl) (src ++ tl)
  = match mapR g (src ++ tl) with
    | Ok vs => Ok (grouped 3 enc_big_chunk enc_big_tail n vs, [])
    | Raise ex => Raise ex
    end.
Proof.
  intros Hs Ht. unfold _encode_bytes_big.
  run_generator g 3%nat enc_big_chunk enc_big_tail E tl.
Qed.

Lemma decode_little_run (n : nat) (src tl : list byte) :
  length src = (n * 4)%nat → (length tl < 4)%nat → length tl ≠ 1%nat →
  _decode_bytes_little (nextgetter g) (Z.of_nat n) (len tl) (src ++ tl)
  = match mapR g (src ++ tl) with
    | Ok vs => Ok (grouped 4 dec_little_chunk dec_little_tail n vs, [])
    | Raise ex => Raise ex
    end.
Proof.
  intros Hs Ht Ht1. unfold _decode_bytes_little.
  run_generator g 4%nat dec_little_chunk dec_little_tail E tl.
Qed.

Lemma decode_big_run (n : nat) (src tl : list byte) :
  length src = (n * 4)%nat → (length tl < 4)%nat → length tl ≠ 1%nat →
  _decode_bytes_big (nextgetter g) (Z.of_nat n) (len tl) (src ++ tl)
  = match mapR g (src ++ tl) with
    | Ok vs => Ok (grouped 4 dec_big_chunk dec_big_tail n vs, [])
    | Raise ex => Raise ex
    end.
Proof.
  intros Hs Ht Ht1. unfold _decode_bytes_big.
  run_generator g 4%nat dec_big_chunk dec_big_tail E tl.
Qed.
End Generators.

(** ** [encode_bytes] and [decode_bytes] in terms of the values *)

Lemma groups_divmod {A} (k n : nat) (src tl : list A) :
  length src = (n * k)%nat → (length tl < k)%nat →
  len (src ++ tl) / Z.of_nat k = Z.of_nat n ∧
  len (src ++ tl) mod Z.of_nat k = len tl.
Proof.
  intros Hs Ht. unfold len. rewrite length_app, Hs.
  replace (Z.of_nat (n * k + length tl))
    with (Z.of_nat (length tl) + Z.of_nat n * Z.of_nat k) by lia.
  rewrite Z.div_add, Z.mod_add by lia.
  rewrite Z.div_small, Z.mod_small by lia. split; lia.
Qed.

Lemma split_groups {A} (k : nat) (l : list A) :
  (0 < k)%nat →
  ∃ (n : nat) (src tl : list A),
    l = src ++ tl ∧ length src = (n * k)%nat ∧ (length tl < k)%nat ∧
    n = Z.to_nat (len l / Z.of_nat k).
Proof.
  intros Hk. set (n := Z.to_nat (len l / Z.of_nat k)).
  exists n, (take (n * k) l), (drop (n * k) l).
  assert (Z.of_nat n * Z.of_nat k ≤ len l ∧
          len l < Z.of_nat n * Z.of_nat k + Z.of_nat k) as [Hlo Hhi].
  { subst n. rewrite Z2Nat.id by (apply Z.div_pos; unfold len; lia).
    pose proof (Z.div_mod (len l) (Z.of_nat k)).
    pose proof (Z.mod_pos_bound (len l) (Z.of_nat k)). lia. }
  unfold len in *. rewrite take_drop, length_take, length_drop.
  repeat split; lia.
Qed.

Lemma encode_bytes_groups (e : Base64Engine) (n : nat) (src tl : list byte) :
  length src = (n * 3)%nat → (length tl < 3)%nat →
  encode_bytes e (PyBytes (src ++ tl))
  = mapR (_encode64 e) (enc_values (big e) n (map ord (src ++ tl))).
Proof.
  intros Hs Ht. unfold encode_bytes, divmod, collect, _encode_bytes.
  destruct (groups_divmod 3 n src tl Hs Ht) as [Hd Hm].
  change (Z.of_nat 3) with 3 in Hd, Hm. rewrite Hd, Hm.
  unfold enc_values.
  destruct (big e);
    [rewrite encode_big_run by assumption
    |rewrite encode_little_run by assumption];
    rewrite mapR_ok_map; unfold mbind, result_bind, join_byte_elems;
    match goal with |- context [mapR (_encode64 e) ?l] =>
      destruct (mapR (_encode64 e) l); reflexivity end.
Qed.

Lemma decode_bytes_groups (e : Base64Engine) (n : nat) (src tl : list byte) :
  length src = (n * 4)%nat → (length tl < 4)%nat → length tl ≠ 1%nat →
  decode_bytes e (PyBytes (src ++ tl))
  = match mapR (_decode64 e) (src ++ tl) with
    | Ok vs => join_byte_values (dec_values (big e) n vs)
    | Raise KeyError => Raise ValueError
    | Raise ex => Raise ex
    end.
Proof.
  intros Hs Ht Ht1. unfold decode_bytes, divmod, collect, _decode_bytes.
  destruct (groups_divmod 4 n src tl Hs Ht) as [Hd Hm].
  change (Z.of_nat 4) with 4 in Hd, Hm. rewrite Hd, Hm.
  rewrite bool_decide_false by (unfold len; lia).
  unfold dec_values.
  destruct (big e);
    [rewrite decode_big_run by assumption
    |rewrite decode_little_run by assumption];
    destruct (mapR (_decode64 e) (src ++ tl)); reflexivity.
Qed.

(** ** The values, group by group *)

Lemma grouped_Forall (k : nat) (fc ft : list Z → list Z) (P Q : Z → Prop) :
  (∀ chunk, length chunk = k → Forall Q chunk → Forall P (fc chunk)) →
  (∀ tl, Forall Q tl → Forall P (ft tl)) →
  ∀ n vs, (n * k ≤ length vs)%nat → Forall Q vs →
    Forall P (grouped k fc ft n vs).
Proof.
  intros Hc Ht. induction n as [|n IH]; intros vs Hl HQ; simpl in *.
  - apply Ht. assumption.
  - apply Forall_app. split.
    + apply Hc; [rewrite length_take; lia|]. apply Forall_take. assumption.
    + apply IH; [rewrite length_drop; lia|]. apply Forall_drop. assumption.
Qed.

Lemma grouped_inverse (k k' : nat) (fc ft gc gt : list Z → list Z)
  (Q : Z → Prop) :
  (∀ chunk, length chunk = k → Forall Q chunk →
     length (fc chunk) = k' ∧ gc (fc chunk) = chunk) →
  (∀ tl, (length tl < k)%nat → Forall Q tl → gt (ft tl) = tl) →
  ∀ n vs, (n * k ≤ length vs < n * k + k)%nat → Forall Q vs →
    grouped k' gc gt n (grouped k fc ft n vs) = vs.
Proof.
  intros Hc Ht. induction n as [|n IH]; intros vs Hl HQ; simpl in *.
  - apply Ht; [lia|assumption].
  - destruct (Hc (take k vs)) as [Hlen Hinv];
      [rewrite length_take; lia|apply Forall_take; assumption|].
    rewrite take_app_length' by lia.
    rewrite drop_app_length' by lia.
    rewrite Hinv, IH; [apply take_drop|rewrite length_drop; lia|].
    apply Forall_drop. assumption.
Qed.

Lemma grouped_length (k k' : nat) (fc ft : list Z → list Z) :
  (∀ chunk, length chunk = k → length (fc chunk) = k') →
  ∀ n vs, (n * k ≤ length vs)%nat →
    length (grouped k fc ft n vs)
    = (n * k' + length (ft (drop (n * k) vs)))%nat.
Proof.
  intros Hc. induction n as [|n IH]; intros vs Hl; simpl in *.
  - rewrite drop_0. reflexivity.
  - rewrite length_app, Hc by (rewrite length_take; lia).
    rewrite IH by (rewrite length_drop; lia).
    rewrite drop_drop. lia.
Qed.

Ltac three_values chunk H :=
  destruct chunk as [|?v [|?v [|?v [|?v chunk]]]]; try discriminate;
  apply Forall_cons in H as [? H]; apply Forall_cons in H as [? H];
  apply Forall_cons in H as [? _].

Lemma enc_values_six (b : bool) (n : nat) (vs : list Z) :
  (n * 3 ≤ length vs)%nat → Forall is_byte vs →
  Forall is_six (enc_values b n vs).
Proof.
  intros Hl Hb. unfold enc_values.
  destruct b; apply (grouped_Forall 3 _ _ is_six is_byte); try assumption.
  - intros chunk Hc H. three_values chunk H.
    apply enc_big_chunk_six; assumption.
  - apply enc_big_tail_six.
  - intros chunk Hc H. three_values chunk H.
    apply enc_little_chunk_six; assumption.
  - apply enc_little_tail_six.
Qed.

Lemma dec_enc_values (b : bool) (n : nat) (vs : list Z) :
  (n * 3 ≤ length vs < n * 3 + 3)%nat → Forall is_byte vs →
  dec_values b n (enc_values b n vs) = vs.
Proof.
  intros Hl Hb. unfold enc_values, dec_values.
  destruct b; apply (grouped_inverse 3 4 _ _ _ _ is_byte); try assumption.
  - intros chunk Hc H. three_values chunk H.
    split; [reflexivity|]. apply dec_enc_big_chunk; assumption.
  - intros tl Hc H. apply dec_enc_big_tail; assumption.
  - intros chunk Hc H. three_values chunk H.
    split; [reflexivity|]. apply dec_enc_little_chunk; assumption.
  - intros tl Hc H. apply dec_enc_little_tail; assumption.
Qed.

(** A source of [3n + t] bytes gives [4n], [4n + 2] or [4n + 3] values. *)
Lemma enc_values_length (b : bool) (n : nat) (src tl : list Z) :
  length src = (n * 3)%nat → (length tl < 3)%nat →
  ∃ t', length (enc_values b n (src ++ tl)) = (n * 4 + t')%nat ∧
        (t' < 4)%nat ∧ t' ≠ 1%nat.
Proof.
  intros Hs Ht. unfold enc_values.
  exists (match length tl with O => 0 | 1 => 2 | _ => 3 end)%nat.
  split; [|destruct (length tl) as [|[|?]]; lia].
  destruct b;
    rewrite (grouped_length 3 4) by
      (try rewrite length_app; try lia;
       intros chunk Hc;
       destruct chunk as [|?v [|?v [|?v [|?v chunk]]]]; try discriminate;
       reflexivity);
    rewrite drop_app_length' by lia;
    destruct tl as [|v1 [|v2 [|v3 tl]]]; simpl in *; lia.
Qed.

(** ** Characters and values of a valid engine *)

Lemma h64_init (b : bool) :
  Base64Engine_init (PyUnicode HASH64_CHARS) b = Ok (h64_engine b).
Proof. destruct b; vm_compute; reflexivity. Qed.

Section Alphabet.
Variable e : Base64Engine.
Hypothesis He : engine_ok e.

Lemma in_alphabet_decode64 (c : byte) :
  in_alphabet e c ↔ ∃ v, _decode64 e c = Ok v.
Proof.
  unfold in_alphabet. split.
  - intros Hin. apply list_elem_of_lookup in Hin as [i Hi].
    destruct He as (Hlen & Hnd & Hlk).
    exists (Z.of_nat i). unfold _decode64. rewrite Hlk. unfold dict_of.
    rewrite (dict_fold_lookup _ 0 ∅ i c) by assumption. f_equal.
  - intros [v Hv]. apply (decode64_inv e He) in Hv as [Hr Hv].
    unfold _encode64, getitem in Hv. cbv zeta in Hv.
    rewrite (bool_decide_false (v < 0)) in Hv by lia.
    rewrite (bool_decide_true (0 ≤ v)) in Hv by lia.
    destruct (bytemap e !! Z.to_nat v) as [c'|] eqn:E; [|discriminate].
    inversion Hv; subst c'. eapply list_elem_of_lookup_2. exact E.
Qed.

Lemma mapR_encode64 (vs : list Z) :
  Forall is_six vs →
  ∃ out, mapR (_encode64 e) vs = Ok out ∧ mapR (_decode64 e) out = Ok vs.
Proof.
  induction 1 as [|v vs Hv _ IH]; simpl.
  - exists []. split; reflexivity.
  - destruct IH as (out & Hout & Hback).
    destruct (encode64_decode64 e He v Hv) as (c & Hc & Hd).
    exists (c :: out). rewrite Hc. simpl. rewrite Hout. simpl.
    rewrite Hd. simpl. rewrite Hback. split; reflexivity.
Qed.

Lemma mapR_decode64_six (src : list byte) (vs : list Z) :
  mapR (_decode64 e) src = Ok vs → Forall is_six vs.
Proof.
  intros H. apply mapR_Forall2 in H.
  induction H as [|c v src vs Hc _ IH]; constructor; [|assumption].
  apply (decode64_inv e He) in Hc. unfold is_six. tauto.
Qed.

Lemma mapR_decode64_alphabet (src : list byte) :
  Forall (in_alphabet e) src → ∃ vs, mapR (_decode64 e) src = Ok vs.
Proof.
  induction 1 as [|c src Hc _ IH]; simpl.
  - exists []. reflexivity.
  - apply in_alphabet_decode64 in Hc as [v Hv]. destruct IH as [vs Hvs].
    exists (v :: vs). rewrite Hv. simpl. rewrite Hvs. reflexivity.
Qed.

Lemma mapR_decode64_outside (src : list byte) (c : byte) :
  c ∈ src → ¬ in_alphabet e c → mapR (_decode64 e) src = Raise KeyError.
Proof.
  intros Hin Hc. induction src as [|x src IH]; [inversion Hin|].
  simpl. destruct (decode64_error e x) as [[v Hv]|Hx].
  - rewrite Hv. simpl.
    apply elem_of_cons in Hin as [->|Hin].
    + exfalso. apply Hc. apply in_alphabet_decode64. eauto.
    + rewrite IH by assumption. reflexivity.
  - rewrite Hx. reflexivity.
Qed.
End Alphabet.

Lemma join_byte_values_bytes (vs : list Z) :
  Forall is_byte vs → ∃ data, join_byte_values vs = Ok data.
Proof.
  unfold join_byte_values. induction 1 as [|v vs Hv _ IH]; simpl.
  - exists []. reflexivity.
  - destruct (byte_of_value_range v Hv) as (b & Hb & _).
    destruct IH as [data Hdata]. exists (b :: data).
    rewrite Hb. simpl. rewrite Hdata. reflexivity.
Qed.

Lemma Forall_ord_byte (l : list byte) : Forall is_byte (map ord l).
Proof.
  induction l; constructor; [apply ord_range|assumption].
Qed.

Ltac four_values chunk H :=
  destruct chunk as [|?v [|?v [|?v [|?v [|?v chunk]]]]]; try discriminate;
  apply Forall_cons in H as [? H]; apply Forall_cons in H as [? H];
  apply Forall_cons in H as [? H]; apply Forall_cons in H as [? _].

Lemma dec_values_byte (b : bool) (n : nat) (vs : list Z) :
  (n * 4 ≤ length vs)%nat → Forall is_six vs →
  Forall is_byte (dec_values b n vs).
Proof.
  intros Hl Hb. unfold dec_values.
  destruct b; apply (grouped_Forall 4 _ _ is_byte is_six); try assumption.
  - intros chunk Hc H. four_values chunk H.
    apply dec_big_chunk_byte; assumption.
  - apply dec_big_tail_byte.
  - intros chunk Hc H. four_values chunk H.
    apply dec_little_chunk_byte; assumption.
  - apply dec_little_tail_byte.
Qed.

(** [encode_bytes] of a valid engine returns on every byte string. *)
Lemma encode_bytes_returns (e : Base64Engine) (b : list byte) :
  engine_ok e → ∃ s, encode_bytes e (PyBytes b) = Ok s.
Proof.
  intros He.
  destruct (split_groups 3 b) as (n & src & tl & -> & Hs & Ht & _); [lia|].
  rewrite (encode_bytes_groups e n) by assumption.
  destruct (mapR_encode64 e He (enc_values (big e) n (map ord (src ++ tl))))
    as (s & Hs' & _).
  - apply enc_values_six; [|apply Forall_ord_byte].
    rewrite length_map, length_app. lia.
  - exists s. exact Hs'.
Qed.

(** ** Byte strings: the stated properties *)

(** C1: for every byte string [b] and either endianness of an engine built
    from a valid 64-character alphabet, [encode_bytes(b)] returns a string
    and [decode_bytes] of that string returns [b]. *)
Theorem decode_bytes_encode_bytes (charmap : pyval) (endian : bool)
  (e : Base64Engine) (b : list byte) :
  Base64Engine_init charmap endian = Ok e →
  ∃ s, encode_bytes e (PyBytes b) = Ok s
       ∧ decode_bytes e (PyBytes s) = Ok b.
Proof.
  intros Hinit. apply init_engine_ok in Hinit as [He _].
  destruct (split_groups 3 b) as (n & src & tl & -> & Hs & Ht & _); [lia|].
  rewrite (encode_bytes_groups e n) by assumption.
  pose proof (Forall_ord_byte (src ++ tl)) as Hb.
  assert (n * 3 ≤ length (map ord (src ++ tl)) < n * 3 + 3)%nat as Hl
    by (rewrite length_map, length_app; lia).
  destruct (mapR_encode64 e He (enc_values (big e) n
              (map ord (src ++ tl)))) as (s & Hs' & Hback).
  { apply enc_values_six; [lia|assumption]. }
  exists s. split; [assumption|].
  pose proof (mapR_length _ _ _ Hs') as Hlen.
  rewrite map_app in Hlen.
  destruct (enc_values_length (big e) n (map ord src) (map ord tl))
    as (t' & Hlen' & Ht' & Ht1); [rewrite length_map; lia..|].
  rewrite Hlen' in Hlen.
  destruct (split_groups 4 s) as (n' & src' & tl' & -> & Hs4 & Ht4 & Hn');
    [lia|].
  assert (n' = n) as ->.
  { rewrite length_app in Hlen. nia. }
  assert (length tl' ≠ 1%nat) by (rewrite length_app in Hlen; lia).
  rewrite (decode_bytes_groups e n) by assumption.
  rewrite Hback, dec_enc_values by assumption.
  apply join_byte_values_ord.
Qed.

Lemma decode_bytes_encode_bytes_witness :
  ∃ s, encode_bytes (h64_engine true) (PyBytes ["a"; "b"; "c"; "d"]%byte)
       = Ok s
       ∧ decode_bytes (h64_engine true) (PyBytes s)
         = Ok ["a"; "b"; "c"; "d"]%byte.
Proof.
  apply (decode_bytes_encode_bytes (PyUnicode HASH64_CHARS) true).
  vm_compute. reflexivity.
Defined.

(** C3: [decode_bytes] of a byte string raises [ValueError] when the length
    is 1 mod 4 or when a symbol is outside the alphabet, and returns for
    every other string of alphabet symbols. *)
Theorem decode_bytes_errors (charmap : pyval) (endian : bool)
  (e : Base64Engine) (source : list byte) :
  Base64Engine_init charmap endian = Ok e →
  (len source mod 4 = 1 ∨ (∃ c, c ∈ source ∧ ¬ in_alphabet e c) →
   decode_bytes e (PyBytes source) = Raise ValueError) ∧
  (len source mod 4 ≠ 1 → Forall (in_alphabet e) source →
   ∃ data, decode_bytes e (PyBytes source) = Ok data).
Proof.
  intros Hinit. apply init_engine_ok in Hinit as [He _].
  destruct (decide (len source mod 4 = 1)) as [H1|H1].
  - split; [|tauto]. intros _. unfold decode_bytes, divmod.
    rewrite bool_decide_true by assumption. reflexivity.
  - destruct (split_groups 4 source) as (n & src & tl & -> & Hs & Ht & _);
      [lia|].
    assert (length tl ≠ 1%nat) as Ht1.
    { destruct (groups_divmod 4 n src tl Hs Ht) as [_ Hm].
      change (Z.of_nat 4) with 4 in Hm. unfold len in Hm at 2. lia. }
    rewrite (decode_bytes_groups e n) by assumption. split.
    + intros [?|(c & Hin & Hout)]; [contradiction|].
      rewrite (mapR_decode64_outside e He _ c) by assumption. reflexivity.
    + intros _ Hall.
      destruct (mapR_decode64_alphabet e He _ Hall) as [vs Hvs].
      rewrite Hvs. apply join_byte_values_bytes, dec_values_byte.
      * apply mapR_length in Hvs. rewrite Hvs, length_app. lia.
      * apply (mapR_decode64_six e He _ _ Hvs).
Qed.

Lemma decode_bytes_errors_witness :
  (len ["a"; "!"]%byte mod 4 = 1 ∨
   (∃ c, c ∈ ["a"; "!"]%byte ∧ ¬ in_alphabet (h64_engine false) c) →
   decode_bytes (h64_engine false) (PyBytes ["a"; "!"]%byte)
   = Raise ValueError) ∧
  (len ["a"; "!"]%byte mod 4 ≠ 1 →
   Forall (in_alphabet (h64_engine false)) ["a"; "!"]%byte →
   ∃ data, decode_bytes (h64_engine false) (PyBytes ["a"; "!"]%byte)
           = Ok data).
Proof.
  apply (decode_bytes_errors (PyUnicode HASH64_CHARS) false).
  vm_compute. reflexivity.
Defined.

(** C5, as the code has it: [encode_bytes(b"")] returns the empty byte
    string and [decode_bytes(b"")] returns [b""]; the text string [""] is not
    a byte string and [decode_bytes] raises [TypeError] on it. *)
Theorem encode_decode_empty (e : Base64Engine) :
  encode_bytes e (PyBytes []) = Ok [] ∧
  decode_bytes e (PyBytes []) = Ok [] ∧
  decode_bytes e (PyUnicode []) = Raise TypeError.
Proof.
  unfold encode_bytes, decode_bytes, _encode_bytes, _decode_bytes.
  destruct (big e); repeat split; reflexivity.
Qed.

(** C5 as stated fails: on the text string [""], [decode_bytes] of the
    engine [h64] does not return [b""]. *)
Lemma decode_bytes_empty_text_raises :
  h64 = Ok (h64_engine false) ∧
  ¬ (decode_bytes (h64_engine false) (PyUnicode []) = Ok []).
Proof.
  split; [apply h64_init|]. intros H. discriminate H.
Qed.

(** C9: on every value that is not a byte string, unicode strings such as
    [""] included, [encode_bytes] and [decode_bytes] raise [TypeError]. *)
Theorem encode_decode_bytes_type_error (e : Base64Engine) (v : pyval) :
  isinstance_bytes v = false →
  encode_bytes e v = Raise TypeError ∧ decode_bytes e v = Raise TypeError.
Proof.
  destruct v; simpl; intros H; try discriminate; split; reflexivity.
Qed.

Lemma encode_decode_bytes_type_error_witness :
  encode_bytes (h64_engine false) (PyUnicode []) = Raise TypeError ∧
  decode_bytes (h64_engine false) (PyUnicode []) = Raise TypeError.
Proof.
  apply (encode_decode_bytes_type_error (h64_engine false) (PyUnicode [])).
  reflexivity.
Defined.

(** C10: for every byte string, each value yielded by the little-endian and
    by the big-endian encoding generator lies in [0, 64), and [encode_bytes]
    of an engine built by [__init__] returns: the lookup in the alphabet
    never raises [IndexError]. *)
Theorem encode_values_in_range (charmap : pyval) (endian : bool)
  (e : Base64Engine) (source : list byte) :
  Base64Engine_init charmap endian = Ok e →
  let '(chunks, tail) := divmod (len source) 3 in
  let next_value := nextgetter (λ elem, Ok (ord elem)) in
  (∃ vs, collect (_encode_bytes_little next_value chunks tail) source = Ok vs
         ∧ Forall (λ v, 0 ≤ v < 64) vs) ∧
  (∃ vs, collect (_encode_bytes_big next_value chunks tail) source = Ok vs
         ∧ Forall (λ v, 0 ≤ v < 64) vs) ∧
  (∃ out, encode_bytes e (PyBytes source) = Ok out).
Proof.
  intros Hinit. unfold divmod. apply init_engine_ok in Hinit as [He _].
  destruct (encode_bytes_returns e source He) as (s & Hs).
  destruct (split_groups 3 source) as (n & src & tl & -> & Hl & Ht & _);
    [lia|].
  destruct (groups_divmod 3 n src tl Hl Ht) as [Hd Hm].
  change (Z.of_nat 3) with 3 in Hd, Hm. rewrite Hd, Hm.
  pose proof (Forall_ord_byte (src ++ tl)) as Hb.
  assert (n * 3 ≤ length (map ord (src ++ tl)))%nat as Hlen
    by (rewrite length_map, length_app; lia).
  unfold collect. rewrite encode_little_run, encode_big_run by assumption.
  rewrite mapR_ok_map. repeat split.
  - eexists. split; [reflexivity|].
    apply (enc_values_six false); assumption.
  - eexists. split; [reflexivity|].
    apply (enc_values_six true); assumption.
  - exists s. assumption.
Qed.

Lemma encode_values_in_range_witness :
  let source := ["a"; "b"; "c"; "d"; "e"]%byte in
  let '(chunks, tail) := divmod (len source) 3 in
  let next_value := nextgetter (λ elem, Ok (ord elem)) in
  (∃ vs, collect (_encode_bytes_little next_value chunks tail) source = Ok vs
         ∧ Forall (λ v, 0 ≤ v < 64) vs) ∧
  (∃ vs, collect (_encode_bytes_big next_value chunks tail) source = Ok vs
         ∧ Forall (λ v, 0 ≤ v < 64) vs) ∧
  (∃ out, encode_bytes (h64_engine false) (PyBytes source) = Ok out).
Proof.
  apply (encode_values_in_range (PyUnicode HASH64_CHARS) false).
  vm_compute. reflexivity.
Defined.

(** ** Integers in groups of six bits *)

(** Reading the 6-bit groups of [V] from the most significant one gives back
    [V], up to the number of groups read. *)
Lemma horner_digits (V acc : Z) (n : nat) :
  0 ≤ V →
  foldl (λ out d, Z.shiftl out 6 + d) acc
    (map (λ off, Z.land (Z.shiftr V off) 0x3f)
         (map (λ i, 6 * i) (reverse (seqZ 0 (Z.of_nat n)))))
  = acc * 2 ^ (6 * Z.of_nat n) + V mod 2 ^ (6 * Z.of_nat n).
Proof.
  intros HV. revert acc. induction n as [|n IH]; intros acc.
  - simpl. rewrite Z.mod_1_r. lia.
  - rewrite seqZ_S, reverse_snoc. simpl map. simpl foldl. rewrite IH.
    rewrite Z.shiftl_mul_pow2, Z.shiftr_div_pow2 by lia.
    change 0x3f with (Z.ones 6). rewrite Z.land_ones by lia.
    replace (6 * Z.of_nat (S n)) with (6 * Z.of_nat n + 6) by lia.
    rewrite Z.pow_add_r by lia.
    rewrite (Z.rem_mul_r V (2 ^ (6 * Z.of_nat n)) (2 ^ 6)) by lia.
    rewrite Z.add_0_l. ring.
Qed.

Lemma decode_loop_ok (e : Base64Engine) (acc : Z) (src : list byte)
  (ds : list Z) :
  mapR (_decode64 e) src = Ok ds →
  decode_loop e acc src = Ok (foldl (λ out d, Z.shiftl out 6 + d) acc ds).
Proof.
  revert acc ds. induction src as [|c src IH]; intros acc ds H; simpl in *.
  - inversion H. reflexivity.
  - destruct (_decode64 e c) as [v|ex]; simpl in H; [|discriminate].
    destruct (mapR (_decode64 e) src) as [ds'|ex]; simpl in H; [|discriminate].
    inversion H. simpl. apply IH. reflexivity.
Qed.

Lemma mapR_reverse {A B} (f : A → result B) (l : list A) (ys : list B) :
  mapR f l = Ok ys → mapR f (reverse l) = Ok (reverse ys).
Proof.
  rewrite !mapR_Forall2. apply Forall2_reverse.
Qed.

Lemma map_reverse {A B} (f : A → B) (l : list A) :
  map f (reverse l) = reverse (map f l).
Proof. apply (fmap_reverse f l). Qed.

Lemma six_digits (V : Z) (offs : list Z) :
  Forall is_six (map (λ off, Z.land (Z.shiftr V off) 0x3f) offs).
Proof.
  induction offs; constructor; [|assumption].
  unfold is_six. change 0x3f with (Z.ones 6). rewrite Z.land_ones by lia.
  apply Z.mod_pos_bound. lia.
Qed.

(** ** Integers: the stated property *)

(** C2: for [0 <= n < 2^64] and an engine of either endianness,
    [encode_int64(n)] returns a string that [decode_int64] maps back to [n];
    for [n >= 2^64], [encode_int64(n)] raises [ValueError]. *)
Theorem decode_int64_encode_int64 (charmap : pyval) (endian : bool)
  (e : Base64Engine) (n : Z) :
  Base64Engine_init charmap endian = Ok e →
  (0 ≤ n < 2 ^ 64 →
   ∃ s, encode_int64 e n = Ok s ∧ decode_int64 e (PyBytes s) = Ok n) ∧
  (2 ^ 64 ≤ n → encode_int64 e n = Raise ValueError).
Proof.
  intros Hinit. apply init_engine_ok in Hinit as [He _]. split.
  - intros Hn. unfold encode_int64, _encode_int.
    rewrite bool_decide_false by lia.
    rewrite bool_decide_true by lia. simpl assert.
    unfold decode_int64, _decode_int.
    destruct (big e) eqn:Hbig; unfold mbind at 1; unfold result_bind at 1;
      cbv zeta; change (Z.opp 64 mod 6) with 2;
      change (64 + 2) with 66.
    + change (irange (66 - 6) (-6) (-6))
        with (map (λ i, 6 * i) (reverse (seqZ 0 (Z.of_nat 11)))).
      destruct (mapR_encode64 e He _ (six_digits (Z.shiftl n 2)
                 (map (λ i, 6 * i) (reverse (seqZ 0 (Z.of_nat 11))))))
        as (s & Hs & Hback).
      exists s. unfold mbind, result_bind, join_byte_elems. rewrite Hs.
      split; [reflexivity|].
      apply mapR_length in Hs. rewrite !length_map, length_reverse,
        length_seqZ in Hs.
      rewrite bool_decide_false by (unfold len; lia).
      rewrite (decode_loop_ok e 0 s _ Hback).
      rewrite horner_digits by (apply Z.shiftl_nonneg; lia).
      rewrite bool_decide_true by lia.
      rewrite Z.shiftl_mul_pow2, Z.shiftr_div_pow2 by lia.
      rewrite Z.mod_small by (change (2 ^ 2) with 4;
        change (2 ^ (6 * Z.of_nat 11)) with (4 * 2 ^ 64); lia).
      rewrite Z.mul_0_l, Z.add_0_l, Z.div_mul by lia. reflexivity.
    + change (irange 0 66 6)
        with (reverse (map (λ i, 6 * i) (reverse (seqZ 0 (Z.of_nat 11))))).
      destruct (mapR_encode64 e He _ (six_digits n
                 (reverse (map (λ i, 6 * i)
                    (reverse (seqZ 0 (Z.of_nat 11)))))))
        as (s & Hs & Hback).
      exists s. unfold mbind, result_bind, join_byte_elems.
      rewrite map_reverse in Hback.
      rewrite Hs.
      split; [reflexivity|].
      apply mapR_reverse in Hback. rewrite reverse_involutive in Hback.
      apply mapR_length in Hs. rewrite length_map, length_reverse,
        length_map, length_reverse, length_seqZ in Hs.
      rewrite bool_decide_false by (unfold len; lia).
      rewrite (decode_loop_ok e 0 _ _ Hback).
      rewrite horner_digits by lia.
      rewrite bool_decide_true by lia.
      rewrite Z.mod_small by
        (change (2 ^ (6 * Z.of_nat 11)) with (4 * 2 ^ 64); lia).
      change (Z.shiftl 1 64 - 1) with (Z.ones 64).
      rewrite Z.mul_0_l, Z.add_0_l, Z.land_ones, Z.mod_small by lia.
      reflexivity.
  - intros Hn. unfold encode_int64.
    rewrite bool_decide_true; [reflexivity|].
    right. change 0xffffffffffffffff with (2 ^ 64 - 1). lia.
Qed.

Lemma decode_int64_encode_int64_witness :
  (0 ≤ 12345678901234567890 < 2 ^ 64 →
   ∃ s, encode_int64 (h64_engine true) 12345678901234567890 = Ok s
        ∧ decode_int64 (h64_engine true) (PyBytes s)
          = Ok 12345678901234567890) ∧
  (2 ^ 64 ≤ 12345678901234567890 →
   encode_int64 (h64_engine true) 12345678901234567890 = Raise ValueError).
Proof.
  apply (decode_int64_encode_int64 (PyUnicode HASH64_CHARS) true).
  vm_compute. reflexivity.
Defined.

(** ** The unused bits of the last character *)

Lemma enumerate_from_elem {A} (k i : Z) (x : A) (l : list A) :
  (i, x) ∈ enumerate_from k l ↔
  ∃ n : nat, i = k + Z.of_nat n ∧ l !! n = Some x.
Proof.
  revert k. induction l as [|y l IH]; intros k; simpl.
  - split; [intros H; inversion H|intros (n & _ & H); discriminate].
  - rewrite elem_of_cons, IH. split.
    + intros [H|(n & Hi & Hn)].
      * inversion H; subst. exists 0%nat. split; [lia|reflexivity].
      * exists (S n). split; [lia|assumption].
    + intros ([|n] & Hi & Hn); simpl in Hn.
      * left. inversion Hn; subst. f_equal. lia.
      * right. exists n. split; [lia|assumption].
Qed.

Lemma getitem_last {A} (init : list A) (x : A) :
  getitem (init ++ [x]) (-1) = Ok x.
Proof.
  unfold getitem, len. cbv zeta.
  rewrite (bool_decide_true (-1 < 0)) by lia.
  rewrite length_app. simpl length.
  rewrite bool_decide_true by lia.
  replace (Z.to_nat (-1 + Z.of_nat (length init + 1))) with (length init)
    by lia.
  rewrite list_lookup_middle by reflexivity. reflexivity.
Qed.

Lemma but_last_snoc {A} (init : list A) (x : A) :
  but_last (init ++ [x]) = init.
Proof.
  unfold but_last. rewrite length_app. simpl length.
  replace (length init + 1 - 1)%nat with (length init) by lia.
  apply take_app_length.
Qed.

Lemma is_six_land (v : Z) : is_six v → Z.land v 0x3f = v.
Proof.
  unfold is_six. intros H. change 0x3f with (Z.ones 6).
  rewrite Z.land_ones by lia. apply Z.mod_small. change (2 ^ 6) with 64. lia.
Qed.

Lemma is_six_clear (v mask : Z) : is_six v → is_six (Z.land v mask).
Proof.
  intros H. apply is_six_mask.
  rewrite <- Z.land_assoc, (Z.land_comm mask), Z.land_assoc.
  rewrite is_six_land by assumption. reflexivity.
Qed.

Lemma land_lnot_clear (v bits : Z) : Z.land (Z.land v (Z.lnot bits)) bits = 0.
Proof.
  rewrite <- Z.land_assoc, (Z.land_comm (Z.lnot bits)), Z.land_lnot_diag.
  apply Z.land_0_r.
Qed.

Lemma land_lnot_testbit (v bits i : Z) :
  Z.testbit (Z.land v (Z.lnot bits)) i
  = Z.testbit v i && negb (Z.testbit bits i).
Proof.
  destruct (Z.neg_nonneg_cases i) as [Hi|Hi].
  - rewrite !Z.testbit_neg_r by assumption. reflexivity.
  - rewrite Z.land_spec, Z.lnot_spec by assumption. reflexivity.
Qed.

Section Padding.
Variable e : Base64Engine.
Hypothesis He : engine_ok e.

Lemma encode64_lookup (v : Z) (c : byte) :
  0 ≤ v → _encode64 e v = Ok c → bytemap e !! Z.to_nat v = Some c.
Proof.
  intros Hv H. unfold _encode64, getitem in H. cbv zeta in H.
  rewrite (bool_decide_false (v < 0)) in H by lia.
  rewrite (bool_decide_true (0 ≤ v)) in H by lia.
  destruct (bytemap e !! Z.to_nat v); inversion H. reflexivity.
Qed.

Lemma decode64_lookup (c : byte) (n : nat) :
  bytemap e !! n = Some c → _decode64 e c = Ok (Z.of_nat n).
Proof.
  intros Hn. destruct He as (Hlen & Hnd & Hlk).
  unfold _decode64. rewrite Hlk. unfold dict_of.
  rewrite (dict_fold_lookup _ 0 ∅ n c) by assumption. f_equal.
Qed.

(** The valid last bytes are those whose value has no padding bit set. *)
Lemma pad_elems_iff (bits : Z) (c : byte) (v : Z) :
  _decode64 e c = Ok v →
  ord c ∈ pad_elems (make_padset e bits) ↔ Z.land v bits = 0.
Proof.
  intros Hv. unfold make_padset. simpl.
  rewrite elem_of_list_to_set.
  change (map (λ p : Z * byte, ord p.2)) with
    (fmap (M:=list) (λ p : Z * byte, ord p.2)).
  rewrite list_elem_of_fmap. split.
  - intros ([i c0] & Hc & Hin). simpl in Hc. apply ord_inj in Hc.
    subst c0. apply list_elem_of_filter in Hin as [Hbits Hin].
    simpl in Hbits. apply enumerate_from_elem in Hin as (n & Hi & Hn).
    apply decode64_lookup in Hn. rewrite Hn in Hv.
    inversion Hv. subst. replace (0 + Z.of_nat n) with (Z.of_nat n) in Hbits
      by lia. exact Hbits.
  - intros Hbits. exists (v, c). split; [reflexivity|].
    apply list_elem_of_filter. split; [exact Hbits|].
    apply (decode64_inv e He) in Hv as [Hr Hc].
    apply encode64_lookup in Hc; [|lia].
    apply enumerate_from_elem. exists (Z.to_nat v). split; [lia|exact Hc].
Qed.

(** [check_repair_unused] on a byte string, once [mask, padset] are
    chosen for the padding bits [bits]. *)
Lemma repair_last_bytes (bits : Z) (init : list byte) (c : byte) (v : Z) :
  _decode64 e c = Ok v →
  (Z.land v bits = 0 →
   repair_last e (Z.lnot bits, make_padset e bits) (PyBytes (init ++ [c]))
   = Ok (false, PyBytes (init ++ [c]))) ∧
  (Z.land v bits ≠ 0 →
   ∃ c', _decode64 e c' = Ok (Z.land v (Z.lnot bits)) ∧
     repair_last e (Z.lnot bits, make_padset e bits)
       (PyBytes (init ++ [c]))
     = Ok (true, PyBytes (init ++ [c']))).
Proof.
  intros Hv. unfold repair_last. rewrite getitem_last.
  unfold mbind, result_bind.
  pose proof (pad_elems_iff bits c v Hv) as Hpad. split; intros Hb.
  - rewrite bool_decide_true by (apply Hpad; assumption). reflexivity.
  - rewrite bool_decide_false by (rewrite Hpad; assumption).
    rewrite Hv.
    pose proof (decode64_inv e He c v Hv) as [Hr _].
    destruct (encode64_decode64 e He (Z.land v (Z.lnot bits)))
      as (c' & Hc' & Hd'); [apply is_six_clear; exact Hr|].
    exists c'. split; [exact Hd'|]. rewrite Hc'.
    rewrite bool_decide_true
      by (apply (pad_elems_iff bits c' _ Hd'), land_lnot_clear).
    simpl. rewrite but_last_snoc. reflexivity.
Qed.
End Padding.

Lemma index_from_lookup (k : Z) (l : list Z) (n : nat) (x : Z) :
  NoDup l → l !! n = Some x → index_from k l x = Ok (k + Z.of_nat n).
Proof.
  revert k n. induction l as [|y l IH]; intros k n Hnd Hn; [discriminate|].
  apply NoDup_cons in Hnd as [Hy Hnd]. simpl.
  destruct n as [|n]; simpl in Hn.
  - inversion Hn; subst. rewrite bool_decide_true by reflexivity.
    f_equal. lia.
  - rewrite bool_decide_false.
    + rewrite (IH (k + 1) n) by assumption. f_equal. lia.
    + intros ->. apply Hy. eapply list_elem_of_lookup_2. exact Hn.
Qed.

Lemma getitem_map {A B} (f : A → B) (l : list A) (i : Z) (x : A) :
  getitem l i = Ok x → getitem (map f l) i = Ok (f x).
Proof.
  unfold getitem, len. cbv zeta. rewrite length_map.
  destruct (bool_decide (i < 0));
    (destruct (bool_decide (0 ≤ _)); [|discriminate]);
    change (map f l) with (f <$> l); rewrite list_lookup_fmap;
    (destruct (l !! _); [|discriminate]);
    intros H; inversion H; reflexivity.
Qed.

Section PaddingUnicode.
Variable e : Base64Engine.
Hypothesis He : engine_ok e.

Lemma charmap_lookup (n : nat) (x : Z) :
  charmap e !! n = Some x ↔ ∃ c, bytemap e !! n = Some c ∧ x = ord c.
Proof.
  unfold charmap, decode_latin1. change (map ord (bytemap e))
    with (ord <$> bytemap e).
  rewrite list_lookup_fmap. destruct (bytemap e !! n) as [c|]; simpl.
  - split; [intros H; inversion H; eauto|].
    intros (c' & Hc & ->). inversion Hc. reflexivity.
  - split; [discriminate|]. intros (c' & Hc & _). discriminate.
Qed.

(** The valid last characters, for a unicode string. *)
Lemma pad_chars_iff (bits : Z) (c : byte) (v : Z) :
  _decode64 e c = Ok v →
  ord c ∈ pad_chars (make_padset e bits) ↔ Z.land v bits = 0.
Proof.
  intros Hv. unfold make_padset. simpl.
  rewrite elem_of_list_to_set.
  change (map snd) with (fmap (M:=list) (@snd Z Z)).
  rewrite list_elem_of_fmap. split.
  - intros ([i y] & Hc & Hin). simpl in Hc. subst y.
    apply list_elem_of_filter in Hin as [Hbits Hin].
    simpl in Hbits. apply enumerate_from_elem in Hin as (n & Hi & Hn).
    apply charmap_lookup in Hn as (c0 & Hn & Hc). apply ord_inj in Hc.
    subst c0. apply (decode64_lookup e He) in Hn. rewrite Hn in Hv.
    inversion Hv. subst. replace (0 + Z.of_nat n) with (Z.of_nat n) in Hbits
      by lia. exact Hbits.
  - intros Hbits. exists (v, ord c). split; [reflexivity|].
    apply list_elem_of_filter. split; [exact Hbits|].
    apply (decode64_inv e He) in Hv as [Hr Hc].
    apply (encode64_lookup e) in Hc; [|lia].
    apply enumerate_from_elem. exists (Z.to_nat v). split; [lia|].
    apply charmap_lookup. eauto.
Qed.

(** [check_repair_unused] on a unicode string, once [mask, padset] are
    chosen for the padding bits [bits]. *)
Lemma repair_last_unicode (bits : Z) (init : list Z) (c : byte) (v : Z) :
  _decode64 e c = Ok v →
  (Z.land v bits = 0 →
   repair_last e (Z.lnot bits, make_padset e bits)
     (PyUnicode (init ++ [ord c]))
   = Ok (false, PyUnicode (init ++ [ord c]))) ∧
  (Z.land v bits ≠ 0 →
   ∃ c', _decode64 e c' = Ok (Z.land v (Z.lnot bits)) ∧
     repair_last e (Z.lnot bits, make_padset e bits)
       (PyUnicode (init ++ [ord c]))
     = Ok (true, PyUnicode (init ++ [ord c']))).
Proof.
  intros Hv. unfold repair_last. rewrite getitem_last.
  unfold mbind, result_bind.
  pose proof (pad_chars_iff bits c v Hv) as Hpad. split; intros Hb.
  - rewrite bool_decide_true by (apply Hpad; assumption). reflexivity.
  - rewrite bool_decide_false by (rewrite Hpad; assumption).
    pose proof (decode64_inv e He c v Hv) as [Hr Hc].
    apply (encode64_lookup e) in Hc; [|lia].
    destruct He as (Hlen & Hnd & Hlk).
    rewrite (index_from_lookup 0 (charmap e) (Z.to_nat v) (ord c));
      [|exact Hnd|apply charmap_lookup; eauto].
    replace (0 + Z.of_nat (Z.to_nat v)) with v by lia.
    destruct (encode64_decode64 e He (Z.land v (Z.lnot bits)))
      as (c' & Hc' & Hd'); [apply is_six_clear; exact Hr|].
    exists c'. split; [exact Hd'|].
    unfold _encode64 in Hc'. unfold charmap, decode_latin1 at 1.
    rewrite (getitem_map ord _ _ c' Hc').
    rewrite bool_decide_true
      by (apply (pad_chars_iff bits c' _ Hd'), land_lnot_clear).
    simpl. rewrite but_last_snoc. reflexivity.
Qed.
End PaddingUnicode.

Lemma land_3_mod_4 (n : Z) : Z.land n 3 = n mod 4.
Proof. change 3 with (Z.ones 2). rewrite Z.land_ones by lia. reflexivity. Qed.

(** C4: for an encoded string (bytes or unicode) whose length is 2 or 3
    mod 4 and whose final symbol has the 6-bit value [v],
    [check_repair_unused] returns [(False, s)] exactly when the padding bits
    of [v] are zero, and otherwise [(True, s')] where [s'] is [s] with the
    final symbol replaced by the symbol of [v] with the padding bits cleared
    and every other bit kept; a string whose length is a multiple of 4 comes
    back as [(False, s)]. *)
Theorem check_repair_unused_spec (charmap : pyval) (endian : bool)
  (e : Base64Engine) :
  Base64Engine_init charmap endian = Ok e →
  (∀ s, (∃ n, py_len s = Ok n ∧ n mod 4 = 0) →
     check_repair_unused e s = Ok (false, s)) ∧
  (∀ (c : byte) (v : Z) (mk : list byte → pyval) (init : list byte),
     mk = PyBytes ∨ mk = (λ b, PyUnicode (map ord b)) →
     _decode64 e c = Ok v →
     let s := init ++ [c] in
     let tail := len s mod 4 in
     tail = 2 ∨ tail = 3 →
     let bits := padding_bits (big e) tail in
     (Z.land v bits = 0 → check_repair_unused e (mk s) = Ok (false, mk s)) ∧
     (Z.land v bits ≠ 0 →
      ∃ c' v', _decode64 e c' = Ok v' ∧
        (∀ i, Z.testbit v' i = Z.testbit v i && negb (Z.testbit bits i)) ∧
        check_repair_unused e (mk s) = Ok (true, mk (init ++ [c'])))).
Proof.
  intros Hinit. apply init_engine_ok in Hinit as [He _]. split.
  - intros s (n & Hn & Hmod). unfold check_repair_unused.
    rewrite Hn. unfold mbind, result_bind. rewrite land_3_mod_4, Hmod.
    reflexivity.
  - intros c v mk init Hmk Hv s tail Htail bits.
    assert (∀ info,
      (tail = 2 → info = _padinfo2 e) →
      (tail = 3 → info = _padinfo3 e) →
      check_repair_unused e (mk s) = repair_last e info (mk s)) as Hcheck.
    { intros info H2 H3. unfold check_repair_unused.
      assert (py_len (mk s) = Ok (len s)) as ->.
      { destruct Hmk as [-> | ->]; simpl; [reflexivity|].
        unfold len. rewrite length_map. reflexivity. }
      unfold mbind, result_bind. rewrite land_3_mod_4. fold tail.
      destruct Htail as [Ht|Ht].
      - rewrite bool_decide_true by assumption. rewrite H2; auto.
      - rewrite bool_decide_false by lia.
        rewrite bool_decide_true by assumption. rewrite H3; auto. }
    rewrite (Hcheck (Z.lnot bits, make_padset e bits)).
    + assert (
        (Z.land v bits = 0 →
         repair_last e (Z.lnot bits, make_padset e bits) (mk s)
         = Ok (false, mk s)) ∧
        (Z.land v bits ≠ 0 →
         ∃ c', _decode64 e c' = Ok (Z.land v (Z.lnot bits)) ∧
           repair_last e (Z.lnot bits, make_padset e bits) (mk s)
           = Ok (true, mk (init ++ [c'])))) as [Hclean Hdirty].
      { destruct Hmk as [-> | ->]; subst s.
        - apply repair_last_bytes; assumption.
        - rewrite map_app. simpl map.
          destruct (repair_last_unicode e He bits (map ord init) c v Hv)
            as [H0 H1].
          split; [exact H0|]. intros Hb. destruct (H1 Hb) as (c' & Hd & Hr).
          exists c'. split; [exact Hd|]. rewrite map_app. exact Hr. }
      split; [exact Hclean|]. intros Hb.
      destruct (Hdirty Hb) as (c' & Hd & Hr).
      exists c', (Z.land v (Z.lnot bits)).
      split; [exact Hd|]. split; [apply land_lnot_testbit|exact Hr].
    + intros Ht. subst bits. unfold padding_bits, _padinfo2.
      rewrite bool_decide_true by assumption.
      destruct (big e); reflexivity.
    + intros Ht. subst bits. unfold padding_bits, _padinfo3.
      rewrite bool_decide_false by lia.
      rewrite bool_decide_true by assumption.
      destruct (big e); reflexivity.
Qed.

Lemma check_repair_unused_spec_witness :
  ∃ c' v', _decode64 (h64_engine true) c' = Ok v' ∧
    (∀ i, Z.testbit v' i = Z.testbit 63 i && negb (Z.testbit 3 i)) ∧
    check_repair_unused (h64_engine true) (PyBytes ["a"; "b"; "z"]%byte)
    = Ok (true, PyBytes (["a"; "b"]%byte ++ [c'])).
Proof.
  refine (proj2 (proj2 (check_repair_unused_spec (PyUnicode HASH64_CHARS)
                          true (h64_engine true) _)
                   "z"%byte 63 PyBytes ["a"; "b"]%byte _ _ _) _).
  - vm_compute. reflexivity.
  - left. reflexivity.
  - vm_compute. reflexivity.
  - right. vm_compute. reflexivity.
  - vm_compute. discriminate.
Defined.

(** * Properties of the registry *)

(** The names the registration tests reject, and one they accept. *)
Example valid_name_examples :
  map Registry.valid_name
      [""; "AB_CD"; "ab-cd"; "ab__cd"; "default"; "dummy_1"]%string
  = [false; false; false; false; false; true].
Proof. reflexivity. Qed.

Lemma register_ok_inv (h : Registry.handler) (force : bool)
  (r0 r : Registry.registry) :
  Registry.register_crypt_handler h force r0 = (Ok (), r) →
  Registry.valid_name (Registry.handler_name h) = true ∧
  Registry.handlers r !! Registry.handler_name h = Some h.
Proof.
  unfold Registry.register_crypt_handler.
  destruct (Registry.valid_name _) eqn:Hv; simpl; [|discriminate].
  destruct (Registry.handlers r0 !! _) as [other|] eqn:Hl.
  - case_bool_decide as Heq.
    + intros H. inversion H. subst. auto.
    + destruct force; [|discriminate].
      intros H. inversion H. simpl. rewrite lookup_insert_eq. auto.
  - intros H. inversion H. simpl. rewrite lookup_insert_eq. auto.
Qed.

(** C6: once a handler is registered and the registry resolves its name to
    it, registering a different handler with the same name without [force]
    raises the collision error and leaves the name resolving to the first;
    registering the first again succeeds; registering the second with
    [force=True] succeeds and the name then resolves to the second. *)
Theorem register_same_name
  (modules : gmap string (gmap string Registry.handler))
  (r0 r : Registry.registry) (h1 h2 : Registry.handler) (force : bool) :
  let name := Registry.handler_name h1 in
  h1 ≠ h2 →
  Registry.handler_name h2 = name →
  Registry.register_crypt_handler h1 force r0 = (Ok (), r) →
  Registry.get_crypt_handler modules name true r = (Ok (Some h1), r) →
  (∃ r1, Registry.register_crypt_handler h2 false r = (Raise KeyError, r1) ∧
         Registry.get_crypt_handler modules name true r1
         = (Ok (Some h1), r1)) ∧
  Registry.register_crypt_handler h1 false r = (Ok (), r) ∧
  (∃ r2, Registry.register_crypt_handler h2 true r = (Ok (), r2) ∧
         Registry.get_crypt_handler modules name true r2
         = (Ok (Some h2), r2)).
Proof.
  intros name Hne Hname Hreg Hres.
  apply register_ok_inv in Hreg as [Hvalid Hloaded]. fold name in Hvalid,
    Hloaded.
  assert (Registry.is_private name = false) as Hpub.
  { unfold Registry.get_crypt_handler in Hres.
    destruct (Registry.is_private name); [discriminate|reflexivity]. }
  repeat split.
  - exists r. split; [|exact Hres].
    unfold Registry.register_crypt_handler. rewrite Hname, Hvalid. simpl.
    rewrite Hloaded. rewrite bool_decide_false by assumption. reflexivity.
  - unfold Registry.register_crypt_handler. fold name. rewrite Hvalid.
    simpl. rewrite Hloaded. rewrite bool_decide_true by reflexivity.
    reflexivity.
  - eexists. split.
    + unfold Registry.register_crypt_handler. rewrite Hname, Hvalid. simpl.
      rewrite Hloaded. rewrite bool_decide_false by assumption. reflexivity.
    + unfold Registry.get_crypt_handler. rewrite Hpub. simpl.
      rewrite lookup_insert_eq. reflexivity.
Qed.

Lemma register_same_name_witness :
  let dummy_1 := {| Registry.handler_name := "dummy_1";
                    Registry.handler_id := 1 |} in
  let dummy_1b := {| Registry.handler_name := "dummy_1";
                     Registry.handler_id := 2 |} in
  let r := {| Registry.handlers := {["dummy_1"%string := dummy_1]};
              Registry.locations := ∅ |} in
  (∃ r1, Registry.register_crypt_handler dummy_1b false r
         = (Raise KeyError, r1) ∧
         Registry.get_crypt_handler ∅ "dummy_1" true r1
         = (Ok (Some dummy_1), r1)) ∧
  Registry.register_crypt_handler dummy_1 false r = (Ok (), r) ∧
  (∃ r2, Registry.register_crypt_handler dummy_1b true r = (Ok (), r2) ∧
         Registry.get_crypt_handler ∅ "dummy_1" true r2
         = (Ok (Some dummy_1b), r2)).
Proof.
  intros dummy_1 dummy_1b r.
  apply (register_same_name ∅
           {| Registry.handlers := ∅; Registry.locations := ∅ |}
           r dummy_1 dummy_1b false).
  - discriminate.
  - reflexivity.
  - reflexivity.
  - reflexivity.
Defined.

(** * Properties of the policy engine *)

Lemma foldR_app {A B} (f : B → A → result B) (b : B) (l1 l2 : list A) :
  Policy.foldR f b (l1 ++ l2)
  = match Policy.foldR f b l1 with
    | Ok b' => Policy.foldR f b' l2
    | Raise ex => Raise ex
    end.
Proof.
  revert b. induction l1 as [|x l1 IH]; intros b; simpl; [reflexivity|].
  destruct (f b x); simpl; [apply IH|reflexivity].
Qed.

(** A key that does not set the scheme list, the default or the deprecated
    list of the global scope leaves them as they are. *)
Lemma set_option_global (p p' : Policy.policy)
  (kv : Policy.key * Policy.value) :
  Policy.sets_global kv.1 = false →
  Policy.set_option p kv = Ok p' →
  Policy.scheme_list p' = Policy.scheme_list p ∧
  Policy.defaults p' !! None = Policy.defaults p !! None ∧
  Policy.deprecated p' !! None = Policy.deprecated p !! None.
Proof.
  unfold Policy.sets_global, Policy.set_option.
  destruct (Policy.split_key kv.1) as [[[cat scheme] opt]|ex]; simpl;
    [|discriminate].
  destruct (String.eqb scheme "context") eqn:Hctx; simpl.
  - destruct (String.eqb opt "schemes") eqn:H1; simpl.
    { destruct cat; [discriminate|]. discriminate. }
    destruct (String.eqb opt "default") eqn:H2; simpl.
    { destruct cat as [c|]; [|discriminate]. intros _.
      destruct (Policy.as_name kv.2); simpl; [|discriminate].
      intros H; inversion H; simpl.
      rewrite lookup_insert_ne by discriminate. auto. }
    destruct (String.eqb opt "deprecated") eqn:H3; simpl.
    { destruct cat as [c|]; [|discriminate]. intros _.
      destruct (Policy.as_names kv.2); simpl; [|discriminate].
      intros H; inversion H; simpl.
      rewrite lookup_insert_ne by discriminate. auto. }
    intros _ H; inversion H; simpl. auto.
  - intros _. destruct (String.eqb opt "salt"); [discriminate|].
    intros H; inversion H; simpl. auto.
Qed.

Lemma overlay_global (src : Policy.source) (p p' : Policy.policy) :
  Forall (λ kv, Policy.sets_global kv.1 = false) src →
  Policy.overlay p src = Ok p' →
  Policy.scheme_list p' = Policy.scheme_list p ∧
  Policy.defaults p' !! None = Policy.defaults p !! None ∧
  Policy.deprecated p' !! None = Policy.deprecated p !! None.
Proof.
  unfold Policy.overlay. intros Hsrc. revert p.
  induction Hsrc as [|kv src Hkv _ IH]; intros p H; simpl in H.
  - inversion H. auto.
  - destruct (Policy.set_option p kv) as [p1|ex] eqn:E; simpl in H;
      [|discriminate].
    destruct (set_option_global p p1 kv Hkv E) as (H1 & H2 & H3).
    destruct (IH p1 H) as (H1' & H2' & H3').
    rewrite H1', H2', H3'. auto.
Qed.

Lemma validate_inv (p p' : Policy.policy) (names : list string) :
  Policy.validate p = Ok p' → Policy.scheme_list p = Some names →
  p' = p ∧
  map_Forall (λ _ d, d ∈ names) (Policy.defaults p) ∧
  map_Forall (λ _ ds, Forall (λ d, d ∈ names) ds) (Policy.deprecated p).
Proof.
  unfold Policy.validate. intros H Hs. rewrite Hs in H.
  destruct (bool_decide _) eqn:E1 in H; simpl in H; [|discriminate].
  destruct (bool_decide _) eqn:E2 in H; simpl in H; [|discriminate].
  apply bool_decide_eq_true in E1, E2. injection H as <-.
  split; [reflexivity|]. split; assumption.
Qed.

Lemma from_sources_one (src : Policy.source) :
  Policy.from_sources [src]
  = match Policy.overlay Policy.empty src with
    | Ok p => Policy.validate p
    | Raise ex => Raise ex
    end.
Proof.
  unfold Policy.from_sources. cbn [Policy.foldR].
  unfold mbind, result_bind.
  destruct (Policy.overlay Policy.empty src); reflexivity.
Qed.

(** C7: every policy built from [schemes=["a","b"]], [default="a"],
    [deprecated=["a"]] (and any further options that leave these three
    alone) has ["a"] deprecated and ["b"] not; overlaying it with the source
    [default="b"] gives a policy with the scheme list [["a","b"]] and the
    default ["b"]. *)
Theorem policy_deprecated_and_overlay (extra : Policy.source)
  (p : Policy.policy) :
  Forall (λ kv, Policy.sets_global kv.1 = false) extra →
  Policy.from_sources [Policy.source_ab ++ extra] = Ok p →
  Policy.handler_is_deprecated p "a" None = true ∧
  Policy.handler_is_deprecated p "b" None = false ∧
  ∃ p', Policy.replace p [(["default"], Policy.VStr "b")]%string = Ok p' ∧
        Policy.schemes p' = ["a"; "b"]%string ∧
        Policy.default_scheme p' = Some "b"%string.
Proof.
  intros Hextra Hp. rewrite from_sources_one in Hp.
  unfold Policy.overlay in Hp. rewrite foldR_app in Hp.
  change (Policy.foldR Policy.set_option Policy.empty Policy.source_ab)
    with (Ok {| Policy.scheme_list := Some ["a"; "b"]%string;
                Policy.defaults := <[None := "a"%string]> ∅;
                Policy.deprecated := <[None := ["a"%string]]> ∅;
                Policy.options := ∅ |}) in Hp.
  cbv beta iota in Hp.
  match type of Hp with
  | context [Policy.foldR Policy.set_option ?q extra] =>
      change (Policy.foldR Policy.set_option q extra)
        with (Policy.overlay q extra) in Hp;
      destruct (Policy.overlay q extra) as [p0|ex] eqn:E; [|discriminate]
  end.
  destruct (overlay_global _ _ _ Hextra E) as (Hs & Hd & Hdep).
  simpl in Hs, Hd, Hdep.
  rewrite lookup_insert_eq in Hd. rewrite lookup_insert_eq in Hdep.
  destruct (validate_inv _ _ _ Hp Hs) as (-> & Hvd & Hvdep).
  unfold Policy.handler_is_deprecated. rewrite Hdep. simpl.
  repeat split.
  exists {| Policy.scheme_list := Policy.scheme_list p0;
            Policy.defaults := <[None := "b"%string]> (Policy.defaults p0);
            Policy.deprecated := Policy.deprecated p0;
            Policy.options := Policy.options p0 |}.
  split; [|split].
  - unfold Policy.replace, Policy.overlay. simpl.
    unfold Policy.validate. simpl. rewrite Hs.
    rewrite bool_decide_true.
    + rewrite bool_decide_true by exact Hvdep. reflexivity.
    + apply map_Forall_insert_2; [|exact Hvd].
      apply elem_of_cons. right. apply elem_of_cons. left. reflexivity.
  - unfold Policy.schemes. simpl. rewrite Hs. reflexivity.
  - unfold Policy.default_scheme. simpl. apply lookup_insert_eq.
Qed.

Lemma policy_deprecated_and_overlay_witness :
  ∃ p, Policy.from_sources
         [Policy.source_ab ++
          [(["b"; "max_rounds"], Policy.VInt 30000)]%string] = Ok p ∧
    Policy.handler_is_deprecated p "a" None = true ∧
    Policy.handler_is_deprecated p "b" None = false ∧
    ∃ p', Policy.replace p [(["default"], Policy.VStr "b")]%string = Ok p' ∧
          Policy.schemes p' = ["a"; "b"]%string ∧
          Policy.default_scheme p' = Some "b"%string.
Proof.
  eexists. split; [vm_compute; reflexivity|].
  apply (policy_deprecated_and_overlay
           [(["b"; "max_rounds"], Policy.VInt 30000)]%string).
  - repeat constructor.
  - vm_compute. reflexivity.
Defined.

(** * Properties of the rounds of a handler *)

(** What [test_30_init_rounds] checks on [d1]. *)
Example init_rounds_d1 :
  Rounds.init Rounds.d1 Rounds.NoRounds false false = Raise TypeError ∧
  Rounds.init Rounds.d1 Rounds.OtherRounds false false = Raise TypeError ∧
  Rounds.init Rounds.d1 (Rounds.IntRounds 0) false false = Raise ValueError ∧
  Rounds.init Rounds.d1 (Rounds.IntRounds 4) false false = Raise ValueError ∧
  Rounds.init Rounds.d1 (Rounds.IntRounds 3) false false
  = Ok {| Rounds.rounds := 3; Rounds.warnings := [] |}.
Proof. repeat split; reflexivity. Qed.




(** * More properties of the codec *)

(** ** The offsets of the 6-bit groups *)

Lemma irange_up (k : nat) :
  irange 0 (6 * Z.of_nat k) 6 = map (λ i, 6 * i) (seqZ 0 (Z.of_nat k)).
Proof.
  unfold irange. rewrite bool_decide_true by lia.
  replace ((6 * Z.of_nat k - 0 + 6 - 1) / 6) with (Z.of_nat k)
    by (apply Z.div_unique with 5; lia).
  apply map_ext. intros i. lia.
Qed.

Lemma irange_down (k : nat) :
  irange (6 * Z.of_nat k - 6) (-6) (-6)
  = map (λ i, 6 * i) (reverse (seqZ 0 (Z.of_nat k))).
Proof.
  unfold irange. rewrite bool_decide_false by lia.
  replace ((6 * Z.of_nat k - 6 - -6 - -6 - 1) / - -6) with (Z.of_nat k)
    by (apply Z.div_unique with 5; lia).
  apply list_eq. intros i.
  change (map ?f ?l) with (f <$> l). rewrite !list_lookup_fmap.
  destruct (decide (i < k)%nat) as [Hi|Hi].
  - rewrite reverse_lookup by (rewrite length_seqZ; lia).
    rewrite length_seqZ, !lookup_seqZ_lt by lia. simpl. f_equal. lia.
  - rewrite !lookup_ge_None_2
      by (rewrite ?length_reverse, length_seqZ; lia).
    reflexivity.
Qed.

(** The padding of [bits] up to a multiple of six. *)
Lemma pad_groups (bits : Z) :
  0 ≤ bits →
  ∃ k : nat, bits + (- bits) mod 6 = 6 * Z.of_nat k ∧
             0 ≤ (- bits) mod 6 < 6.
Proof.
  intros Hb. pose proof (Z.mod_pos_bound (- bits) 6 eq_refl) as Hp.
  pose proof (Z.div_mod (- bits) 6) as Hd.
  exists (Z.to_nat (- ((- bits) / 6))). split; [lia|exact Hp].
Qed.

(** ** Any number of bits *)

(** [_encode_int] of a valid engine returns [ceil(bits/6)] characters, and
    [_decode_int] maps them back to the value when it fits in [bits]
    bits. *)
Lemma encode_int_decode_int (e : Base64Engine) (value bits : Z) :
  engine_ok e → 0 ≤ bits → 0 ≤ value →
  ∃ s, _encode_int e value bits = Ok s ∧
       6 * len s = bits + (- bits) mod 6 ∧
       (value < 2 ^ bits → _decode_int e (PyBytes s) bits = Ok value).
Proof.
  intros He Hb Hv. destruct (pad_groups bits Hb) as (k & Hk & Hpad).
  unfold _encode_int, _decode_int.
  rewrite bool_decide_true by lia. simpl assert.
  unfold mbind at 1. unfold result_bind at 1. cbv zeta.
  set (pad := (- bits) mod 6) in *.
  rewrite Hk.
  assert (2 ^ (6 * Z.of_nat k) = 2 ^ bits * 2 ^ pad) as Hpow
    by (rewrite <- Hk; apply Z.pow_add_r; lia).
  assert (0 < 2 ^ bits) by (apply Z.pow_pos_nonneg; lia).
  assert (0 < 2 ^ pad) by (apply Z.pow_pos_nonneg; lia).
  destruct (big e) eqn:Hbig.
  - rewrite irange_down.
    destruct (mapR_encode64 e He _ (six_digits (Z.shiftl value pad)
               (map (λ i, 6 * i) (reverse (seqZ 0 (Z.of_nat k))))))
      as (s & Hs & Hback).
    exists s. unfold mbind, result_bind, join_byte_elems. rewrite Hs.
    split; [reflexivity|].
    pose proof (mapR_length _ _ _ Hs) as Hlen.
    rewrite !length_map, length_reverse, length_seqZ in Hlen.
    split; [unfold len; lia|]. intros Hfit.
    rewrite bool_decide_false by (unfold len; lia).
    rewrite (decode_loop_ok e 0 s _ Hback).
    rewrite horner_digits by (apply Z.shiftl_nonneg; lia).
    rewrite Z.shiftl_mul_pow2 by lia.
    rewrite Z.mul_0_l, Z.add_0_l, Z.mod_small by nia.
    case_bool_decide as Hp0.
    + rewrite Z.shiftr_div_pow2, Z.div_mul by lia. reflexivity.
    + replace pad with 0 by lia. rewrite Z.mul_1_r. reflexivity.
  - rewrite irange_up.
    destruct (mapR_encode64 e He _ (six_digits value
               (map (λ i, 6 * i) (seqZ 0 (Z.of_nat k)))))
      as (s & Hs & Hback).
    exists s. unfold mbind, result_bind, join_byte_elems. rewrite Hs.
    split; [reflexivity|].
    pose proof (mapR_length _ _ _ Hs) as Hlen.
    rewrite !length_map, length_seqZ in Hlen.
    split; [unfold len; lia|]. intros Hfit.
    rewrite bool_decide_false by (unfold len; lia).
    apply mapR_reverse in Hback.
    rewrite <- !map_reverse in Hback.
    rewrite (decode_loop_ok e 0 _ _ Hback).
    rewrite horner_digits by lia.
    rewrite Z.mul_0_l, Z.add_0_l, Z.mod_small by nia.
    case_bool_decide as Hp0; [|reflexivity].
    change (Z.shiftl 1 bits - 1) with (Z.pred (Z.shiftl 1 bits)).
    fold (Z.ones bits). rewrite Z.land_ones, Z.mod_small by lia.
    reflexivity.
Qed.

Lemma horner_range (ds : list Z) (acc : Z) :
  Forall is_six ds → 0 ≤ acc →
  acc * 2 ^ (6 * len ds)
  ≤ foldl (λ out d, Z.shiftl out 6 + d) acc ds
  < (acc + 1) * 2 ^ (6 * len ds).
Proof.
  intros Hds. revert acc. induction Hds as [|d ds Hd _ IH]; intros acc Ha.
  - simpl. change (2 ^ (6 * len [])) with 1. lia.
  - simpl foldl. unfold is_six in Hd.
    rewrite Z.shiftl_mul_pow2 by lia. change (2 ^ 6) with 64.
    specialize (IH (acc * 64 + d) ltac:(lia)).
    replace (2 ^ (6 * len (d :: ds))) with (64 * 2 ^ (6 * len ds)).
    + assert (0 < 2 ^ (6 * len ds))
        by (apply Z.pow_pos_nonneg; unfold len; lia).
      nia.
    + unfold len. simpl length.
      replace (6 * Z.of_nat (S (length ds)))
        with (6 + 6 * Z.of_nat (length ds)) by lia.
      rewrite Z.pow_add_r by lia. reflexivity.
Qed.

Lemma decode_loop_error (e : Base64Engine) (acc : Z) (src : list byte) :
  mapR (_decode64 e) src = Raise KeyError →
  decode_loop e acc src = Raise ValueError.
Proof.
  revert acc. induction src as [|c src IH]; intros acc H; simpl in *.
  - discriminate.
  - unfold mbind, result_bind in H.
    destruct (_decode64 e c) as [v|ex] eqn:Ec.
    + apply IH. destruct (mapR _ src); [discriminate|]. exact H.
    + inversion H. reflexivity.
Qed.

Lemma mapR_decode64_raises (e : Base64Engine) (src : list byte) (ex : exn) :
  mapR (_decode64 e) src = Raise ex → ex = KeyError.
Proof.
  induction src as [|c src IH]; simpl; [discriminate|].
  unfold mbind, result_bind.
  destruct (_decode64 e c) as [v|ex'] eqn:Ec.
  - destruct (mapR _ src); [discriminate|].
    intros H. apply IH. inversion H. reflexivity.
  - intros H. inversion H. subst ex'. unfold _decode64 in Ec.
    destruct (lookup e !! ord c); inversion Ec. reflexivity.
Qed.

Lemma decode_int_result (e : Base64Engine) (s : list byte) (bits n : Z) :
  _decode_int e (PyBytes s) bits = Ok n →
  6 * len s = bits + (- bits) mod 6 ∧
  ∃ ds out, mapR (_decode64 e) (if big e then s else reverse s) = Ok ds ∧
    out = foldl (λ out d, Z.shiftl out 6 + d) 0 ds ∧
    n = if bool_decide ((- bits) mod 6 ≠ 0) then
          if big e then Z.shiftr out ((- bits) mod 6)
          else Z.land out (Z.shiftl 1 bits - 1)
        else out.
Proof.
  unfold _decode_int. case_bool_decide as Hlen; [discriminate|].
  intros H. split; [lia|].
  set (src := if big e then s else reverse s) in *.
  destruct (mapR (_decode64 e) src) as [ds|ex] eqn:E.
  - rewrite (decode_loop_ok e 0 src ds E) in H.
    unfold mbind, result_bind in H. exists ds. eexists.
    split; [reflexivity|]. split; [reflexivity|].
    destruct (bool_decide _); [destruct (big e)|]; inversion H; reflexivity.
  - exfalso. pose proof (mapR_decode64_raises e src ex E). subst ex.
    rewrite (decode_loop_error e 0 src E) in H. discriminate.
Qed.

(** ** The fast paths for 6, 12 and 24 bits *)

Ltac decode_cases e :=
  unfold _decode64;
  repeat match goal with
         | |- context [lookup e !! ?k] => destruct (lookup e !! k); simpl
         end;
  try reflexivity.

Lemma decode_int6_generic (e : Base64Engine) (source : pyval) :
  decode_int6 e source = _decode_int e source 6.
Proof.
  destruct source as [s| | | |]; try reflexivity.
  unfold decode_int6, _decode_int. change (Z.opp 6 mod 6) with 0.
  destruct s as [|c0 [|c1 s]];
    try (rewrite !bool_decide_true by (unfold len; simpl length; lia);
         reflexivity).
  rewrite !bool_decide_false by (unfold len; simpl; lia).
  destruct (big e); simpl; decode_cases e.
Qed.

Lemma decode_int12_generic (e : Base64Engine) (source : pyval) :
  decode_int12 e source = _decode_int e source 12.
Proof.
  destruct source as [s| | | |]; try reflexivity.
  unfold decode_int12, _decode_int. change (Z.opp 12 mod 6) with 0.
  destruct s as [|c0 [|c1 [|c2 s]]];
    try (rewrite !bool_decide_true by (unfold len; simpl length; lia);
         reflexivity).
  rewrite !bool_decide_false by (unfold len; simpl; lia).
  destruct (big e); simpl; decode_cases e;
    f_equal; rewrite !Z.shiftl_mul_pow2 by lia; ring.
Qed.

Lemma decode_int24_generic (e : Base64Engine) (source : pyval) :
  decode_int24 e source = _decode_int e source 24.
Proof.
  destruct source as [s| | | |]; try reflexivity.
  unfold decode_int24, _decode_int. change (Z.opp 24 mod 6) with 0.
  destruct s as [|c0 [|c1 [|c2 [|c3 [|c4 s]]]]];
    try (rewrite !bool_decide_true by (unfold len; simpl length; lia);
         reflexivity).
  rewrite !bool_decide_false by (unfold len; simpl; lia).
  destruct (big e); simpl; decode_cases e;
    f_equal; rewrite !Z.shiftl_mul_pow2 by lia; ring.
Qed.

Lemma encode_int12_generic (e : Base64Engine) (value : Z) :
  0 ≤ value ≤ 0xFFF → encode_int12 e value = _encode_int e value 12.
Proof.
  intros Hv. unfold encode_int12, _encode_int.
  rewrite bool_decide_false by lia. rewrite bool_decide_true by lia.
  simpl assert. unfold mbind at 2. unfold result_bind at 2. cbv zeta.
  change (Z.opp 12 mod 6) with 0.
  destruct (big e); cbn -[Z.shiftr Z.land Z.shiftl];
    rewrite ?Z.shiftl_0_r, ?Z.shiftr_0_r; reflexivity.
Qed.

Lemma encode_int24_generic (e : Base64Engine) (value : Z) :
  0 ≤ value ≤ 0xFFFFFF → encode_int24 e value = _encode_int e value 24.
Proof.
  intros Hv. unfold encode_int24, _encode_int.
  rewrite bool_decide_false by lia. rewrite bool_decide_true by lia.
  simpl assert. unfold mbind at 2. unfold result_bind at 2. cbv zeta.
  change (Z.opp 24 mod 6) with 0.
  destruct (big e); cbn -[Z.shiftr Z.land Z.shiftl];
    rewrite ?Z.shiftl_0_r, ?Z.shiftr_0_r; reflexivity.
Qed.

Lemma encode_int6_generic (e : Base64Engine) (value : Z) :
  engine_ok e → 0 ≤ value ≤ 63 →
  encode_int6 e value = _encode_int e value 6.
Proof.
  intros He Hv. unfold encode_int6, _encode_int.
  rewrite bool_decide_false by lia. rewrite bool_decide_true by lia.
  simpl assert. unfold mbind at 1. unfold result_bind at 1. cbv zeta.
  change (Z.opp 6 mod 6) with 0.
  assert (Z.land value 0x3f = value) as Hland
    by (apply is_six_land; unfold is_six; lia).
  destruct (encode64_decode64 e He value) as (c & Hc & _); [lia|].
  pose proof (encode64_lookup e value c ltac:(lia) Hc) as Hlk.
  assert (getslice (bytemap e) value (value + 1) = [c]) as ->.
  { unfold getslice. replace (Z.to_nat (value + 1 - value)) with 1%nat by lia.
    rewrite (drop_S _ _ _ Hlk). reflexivity. }
  change (irange (6 + 0 - 6) (-6) (-6)) with [0].
  change (irange 0 (6 + 0) 6) with [0].
  destruct (big e); cbn -[Z.shiftr Z.land Z.shiftl];
    rewrite ?Z.shiftl_0_r, ?Z.shiftr_0_r, Hland, Hc; reflexivity.
Qed.

(** ** Integers: further properties *)

(** X1: for an engine built by [__init__] and any width [bits >= 0],
    [_encode_int] of a non-negative value returns [ceil(bits/6)] characters,
    and [_decode_int] maps them back to the value when the value is below
    [2^bits]; a negative value fails the assertion. *)
Theorem encode_int_round_trip (charmap : pyval) (endian : bool)
  (e : Base64Engine) (value bits : Z) :
  Base64Engine_init charmap endian = Ok e →
  0 ≤ bits →
  (0 ≤ value →
   ∃ s, _encode_int e value bits = Ok s ∧
        6 * len s = bits + (- bits) mod 6 ∧
        (value < 2 ^ bits → _decode_int e (PyBytes s) bits = Ok value)) ∧
  (value < 0 → _encode_int e value bits = Raise AssertionError).
Proof.
  intros Hinit Hb. apply init_engine_ok in Hinit as [He _]. split.
  - intros Hv. apply encode_int_decode_int; assumption.
  - intros Hv. unfold _encode_int. rewrite bool_decide_false by lia.
    reflexivity.
Qed.

Lemma encode_int_round_trip_witness :
  (0 ≤ 1000 →
   ∃ s, _encode_int (h64_engine false) 1000 10 = Ok s ∧
        6 * len s = 10 + (- 10) mod 6 ∧
        (1000 < 2 ^ 10 →
         _decode_int (h64_engine false) (PyBytes s) 10 = Ok 1000)) ∧
  (1000 < 0 →
   _encode_int (h64_engine false) 1000 10 = Raise AssertionError).
Proof.
  apply (encode_int_round_trip (PyUnicode HASH64_CHARS) false).
  - vm_compute. reflexivity.
  - lia.
Defined.

(** X2: what [_decode_int] of a valid engine returns lies in
    [0 <= n < 2^bits], whatever padding bits the string carries. *)
Theorem decode_int_in_range (charmap : pyval) (endian : bool)
  (e : Base64Engine) (source : list byte) (bits n : Z) :
  Base64Engine_init charmap endian = Ok e →
  0 ≤ bits →
  _decode_int e (PyBytes source) bits = Ok n →
  0 ≤ n < 2 ^ bits.
Proof.
  intros Hinit Hb H. apply init_engine_ok in Hinit as [He _].
  apply decode_int_result in H as (Hlen & ds & out & Hds & Hout & Hn).
  destruct (pad_groups bits Hb) as (k & Hk & Hpad).
  pose proof (mapR_decode64_six e He _ _ Hds) as Hsix.
  pose proof (horner_range ds 0 Hsix ltac:(lia)) as Hr.
  rewrite <- Hout in Hr.
  assert (len ds = len source) as Hl.
  { apply mapR_length in Hds. unfold len. rewrite Hds.
    destruct (big e); [reflexivity|]. rewrite length_reverse. reflexivity. }
  rewrite Hl, Hlen in Hr.
  set (pad := (- bits) mod 6) in *.
  rewrite Z.pow_add_r in Hr by lia.
  assert (0 < 2 ^ bits) by (apply Z.pow_pos_nonneg; lia).
  assert (0 < 2 ^ pad) by (apply Z.pow_pos_nonneg; lia).
  subst n. case_bool_decide as Hp0.
  - destruct (big e).
    + rewrite Z.shiftr_div_pow2 by lia. split.
      * apply Z.div_pos; lia.
      * apply Z.div_lt_upper_bound; lia.
    + change (Z.shiftl 1 bits - 1) with (Z.pred (Z.shiftl 1 bits)).
      fold (Z.ones bits). rewrite Z.land_ones by lia.
      apply Z.mod_pos_bound. lia.
  - replace pad with 0 in Hr by lia. change (2 ^ 0) with 1 in Hr. lia.
Qed.

Lemma decode_int_in_range_witness : 0 ≤ 15 < 2 ^ 4.
Proof.
  apply (decode_int_in_range (PyUnicode HASH64_CHARS) true
           (h64_engine true) ["z"]%byte 4 15).
  - vm_compute. reflexivity.
  - lia.
  - vm_compute. reflexivity.
Defined.



(** X4: the decoders written out for 6, 12 and 24 bits return and raise
    what [_decode_int] does at that width, on every value and for every
    engine. *)
Theorem decode_int_fast_paths (e : Base64Engine) (source : pyval) :
  decode_int6 e source = _decode_int e source 6 ∧
  decode_int12 e source = _decode_int e source 12 ∧
  decode_int24 e source = _decode_int e source 24.
Proof.
  split; [apply decode_int6_generic|].
  split; [apply decode_int12_generic|apply decode_int24_generic].
Qed.

(** X5: the encoders written out for 6, 12 and 24 bits return what
    [_encode_int] does at that width on the values they accept, and raise
    [ValueError] on every other value. *)
Theorem encode_int_fast_paths (charmap : pyval) (endian : bool)
  (e : Base64Engine) (value : Z) :
  Base64Engine_init charmap endian = Ok e →
  (0 ≤ value < 2 ^ 6 → encode_int6 e value = _encode_int e value 6) ∧
  (0 ≤ value < 2 ^ 12 → encode_int12 e value = _encode_int e value 12) ∧
  (0 ≤ value < 2 ^ 24 → encode_int24 e value = _encode_int e value 24) ∧
  (value < 0 ∨ 2 ^ 6 ≤ value → encode_int6 e value = Raise ValueError) ∧
  (value < 0 ∨ 2 ^ 12 ≤ value → encode_int12 e value = Raise ValueError) ∧
  (value < 0 ∨ 2 ^ 24 ≤ value → encode_int24 e value = Raise ValueError).
Proof.
  intros Hinit. apply init_engine_ok in Hinit as [He _].
  change (2 ^ 6) with 64. change (2 ^ 12) with 4096.
  change (2 ^ 24) with 16777216.
  repeat split.
  - intros Hv. apply encode_int6_generic; [exact He|lia].
  - intros Hv. apply encode_int12_generic. lia.
  - intros Hv. apply encode_int24_generic. lia.
  - intros Hv. unfold encode_int6. rewrite bool_decide_true by lia.
    reflexivity.
  - intros Hv. unfold encode_int12. rewrite bool_decide_true by lia.
    reflexivity.
  - intros Hv. unfold encode_int24. rewrite bool_decide_true by lia.
    reflexivity.
Qed.

Lemma encode_int_fast_paths_witness :
  (0 ≤ 3000 < 2 ^ 6 →
   encode_int6 (h64_engine true) 3000
   = _encode_int (h64_engine true) 3000 6) ∧
  (0 ≤ 3000 < 2 ^ 12 →
   encode_int12 (h64_engine true) 3000
   = _encode_int (h64_engine true) 3000 12) ∧
  (0 ≤ 3000 < 2 ^ 24 →
   encode_int24 (h64_engine true) 3000
   = _encode_int (h64_engine true) 3000 24) ∧
  (3000 < 0 ∨ 2 ^ 6 ≤ 3000 →
   encode_int6 (h64_engine true) 3000 = Raise ValueError) ∧
  (3000 < 0 ∨ 2 ^ 12 ≤ 3000 →
   encode_int12 (h64_engine true) 3000 = Raise ValueError) ∧
  (3000 < 0 ∨ 2 ^ 24 ≤ 3000 →
   encode_int24 (h64_engine true) 3000 = Raise ValueError).
Proof.
  apply (encode_int_fast_paths (PyUnicode HASH64_CHARS) true).
  vm_compute. reflexivity.
Defined.

(** X6: for an engine built by [__init__] and each of the widths 6, 12, 24
    and 30, [decode_intN(encode_intN(n))] is [n] for every [n] the encoder
    accepts. *)
Theorem decode_int_encode_int (charmap : pyval) (endian : bool)
  (e : Base64Engine) (n : Z) :
  Base64Engine_init charmap endian = Ok e →
  (0 ≤ n < 2 ^ 6 →
   ∃ s, encode_int6 e n = Ok s ∧ decode_int6 e (PyBytes s) = Ok n) ∧
  (0 ≤ n < 2 ^ 12 →
   ∃ s, encode_int12 e n = Ok s ∧ decode_int12 e (PyBytes s) = Ok n) ∧
  (0 ≤ n < 2 ^ 24 →
   ∃ s, encode_int24 e n = Ok s ∧ decode_int24 e (PyBytes s) = Ok n) ∧
  (0 ≤ n < 2 ^ 30 →
   ∃ s, encode_int30 e n = Ok s ∧ decode_int30 e (PyBytes s) = Ok n).
Proof.
  intros Hinit. apply init_engine_ok in Hinit as [He _].
  repeat split; intros Hn.
  - destruct (encode_int_decode_int e n 6 He ltac:(lia) ltac:(lia))
      as (s & Hs & _ & Hd).
    exists s. rewrite decode_int6_generic, encode_int6_generic;
      [split; [exact Hs|apply Hd; lia]|exact He
      |change (2 ^ 6) with 64 in Hn; lia].
  - destruct (encode_int_decode_int e n 12 He ltac:(lia) ltac:(lia))
      as (s & Hs & _ & Hd).
    exists s. rewrite decode_int12_generic, encode_int12_generic;
      [split; [exact Hs|apply Hd; lia]
      |change (2 ^ 12) with 4096 in Hn; lia].
  - destruct (encode_int_decode_int e n 24 He ltac:(lia) ltac:(lia))
      as (s & Hs & _ & Hd).
    exists s. rewrite decode_int24_generic, encode_int24_generic;
      [split; [exact Hs|apply Hd; lia]
      |change (2 ^ 24) with 16777216 in Hn; lia].
  - destruct (encode_int_decode_int e n 30 He ltac:(lia) ltac:(lia))
      as (s & Hs & _ & Hd).
    exists s. unfold encode_int30, decode_int30.
    rewrite bool_decide_false
      by (change (2 ^ 30) with 1073741824 in Hn; lia).
    split; [exact Hs|apply Hd; lia].
Qed.

Lemma decode_int_encode_int_witness :
  (0 ≤ 42 < 2 ^ 6 →
   ∃ s, encode_int6 (h64_engine false) 42 = Ok s
        ∧ decode_int6 (h64_engine false) (PyBytes s) = Ok 42) ∧
  (0 ≤ 42 < 2 ^ 12 →
   ∃ s, encode_int12 (h64_engine false) 42 = Ok s
        ∧ decode_int12 (h64_engine false) (PyBytes s) = Ok 42) ∧
  (0 ≤ 42 < 2 ^ 24 →
   ∃ s, encode_int24 (h64_engine false) 42 = Ok s
        ∧ decode_int24 (h64_engine false) (PyBytes s) = Ok 42) ∧
  (0 ≤ 42 < 2 ^ 30 →
   ∃ s, encode_int30 (h64_engine false) 42 = Ok s
        ∧ decode_int30 (h64_engine false) (PyBytes s) = Ok 42).
Proof.
  apply (decode_int_encode_int (PyUnicode HASH64_CHARS) false).
  vm_compute. reflexivity.
Defined.

(** ** Encoding what was decoded *)

Lemma all_below_3 (n m k : Z) (P : Z → Z → Z → bool) :
  forallb (λ a, forallb (λ b, forallb (P a b) (seqZ 0 k)) (seqZ 0 m))
          (seqZ 0 n) = true →
  ∀ a b c, 0 ≤ a < n → 0 ≤ b < m → 0 ≤ c < k → P a b c = true.
Proof.
  intros H a b c Ha Hb Hc.
  pose proof (all_below_1 n _ H a Ha) as H1. simpl in H1.
  apply (all_below_2 m k _ H1 b c Hb Hc).
Qed.

Ltac below3 :=
  unfold is_byte, is_six;
  let a := fresh "a" in
  let b := fresh "b" in
  let c := fresh "c" in
  let Ha := fresh "Ha" in
  let Hb := fresh "Hb" in
  let Hc := fresh "Hc" in
  intros a b c Ha Hb Hc; apply Z.eqb_eq; revert a b c Ha Hb Hc;
  match goal with
  | |- ∀ a b c, 0 ≤ a < ?n → 0 ≤ b < ?m → 0 ≤ c < ?k → @?P a b c = true =>
      apply (all_below_3 n m k P)
  end;
  vm_compute; reflexivity.

Lemma enc_dec_little_chunk (v1 v2 v3 v4 : Z) :
  is_six v1 → is_six v2 → is_six v3 → is_six v4 →
  enc_little_chunk (dec_little_chunk [v1; v2; v3; v4]) = [v1; v2; v3; v4].
Proof.
  intros H1 H2 H3 H4. unfold enc_little_chunk, dec_little_chunk.
  f_equal; [|f_equal; [|f_equal; [|f_equal]]].
  - revert v1 v2 H1 H2. below2.
  - revert v1 v2 v3 H1 H2 H3. below3.
  - revert v2 v3 v4 H2 H3 H4. below3.
  - revert v3 v4 H3 H4. below2.
Qed.

Lemma enc_dec_big_chunk (v1 v2 v3 v4 : Z) :
  is_six v1 → is_six v2 → is_six v3 → is_six v4 →
  enc_big_chunk (dec_big_chunk [v1; v2; v3; v4]) = [v1; v2; v3; v4].
Proof.
  intros H1 H2 H3 H4. unfold enc_big_chunk, dec_big_chunk.
  f_equal; [|f_equal; [|f_equal; [|f_equal]]].
  - revert v1 v2 H1 H2. below2.
  - revert v1 v2 v3 H1 H2 H3. below3.
  - revert v2 v3 v4 H2 H3 H4. below3.
  - revert v3 v4 H3 H4. below2.
Qed.

(** Encoding a decoded tail gives the tail back with the padding bits of
    its last value cleared. *)
Lemma enc_dec_tail (big : bool) (init : list Z) (v : Z) :
  Forall is_six init → is_six v → (0 < length init < 3)%nat →
  let tail := Z.of_nat (length init) + 1 in
  (if big then enc_big_tail (dec_big_tail (init ++ [v]))
   else enc_little_tail (dec_little_tail (init ++ [v])))
  = init ++ [Z.land v (Z.lnot (padding_bits big tail))].
Proof.
  intros Hinit Hv Hl.
  destruct init as [|v1 [|v2 [|v3 init]]]; simpl in Hl; try lia.
  - apply Forall_cons in Hinit as [H1 _]. destruct big; simpl.
    + f_equal; [|f_equal].
      * revert v1 v H1 Hv. below2.
      * revert v1 v H1 Hv. below2.
    + f_equal; [|f_equal].
      * revert v1 v H1 Hv. below2.
      * revert v1 v H1 Hv. below2.
  - apply Forall_cons in Hinit as [H1 Hinit].
    apply Forall_cons in Hinit as [H2 _]. destruct big; simpl.
    + f_equal; [|f_equal; [|f_equal]].
      * revert v1 v2 H1 H2. below2.
      * revert v1 v2 v H1 H2 Hv. below3.
      * revert v2 v H2 Hv. below2.
    + f_equal; [|f_equal; [|f_equal]].
      * revert v1 v2 H1 H2. below2.
      * revert v1 v2 v H1 H2 Hv. below3.
      * revert v2 v H2 Hv. below2.
Qed.

Lemma grouped_chunks_inverse (k k' : nat) (fc gc : list Z → list Z)
  (Q : Z → Prop) :
  (∀ chunk, length chunk = k → Forall Q chunk →
     length (fc chunk) = k' ∧ gc (fc chunk) = chunk) →
  ∀ n vs, length vs = (n * k)%nat → Forall Q vs →
    grouped k' gc (λ _, []) n (grouped k fc (λ _, []) n vs) = vs.
Proof.
  intros Hc. induction n as [|n IH]; intros vs Hl HQ; simpl in *.
  - destruct vs; [reflexivity|discriminate].
  - destruct (Hc (take k vs)) as [Hlen Hinv];
      [rewrite length_take; lia|apply Forall_take; assumption|].
    rewrite take_app_length' by lia.
    rewrite drop_app_length' by lia.
    rewrite Hinv, IH; [apply take_drop|rewrite length_drop; lia|].
    apply Forall_drop. assumption.
Qed.

Lemma dec_chunks_length (b : bool) (n : nat) (vs : list Z) :
  length vs = (n * 4)%nat →
  length (grouped 4 (if b then dec_big_chunk else dec_little_chunk)
            (λ _, []) n vs) = (n * 3)%nat.
Proof.
  intros Hl. rewrite (grouped_length 4 3) by
    (try lia; intros chunk Hc;
     destruct chunk as [|?v [|?v [|?v [|?v [|?v chunk]]]]];
     try discriminate; destruct b; reflexivity).
  simpl. lia.
Qed.

(** The values of the encoder on the values of the decoder: the full groups
    come back, and so does the tail, up to its padding bits. *)
Lemma enc_dec_values (b : bool) (n : nat) (main tl : list Z) :
  length main = (n * 4)%nat → Forall is_six main → Forall is_six tl →
  enc_values b n (dec_values b n (main ++ tl))
  = main ++ (if b then enc_big_tail (dec_big_tail tl)
             else enc_little_tail (dec_little_tail tl)).
Proof.
  intros Hl Hmain Htl. unfold enc_values, dec_values.
  pose proof (dec_chunks_length b n main Hl) as Hlen.
  destruct b.
  - rewrite (grouped_app 4 dec_big_chunk dec_big_tail) by assumption.
    rewrite (grouped_app 3 enc_big_chunk enc_big_tail) by assumption.
    f_equal.
    apply (grouped_chunks_inverse 4 3 _ _ is_six); try assumption.
    intros chunk Hc H. four_values chunk H.
    split; [reflexivity|]. apply enc_dec_big_chunk; assumption.
  - rewrite (grouped_app 4 dec_little_chunk dec_little_tail) by assumption.
    rewrite (grouped_app 3 enc_little_chunk enc_little_tail) by assumption.
    f_equal.
    apply (grouped_chunks_inverse 4 3 _ _ is_six); try assumption.
    intros chunk Hc H. four_values chunk H.
    split; [reflexivity|]. apply enc_dec_little_chunk; assumption.
Qed.

Lemma land_lnot_id (v bits : Z) :
  Z.land v bits = 0 → Z.land v (Z.lnot bits) = v.
Proof.
  intros H. apply Z.bits_inj'. intros i Hi.
  rewrite Z.land_spec, Z.lnot_spec by assumption.
  assert (Z.testbit (Z.land v bits) i = false) as Hb
    by (rewrite H; apply Z.bits_0).
  rewrite Z.land_spec in Hb.
  destruct (Z.testbit v i), (Z.testbit bits i); simpl in *; congruence.
Qed.

Lemma mapR_app_inv {A B} (f : A → result B) (l1 l2 : list A)
  (ys : list B) :
  mapR f (l1 ++ l2) = Ok ys →
  ∃ ys1 ys2, ys = ys1 ++ ys2 ∧ mapR f l1 = Ok ys1 ∧ mapR f l2 = Ok ys2.
Proof.
  rewrite mapR_app.
  destruct (mapR f l1) as [ys1|]; [|discriminate].
  destruct (mapR f l2) as [ys2|]; [|discriminate].
  intros H. inversion H. eauto.
Qed.

Lemma join_byte_values_inv (vs : list Z) (data : list byte) :
  join_byte_values vs = Ok data → map ord data = vs.
Proof.
  unfold join_byte_values. intros H. apply mapR_Forall2 in H.
  induction H as [|v b vs data Hv _ IH]; [reflexivity|].
  simpl. f_equal; [|exact IH].
  unfold byte_of_value in Hv. case_bool_decide as Hr; [|discriminate].
  destruct (Byte.of_N (Z.to_N v)) as [b'|] eqn:E; [|discriminate].
  inversion Hv; subst b'. apply Byte.to_of_N in E. unfold ord. rewrite E.
  lia.
Qed.

Section Repair.
Variable e : Base64Engine.
Hypothesis He : engine_ok e.

Lemma mapR_decode64_encode64 (src : list byte) (vs : list Z) :
  mapR (_decode64 e) src = Ok vs → mapR (_encode64 e) vs = Ok src.
Proof.
  rewrite !mapR_Forall2. intros H.
  induction H as [|c v src vs Hc _ IH]; constructor; [|exact IH].
  apply (decode64_inv e He) in Hc. tauto.
Qed.

(** [check_repair_unused] on a byte string of length 2 or 3 mod 4 whose
    last character has the value [v]. *)
Lemma check_repair_unused_last (init : list byte) (c : byte) (v : Z) :
  _decode64 e c = Ok v →
  let tail := len (init ++ [c]) mod 4 in
  tail = 2 ∨ tail = 3 →
  let bits := padding_bits (big e) tail in
  ∃ c', _encode64 e (Z.land v (Z.lnot bits)) = Ok c' ∧
        _decode64 e c' = Ok (Z.land v (Z.lnot bits)) ∧
        check_repair_unused e (PyBytes (init ++ [c]))
        = Ok (negb (bool_decide (Z.land v bits = 0)),
              PyBytes (init ++ [c'])).
Proof.
  intros Hv tail Htail bits.
  assert (check_repair_unused e (PyBytes (init ++ [c]))
          = repair_last e (Z.lnot bits, make_padset e bits)
              (PyBytes (init ++ [c]))) as ->.
  { unfold check_repair_unused. simpl py_len.
    unfold mbind, result_bind. rewrite land_3_mod_4. fold tail.
    subst bits. unfold padding_bits, _padinfo2, _padinfo3.
    destruct Htail as [Ht|Ht].
    - rewrite !bool_decide_true by assumption. destruct (big e); reflexivity.
    - rewrite !(bool_decide_false (tail = 2)) by lia.
      rewrite !bool_decide_true by assumption.
      destruct (big e); reflexivity. }
  destruct (repair_last_bytes e He bits init c v Hv) as [Hclean Hdirty].
  case_bool_decide as Hb; simpl negb.
  - exists c. rewrite land_lnot_id by assumption.
    split; [apply (decode64_inv e He); exact Hv|].
    split; [exact Hv|]. apply Hclean. exact Hb.
  - destruct (Hdirty Hb) as (c' & Hd & Hr). exists c'.
    split; [apply (decode64_inv e He); exact Hd|].
    split; [exact Hd|exact Hr].
Qed.
End Repair.

Section RepairBytes.
Variable e : Base64Engine.
Hypothesis He : engine_ok e.

(** Decoding a string of alphabet symbols and encoding the bytes again
    gives the string [check_repair_unused] returns; the flag tells whether
    that differs from the string. *)
Lemma encode_decode_repair (s : list byte) :
  len s mod 4 ≠ 1 → Forall (in_alphabet e) s →
  ∃ data r changed,
    decode_bytes e (PyBytes s) = Ok data ∧
    encode_bytes e (PyBytes data) = Ok r ∧
    check_repair_unused e (PyBytes s) = Ok (changed, PyBytes r) ∧
    (changed = false ↔ r = s).
Proof.
  intros Hmod Hall.
  destruct (split_groups 4 s) as (n & main & tl & -> & Hm & Ht & _); [lia|].
  destruct (groups_divmod 4 n main tl Hm Ht) as [_ Hmod4].
  change (Z.of_nat 4) with 4 in Hmod4.
  assert (length tl ≠ 1%nat) as Ht1 by (unfold len in Hmod4 at 2; lia).
  destruct (mapR_decode64_alphabet e He _ Hall) as [vs Hvs].
  destruct (mapR_app_inv _ _ _ _ Hvs) as (vmain & vtl & -> & Hvm & Hvt).
  pose proof (mapR_decode64_six e He _ _ Hvm) as Hsm.
  pose proof (mapR_decode64_six e He _ _ Hvt) as Hst.
  pose proof (mapR_length _ _ _ Hvm) as Hlm.
  pose proof (mapR_length _ _ _ Hvt) as Hlt.
  rewrite (decode_bytes_groups e n) by assumption. rewrite Hvs.
  destruct (join_byte_values_bytes
              (dec_values (big e) n (vmain ++ vtl))) as [data Hdata].
  { apply dec_values_byte; [rewrite length_app; lia|].
    apply Forall_app. split; assumption. }
  exists data. rewrite Hdata.
  pose proof (join_byte_values_inv _ _ Hdata) as Hord.
  assert (length data
          = (n * 3 + length (if big e then dec_big_tail vtl
                             else dec_little_tail vtl))%nat) as Hld.
  { rewrite <- (length_map ord), Hord. unfold dec_values.
    pose proof (dec_chunks_length (big e) n vmain ltac:(lia)) as Hc.
    destruct (big e);
      [rewrite (grouped_app 4 dec_big_chunk dec_big_tail) by lia
      |rewrite (grouped_app 4 dec_little_chunk dec_little_tail) by lia];
      rewrite length_app, Hc; reflexivity. }
  assert (length (if big e then dec_big_tail vtl else dec_little_tail vtl)
          < 3)%nat as Hdt.
  { destruct (big e);
      destruct vtl as [|v1 [|v2 [|v3 [|v4 vtl]]]]; simpl; lia. }
  assert (encode_bytes e (PyBytes data)
          = mapR (_encode64 e) (enc_values (big e) n (map ord data)))
    as ->.
  { rewrite <- (take_drop (n * 3) data).
    apply encode_bytes_groups; rewrite ?length_take, ?length_drop; lia. }
  rewrite Hord.
  rewrite enc_dec_values by (assumption || lia).
  destruct (decide (tl = [])) as [->|Hne].
  - simpl in Hvt. inversion Hvt; subst vtl.
    assert ((if big e then enc_big_tail (dec_big_tail [])
             else enc_little_tail (dec_little_tail [])) = []) as ->
      by (destruct (big e); reflexivity).
    rewrite !app_nil_r. exists main, false.
    split; [reflexivity|].
    split; [apply mapR_decode64_encode64; assumption|].
    split; [|tauto].
    unfold check_repair_unused. simpl py_len. unfold mbind, result_bind.
    rewrite land_3_mod_4. rewrite app_nil_r in Hmod4. rewrite Hmod4.
    reflexivity.
  - destruct (exists_last Hne) as (tinit & c & ->).
    destruct (mapR_app_inv _ _ _ _ Hvt) as (vinit & vlast & -> & Hvi & Hvl).
    simpl in Hvl. destruct (_decode64 e c) as [v|] eqn:Hc; [|discriminate].
    inversion Hvl; subst vlast. clear Hvl.
    apply Forall_app in Hst as [Hsi Hsv].
    apply Forall_cons in Hsv as [Hsv _].
    pose proof (mapR_length _ _ _ Hvi) as Hli.
    rewrite length_app in Ht, Ht1. simpl in Ht, Ht1.
    pose proof (enc_dec_tail (big e) vinit v Hsi Hsv ltac:(lia)) as Htail.
    cbv zeta in Htail. rewrite Htail.
    assert (len (tinit ++ [c]) = Z.of_nat (length vinit) + 1) as Hlen
      by (unfold len; rewrite length_app; simpl; lia).
    pose proof (check_repair_unused_last e He (main ++ tinit) c v Hc)
      as Hlast.
    cbv zeta in Hlast. rewrite <- !app_assoc in Hlast.
    rewrite Hmod4, Hlen in Hlast.
    destruct Hlast as (c' & Hc' & Hd' & Hcheck); [lia|].
    rewrite <- app_assoc in Hcheck.
    set (bits := padding_bits (big e) (Z.of_nat (length vinit) + 1)) in *.
    exists (main ++ tinit ++ [c']),
           (negb (bool_decide (Z.land v bits = 0))).
    split; [reflexivity|]. split; [|split; [exact Hcheck|]].
    + rewrite !mapR_app.
      rewrite (mapR_decode64_encode64 e He _ _ Hvm).
      rewrite (mapR_decode64_encode64 e He _ _ Hvi).
      simpl. rewrite Hc'. reflexivity.
    + case_bool_decide as Hb; simpl.
      * split; [intros _|reflexivity].
        rewrite land_lnot_id in Hd' by assumption.
        pose proof (proj2 (decode64_inv e He c v Hc)) as E1.
        pose proof (proj2 (decode64_inv e He c' v Hd')) as E2.
        rewrite E1 in E2. inversion E2. reflexivity.
      * split; [discriminate|]. intros Heq. exfalso. apply Hb.
        apply app_inv_head in Heq. apply app_inv_head in Heq.
        inversion Heq; subst c'. rewrite Hc in Hd'. inversion Hd' as [Hv'].
        rewrite Hv' at 1. apply land_lnot_clear.
Qed.
End RepairBytes.

Section Canonical.
Variable e : Base64Engine.
Hypothesis He : engine_ok e.

Lemma decode_encode_ok (b : list byte) :
  ∃ s, encode_bytes e (PyBytes b) = Ok s ∧ decode_bytes e (PyBytes s) = Ok b.
Proof.
  destruct (split_groups 3 b) as (n & src & tl & -> & Hs & Ht & _); [lia|].
  rewrite (encode_bytes_groups e n) by assumption.
  pose proof (Forall_ord_byte (src ++ tl)) as Hb.
  assert (n * 3 ≤ length (map ord (src ++ tl)) < n * 3 + 3)%nat as Hl
    by (rewrite length_map, length_app; lia).
  destruct (mapR_encode64 e He (enc_values (big e) n
              (map ord (src ++ tl)))) as (s & Hs' & Hback).
  { apply enc_values_six; [lia|assumption]. }
  exists s. split; [assumption|].
  pose proof (mapR_length _ _ _ Hs') as Hlen.
  rewrite map_app in Hlen.
  destruct (enc_values_length (big e) n (map ord src) (map ord tl))
    as (t' & Hlen' & Ht' & Ht1); [rewrite length_map; lia..|].
  rewrite Hlen' in Hlen.
  destruct (split_groups 4 s) as (n' & src' & tl' & -> & Hs4 & Ht4 & Hn');
    [lia|].
  assert (n' = n) as -> by (rewrite length_app in Hlen; nia).
  assert (length tl' ≠ 1%nat) by (rewrite length_app in Hlen; lia).
  rewrite (decode_bytes_groups e n) by assumption.
  rewrite Hback, dec_enc_values by assumption.
  apply join_byte_values_ord.
Qed.

(** What [decode_bytes] accepts. *)
Lemma decode_ok_inv (s data : list byte) :
  decode_bytes e (PyBytes s) = Ok data →
  len s mod 4 ≠ 1 ∧ Forall (in_alphabet e) s ∧
  ∃ vs, mapR (_decode64 e) s = Ok vs ∧
        map ord data
        = dec_values (big e) (Z.to_nat (len s / 4)) vs.
Proof.
  intros H.
  assert (len s mod 4 ≠ 1) as Hmod.
  { intros Hm. unfold decode_bytes, divmod in H.
    rewrite bool_decide_true in H by assumption. discriminate. }
  split; [exact Hmod|].
  destruct (split_groups 4 s) as (n & src & tl & -> & Hs & Ht & Hn); [lia|].
  destruct (groups_divmod 4 n src tl Hs Ht) as [_ Hm].
  change (Z.of_nat 4) with 4 in Hm.
  rewrite (decode_bytes_groups e n) in H
    by (try assumption; unfold len in Hm at 2; lia).
  destruct (mapR (_decode64 e) (src ++ tl)) as [vs|ex] eqn:E.
  - split.
    + apply mapR_Forall2 in E. clear -E He.
      induction E as [|c v l vs Hc _ IH]; constructor; [|exact IH].
      apply in_alphabet_decode64; eauto.
    + exists vs. split; [reflexivity|].
      change (Z.of_nat 4) with 4 in Hn. rewrite <- Hn.
      apply join_byte_values_inv. exact H.
  - pose proof (mapR_decode64_raises e _ _ E). subst ex. discriminate.
Qed.

(** What [encode_bytes] returns has no padding bit set. *)
Lemma encode_canonical (b s : list byte) :
  encode_bytes e (PyBytes b) = Ok s →
  check_repair_unused e (PyBytes s) = Ok (false, PyBytes s).
Proof.
  intros Hs. destruct (decode_encode_ok b) as (s' & Hs' & Hd).
  rewrite Hs in Hs'. inversion Hs'; subst s'.
  destruct (decode_ok_inv _ _ Hd) as (Hmod & Hall & _).
  destruct (encode_decode_repair e He s Hmod Hall)
    as (data & r & changed & Hdata & Hr & Hcheck & Hiff).
  rewrite Hd in Hdata. inversion Hdata; subst data.
  rewrite Hs in Hr. inversion Hr; subst r.
  rewrite Hcheck. f_equal. f_equal. apply Hiff. reflexivity.
Qed.
End Canonical.

(** ** Byte strings: further properties *)

(** X7: for a string of alphabet symbols whose length is not 1 mod 4,
    encoding what [decode_bytes] returns gives the string
    [check_repair_unused] returns, and the flag is [False] exactly when
    that is the string itself. *)
Theorem encode_bytes_decode_bytes (charmap : pyval) (endian : bool)
  (e : Base64Engine) (s : list byte) :
  Base64Engine_init charmap endian = Ok e →
  len s mod 4 ≠ 1 → Forall (in_alphabet e) s →
  ∃ data r changed,
    decode_bytes e (PyBytes s) = Ok data ∧
    encode_bytes e (PyBytes data) = Ok r ∧
    check_repair_unused e (PyBytes s) = Ok (changed, PyBytes r) ∧
    (changed = false ↔ r = s).
Proof.
  intros Hinit. apply init_engine_ok in Hinit as [He _].
  apply encode_decode_repair. exact He.
Qed.

Lemma encode_bytes_decode_bytes_witness :
  ∃ data r changed,
    decode_bytes (h64_engine true) (PyBytes ["a"; "b"; "z"]%byte) = Ok data ∧
    encode_bytes (h64_engine true) (PyBytes data) = Ok r ∧
    check_repair_unused (h64_engine true) (PyBytes ["a"; "b"; "z"]%byte)
    = Ok (changed, PyBytes r) ∧
    (changed = false ↔ r = ["a"; "b"; "z"]%byte).
Proof.
  apply (encode_bytes_decode_bytes (PyUnicode HASH64_CHARS) true).
  - vm_compute. reflexivity.
  - vm_compute. discriminate.
  - repeat constructor.
Defined.

(** X8: for a string of alphabet symbols whose length is not 1 mod 4,
    [repair_unused] returns a string that [decode_bytes] maps to the same
    bytes: the padding bits do not reach the decoded data. *)
Theorem repair_unused_keeps_decoding (charmap : pyval) (endian : bool)
  (e : Base64Engine) (s : list byte) :
  Base64Engine_init charmap endian = Ok e →
  len s mod 4 ≠ 1 → Forall (in_alphabet e) s →
  ∃ r data, repair_unused e (PyBytes s) = Ok (PyBytes r) ∧
            decode_bytes e (PyBytes s) = Ok data ∧
            decode_bytes e (PyBytes r) = Ok data.
Proof.
  intros Hinit Hmod Hall. apply init_engine_ok in Hinit as [He _].
  destruct (encode_decode_repair e He s Hmod Hall)
    as (data & r & changed & Hdata & Hr & Hcheck & _).
  exists r, data. unfold repair_unused. rewrite Hcheck.
  split; [reflexivity|]. split; [exact Hdata|].
  destruct (decode_encode_ok e He data) as (r' & Hr' & Hd).
  rewrite Hr in Hr'. inversion Hr'; subst r'. exact Hd.
Qed.

Lemma repair_unused_keeps_decoding_witness :
  ∃ r data,
    repair_unused (h64_engine false) (PyBytes ["a"; "z"]%byte)
    = Ok (PyBytes r) ∧
    decode_bytes (h64_engine false) (PyBytes ["a"; "z"]%byte) = Ok data ∧
    decode_bytes (h64_engine false) (PyBytes r) = Ok data.
Proof.
  apply (repair_unused_keeps_decoding (PyUnicode HASH64_CHARS) false).
  - vm_compute. reflexivity.
  - vm_compute. discriminate.
  - repeat constructor.
Defined.

(** X9: what [encode_bytes] returns has no padding bit set:
    [check_repair_unused] returns it unchanged, with the flag [False]. *)
Theorem encode_bytes_is_repaired (charmap : pyval) (endian : bool)
  (e : Base64Engine) (b s : list byte) :
  Base64Engine_init charmap endian = Ok e →
  encode_bytes e (PyBytes b) = Ok s →
  check_repair_unused e (PyBytes s) = Ok (false, PyBytes s).
Proof.
  intros Hinit. apply init_engine_ok in Hinit as [He _].
  apply encode_canonical. exact He.
Qed.

Lemma encode_bytes_is_repaired_witness :
  check_repair_unused (h64_engine true) (PyBytes ["M"; "E"]%byte)
  = Ok (false, PyBytes ["M"; "E"]%byte).
Proof.
  apply (encode_bytes_is_repaired (PyUnicode HASH64_CHARS) true
           (h64_engine true) ["a"]%byte).
  - vm_compute. reflexivity.
  - vm_compute. reflexivity.
Defined.

(** X10: repairing is idempotent: on what [repair_unused] returns for a
    string of alphabet symbols, [check_repair_unused] finds nothing to
    repair. *)
Theorem repair_unused_idempotent (charmap : pyval) (endian : bool)
  (e : Base64Engine) (s : list byte) :
  Base64Engine_init charmap endian = Ok e →
  len s mod 4 ≠ 1 → Forall (in_alphabet e) s →
  ∃ r, repair_unused e (PyBytes s) = Ok (PyBytes r) ∧
       check_repair_unused e (PyBytes r) = Ok (false, PyBytes r).
Proof.
  intros Hinit Hmod Hall. apply init_engine_ok in Hinit as [He _].
  destruct (encode_decode_repair e He s Hmod Hall)
    as (data & r & changed & Hdata & Hr & Hcheck & _).
  exists r. unfold repair_unused. rewrite Hcheck.
  split; [reflexivity|]. apply (encode_canonical e He data). exact Hr.
Qed.

Lemma repair_unused_idempotent_witness :
  ∃ r, repair_unused (h64_engine true) (PyBytes ["a"; "b"; "z"]%byte)
       = Ok (PyBytes r) ∧
       check_repair_unused (h64_engine true) (PyBytes r)
       = Ok (false, PyBytes r).
Proof.
  apply (repair_unused_idempotent (PyUnicode HASH64_CHARS) true).
  - vm_compute. reflexivity.
  - vm_compute. discriminate.
  - repeat constructor.
Defined.

Lemma enc_chunks_length (b : bool) (n : nat) (vs : list Z) :
  length vs = (n * 3)%nat →
  length (grouped 3 (if b then enc_big_chunk else enc_little_chunk)
            (λ _, []) n vs) = (n * 4)%nat.
Proof.
  intros Hl. rewrite (grouped_length 3 4) by
    (try lia; intros chunk Hc;
     destruct chunk as [|?v [|?v [|?v [|?v chunk]]]];
     try discriminate; destruct b; reflexivity).
  simpl. lia.
Qed.

(** X11: [encode_bytes] returns four characters for each three bytes and
    [tail + 1] characters for a tail of one or two bytes; [decode_bytes]
    returns three bytes for each four characters and [tail - 1] bytes for a
    tail of two or three characters. *)
Theorem codec_lengths (e : Base64Engine) (b s : list byte) :
  (encode_bytes e (PyBytes b) = Ok s →
   len s = 4 * (len b / 3)
           + (if bool_decide (len b mod 3 = 0) then 0
              else len b mod 3 + 1)) ∧
  (decode_bytes e (PyBytes s) = Ok b →
   len b = 3 * (len s / 4)
           + (if bool_decide (len s mod 4 = 0) then 0
              else len s mod 4 - 1)).
Proof.
  split.
  - destruct (split_groups 3 b) as (n & src & tl & -> & Hs & Ht & _); [lia|].
    destruct (groups_divmod 3 n src tl Hs Ht) as [Hd Hm].
    change (Z.of_nat 3) with 3 in Hd, Hm.
    rewrite (encode_bytes_groups e n) by assumption. intros H.
    apply mapR_length in H. unfold len at 1. rewrite H, Hd, Hm.
    rewrite map_app. unfold enc_values.
    pose proof (enc_chunks_length (big e) n (map ord src)
                  ltac:(rewrite length_map; lia)) as Hc.
    destruct (big e);
      [rewrite (grouped_app 3 enc_big_chunk enc_big_tail)
         by (rewrite length_map; lia)
      |rewrite (grouped_app 3 enc_little_chunk enc_little_tail)
         by (rewrite length_map; lia)];
      rewrite length_app, Hc;
      destruct tl as [|c1 [|c2 [|c3 tl]]]; simpl in Ht; try lia;
      simpl; unfold len; simpl; lia.
  - intros H.
    assert (len s mod 4 ≠ 1) as Hmod.
    { intros Hm. unfold decode_bytes, divmod in H.
      rewrite bool_decide_true in H by assumption. discriminate. }
    destruct (split_groups 4 s) as (n & src & tl & -> & Hs & Ht & _); [lia|].
    destruct (groups_divmod 4 n src tl Hs Ht) as [Hd Hm].
    change (Z.of_nat 4) with 4 in Hd, Hm.
    rewrite (decode_bytes_groups e n) in H
      by (try assumption; unfold len in Hm at 2; lia).
    destruct (mapR (_decode64 e) (src ++ tl)) as [vs|ex] eqn:E;
      [|destruct ex; discriminate].
    apply mapR_app_inv in E as (vsrc & vtl & -> & Hvs & Hvt).
    apply mapR_length in Hvs, Hvt.
    apply mapR_length in H. unfold len at 1. rewrite H, Hd, Hm.
    unfold dec_values.
    pose proof (dec_chunks_length (big e) n vsrc ltac:(lia)) as Hc.
    assert (length tl ≠ 1%nat) by (unfold len in Hm at 2; lia).
    destruct (big e);
      [rewrite (grouped_app 4 dec_big_chunk dec_big_tail) by lia
      |rewrite (grouped_app 4 dec_little_chunk dec_little_tail) by lia];
      rewrite length_app, Hc;
      destruct tl as [|c1 [|c2 [|c3 [|c4 tl]]]]; simpl in Ht; try lia;
      destruct vtl as [|v1 [|v2 [|v3 [|v4 vtl]]]]; simpl in Hvt;
      try discriminate; try lia;
      simpl; unfold len; simpl; lia.
Qed.

Lemma codec_lengths_witness :
  len ["M"; "E"]%byte = 4 * (len ["a"]%byte / 3)
    + (if bool_decide (len ["a"]%byte mod 3 = 0) then 0
       else len ["a"]%byte mod 3 + 1) ∧
  len ["a"; "b"]%byte = 3 * (len ["M"; "K"; "6"]%byte / 4)
    + (if bool_decide (len ["M"; "K"; "6"]%byte mod 4 = 0) then 0
       else len ["M"; "K"; "6"]%byte mod 4 - 1).
Proof.
  split.
  - apply (proj1 (codec_lengths (h64_engine true) ["a"]%byte
                    ["M"; "E"]%byte)).
    vm_compute. reflexivity.
  - apply (proj2 (codec_lengths (h64_engine true) ["a"; "b"]%byte
                    ["M"; "K"; "6"]%byte)).
    vm_compute. reflexivity.
Defined.

(** ** Transposed encoding *)

Lemma setitem_ok {A} (l : list A) (i : Z) (x : A) :
  0 ≤ i < len l → setitem l i x = Ok (<[Z.to_nat i := x]> l).
Proof.
  intros Hi. unfold setitem. cbv zeta.
  rewrite (bool_decide_false (i < 0)) by lia.
  rewrite bool_decide_true by lia. reflexivity.
Qed.

Lemma getitem_ok {A} (l : list A) (i : Z) (x : A) :
  0 ≤ i → l !! Z.to_nat i = Some x → getitem l i = Ok x.
Proof.
  intros Hi Hx. unfold getitem. cbv zeta.
  rewrite (bool_decide_false (i < 0)) by lia.
  rewrite bool_decide_true by lia. rewrite Hx. reflexivity.
Qed.

Lemma for_each_setitem_ok (source : list byte) (offs : list Z)
  (tmp : list byte) (buf : list (option byte)) :
  Forall2 (λ o c, 0 ≤ o ∧ source !! Z.to_nat o = Some c) offs tmp →
  length buf = length source →
  ∃ buf', for_each (λ buf p, setitem buf p.1 (Some p.2)) buf (zip offs tmp)
          = Ok buf' ∧
          length buf' = length source ∧
          ∀ j : nat,
            (Z.of_nat j ∈ offs → buf' !! j = Some <$> source !! j) ∧
            (Z.of_nat j ∉ offs → buf' !! j = buf !! j).
Proof.
  intros H. revert buf. induction H as [|o c offs tmp [Ho Hc] _ IH];
    intros buf Hlen.
  - exists buf. split; [reflexivity|]. split; [assumption|].
    intros j. split; [|reflexivity]. intros Hin. inversion Hin.
  - pose proof (lookup_lt_Some _ _ _ Hc) as Hlt.
    cbn [zip zip_with for_each fst snd].
    rewrite setitem_ok by (unfold len; lia).
    destruct (IH (<[Z.to_nat o := Some c]> buf)) as (buf' & Hrun & Hl & Hj).
    { rewrite length_insert. exact Hlen. }
    exists buf'. split; [exact Hrun|]. split; [exact Hl|].
    intros j. destruct (Hj j) as [Hin Hout]. split.
    + intros Hmem. destruct (decide (Z.of_nat j ∈ offs)) as [Hi|Hni].
      * apply Hin, Hi.
      * rewrite (Hout Hni). apply elem_of_cons in Hmem as [Heq|Hi];
          [|contradiction].
        replace (Z.to_nat o) with j by lia.
        rewrite list_lookup_insert_eq by lia.
        replace (Z.to_nat o) with j in Hc by lia. rewrite Hc. reflexivity.
    + intros Hmem. rewrite not_elem_of_cons in Hmem. destruct Hmem as [Hne Hni].
      rewrite (Hout Hni). apply list_lookup_insert_ne. lia.
Qed.

Lemma mapR_getitem (source : list byte) (offs : list Z) :
  Forall (λ o, 0 ≤ o < len source) offs →
  ∃ tmp, mapR (getitem source) offs = Ok tmp ∧
         Forall2 (λ o c, 0 ≤ o ∧ source !! Z.to_nat o = Some c) offs tmp.
Proof.
  induction 1 as [|o offs Ho _ (tmp & Hrun & Hall)].
  - exists []. split; [reflexivity|constructor].
  - destruct (lookup_lt_is_Some_2 source (Z.to_nat o)) as [c Hc];
      [unfold len in Ho; lia|].
    exists (c :: tmp). split.
    + cbn [mapR]. rewrite (getitem_ok source o c) by (lia || exact Hc).
      rewrite Hrun. reflexivity.
    + constructor; [split; [lia|exact Hc]|exact Hall].
Qed.

Lemma join_byte_elems_opt_Some (source : list byte) :
  join_byte_elems_opt (Some <$> source) = Ok source.
Proof.
  unfold join_byte_elems_opt. induction source as [|c source IH].
  - reflexivity.
  - rewrite fmap_cons. simpl. simpl in IH. rewrite IH. reflexivity.
Qed.

Lemma join_byte_elems_opt_None (buf : list (option byte)) (j : nat) :
  buf !! j = Some None → ∃ ex, join_byte_elems_opt buf = Raise ex.
Proof.
  unfold join_byte_elems_opt. revert j.
  induction buf as [|x buf IH]; intros j Hj; [discriminate|].
  destruct x as [c|]; [|exists TypeError; reflexivity].
  destruct j as [|j]; [discriminate|]. simpl in Hj.
  destruct (IH j Hj) as [ex Hex]. exists ex. simpl. simpl in Hex.
  rewrite Hex. reflexivity.
Qed.

Lemma for_each_setitem_other (ps : list (Z * byte))
  (buf buf' : list (option byte)) (j : nat) :
  for_each (λ buf p, setitem buf p.1 (Some p.2)) buf ps = Ok buf' →
  Forall (λ p, p.1 ≠ Z.of_nat j ∧ p.1 + len buf ≠ Z.of_nat j) ps →
  length buf' = length buf ∧ buf' !! j = buf !! j.
Proof.
  intros Hrun Hall. revert buf Hrun Hall.
  induction ps as [|[o c] ps IH]; intros buf Hrun Hall;
    [|apply Forall_cons in Hall as [[H1 H2] Hall]].
  - inversion Hrun. split; reflexivity.
  - cbn [for_each fst snd] in Hrun. cbn [fst snd] in H1, H2.
    destruct (setitem buf o (Some c)) as [buf1|ex] eqn:Es; [|discriminate].
    unfold setitem in Es. cbv zeta in Es.
    case_bool_decide as Er; [|discriminate]. inversion Es; subst buf1.
    apply IH in Hrun.
    + rewrite length_insert in Hrun. destruct Hrun as [Hl Hj].
      split; [exact Hl|]. rewrite Hj. apply list_lookup_insert_ne.
      case_bool_decide; lia.
    + unfold len. rewrite length_insert. exact Hall.
Qed.

(** X12: when [offsets] is a permutation of [range(len(source))],
    [decode_transposed_bytes] with the same offsets gives back the
    [source] that [encode_transposed_bytes] encoded. *)
Theorem decode_transposed_encode_transposed (charmap : pyval) (endian : bool)
  (e : Base64Engine) (source : list byte) (offsets : list Z) :
  Base64Engine_init charmap endian = Ok e →
  offsets ≡ₚ seqZ 0 (len source) →
  ∃ s, encode_transposed_bytes e (PyBytes source) offsets = Ok s ∧
       decode_transposed_bytes e (PyBytes s) offsets = Ok source.
Proof.
  intros Hinit Hperm. apply init_engine_ok in Hinit as [He _].
  assert (Forall (λ o, 0 ≤ o < len source) offsets) as Hrange.
  { apply Forall_forall. intros o Ho. rewrite Hperm in Ho.
    apply elem_of_seqZ in Ho. lia. }
  assert (length offsets = length source) as Hlen.
  { rewrite Hperm, length_seqZ. unfold len. lia. }
  destruct (mapR_getitem source offsets Hrange) as (tmp & Htmp & Hall).
  destruct (decode_encode_ok e He tmp) as (s & Hs & Hd).
  exists s. unfold encode_transposed_bytes, decode_transposed_bytes.
  rewrite Htmp. unfold join_byte_elems. split; [exact Hs|].
  rewrite Hd.
  destruct (for_each_setitem_ok source offsets tmp
              (replicate (length offsets) None) Hall)
    as (buf & Hbuf & Hl & Hj).
  { rewrite length_replicate. exact Hlen. }
  cbn [mbind result_bind]. unfold mbind, result_bind. rewrite Hbuf.
  replace buf with (Some <$> source); [apply join_byte_elems_opt_Some|].
  apply list_eq. intros j. rewrite list_lookup_fmap.
  destruct (decide (j < length source)%nat) as [Hlt|Hge].
  - symmetry. apply Hj. rewrite Hperm. apply elem_of_seqZ. unfold len. lia.
  - rewrite (lookup_ge_None_2 source) by lia.
    rewrite (lookup_ge_None_2 buf) by lia. reflexivity.
Qed.

Lemma decode_transposed_encode_transposed_witness :
  ∃ s, encode_transposed_bytes (h64_engine false)
         (PyBytes ["a"; "b"; "c"]%byte) [2; 0; 1] = Ok s ∧
       decode_transposed_bytes (h64_engine false) (PyBytes s) [2; 0; 1]
       = Ok ["a"; "b"; "c"]%byte.
Proof.
  apply (decode_transposed_encode_transposed (PyUnicode HASH64_CHARS) false).
  - vm_compute. reflexivity.
  - apply (bool_decide_unpack _). vm_compute. reflexivity.
Defined.

(** X13: when some index below [len(offsets)] is no offset (counting a
    negative offset from the end), a slot of the buffer stays [None] and
    [decode_transposed_bytes] raises: it never returns a string. *)
Theorem decode_transposed_bytes_unused_slot (e : Base64Engine)
  (source : pyval) (offsets : list Z) (j : Z) :
  0 ≤ j < len offsets →
  Forall (λ o, o ≠ j ∧ o + len offsets ≠ j) offsets →
  ∃ ex, decode_transposed_bytes e source offsets = Raise ex.
Proof.
  intros Hj Hall. unfold decode_transposed_bytes.
  destruct (decode_bytes e source) as [tmp|ex]; [|exists ex; reflexivity].
  cbn [mbind result_bind]. unfold mbind, result_bind.
  destruct (for_each _ _ _) as [buf|ex] eqn:Hrun; [|exists ex; reflexivity].
  apply (for_each_setitem_other _ _ _ (Z.to_nat j)) in Hrun as [_ Hbuf].
  - apply (join_byte_elems_opt_None buf (Z.to_nat j)). rewrite Hbuf.
    apply lookup_replicate_2. unfold len in Hj. lia.
  - apply Forall_forall. intros [o c] Hin. cbn [fst].
    apply elem_of_zip_l in Hin. rewrite Forall_forall in Hall.
    specialize (Hall o Hin). unfold len. rewrite length_replicate.
    unfold len in Hall. lia.
Qed.

Lemma decode_transposed_bytes_unused_slot_witness :
  ∃ ex, decode_transposed_bytes (h64_engine false)
          (PyBytes ["a"; "z"; "b"]%byte) [0; 0] = Raise ex.
Proof.
  apply (decode_transposed_bytes_unused_slot _ _ _ 1).
  - vm_compute. split; [discriminate|reflexivity].
  - repeat constructor; vm_compute; discriminate.
Defined.

(** ** The engine that [__init__] builds *)

Lemma distinct_count_NoDup (cm : list byte) :
  length cm = 64%nat → (distinct_count cm = 64 ↔ NoDup cm).
Proof.
  intros Hlen. unfold distinct_count. split.
  - intros Hd. apply (NoDup_fmap_1 ord).
    change (ord <$> cm) with (map ord cm).
    apply size_list_to_set_NoDup. rewrite length_map. lia.
  - intros Hnd.
    assert (NoDup (map ord cm)) as Hnd'.
    { change (map ord cm) with (ord <$> cm).
      apply NoDup_fmap_2; [|exact Hnd]. intros a b. apply ord_inj. }
    rewrite (size_list_to_set (map ord cm) Hnd'), length_map. lia.
Qed.

(** X14: [Base64Engine(charmap)] on a byte string succeeds exactly when the
    string has 64 characters, all different, and then keeps it as
    [bytemap]; any other byte string raises [ValueError], and a charmap
    that is no string raises [TypeError]. *)
Theorem Base64Engine_init_accepts (cm : list byte) (endian : bool) :
  (length cm = 64%nat ∧ NoDup cm →
   ∃ e, Base64Engine_init (PyBytes cm) endian = Ok e ∧
        bytemap e = cm ∧ big e = endian) ∧
  (¬ (length cm = 64%nat ∧ NoDup cm) →
   Base64Engine_init (PyBytes cm) endian = Raise ValueError) ∧
  Base64Engine_init PyNone endian = Raise TypeError ∧
  (∀ n, Base64Engine_init (PyInt n) endian = Raise TypeError) ∧
  (∀ cls, Base64Engine_init (PyObject cls) endian = Raise TypeError).
Proof.
  split; [|split; [|repeat split]].
  - intros [Hlen Hnd]. unfold Base64Engine_init. cbn [mbind result_bind].
    unfold mbind, result_bind.
    rewrite bool_decide_false by (unfold len; lia).
    rewrite bool_decide_false
      by (pose proof (proj2 (distinct_count_NoDup cm Hlen) Hnd); lia).
    eexists. split; [reflexivity|]. split; reflexivity.
  - intros Hno. unfold Base64Engine_init. cbn [mbind result_bind].
    unfold mbind, result_bind.
    case_bool_decide as Hl; [reflexivity|].
    case_bool_decide as Hd; [reflexivity|].
    exfalso. apply Hno.
    assert (length cm = 64%nat) as Hlen by (unfold len in Hl; lia).
    split; [exact Hlen|]. apply (distinct_count_NoDup cm Hlen). lia.
Qed.

Lemma Base64Engine_init_accepts_witness :
  (∃ e, Base64Engine_init (PyBytes (bytemap (h64_engine true))) true = Ok e ∧
        bytemap e = bytemap (h64_engine true) ∧ big e = true) ∧
  Base64Engine_init (PyBytes ["a"; "a"]%byte) true = Raise ValueError.
Proof.
  split.
  - apply (Base64Engine_init_accepts (bytemap (h64_engine true)) true).
    split; [reflexivity|].
    apply (NoDup_fmap_1 ord), (bool_decide_unpack _). vm_compute.
    reflexivity.
  - apply (Base64Engine_init_accepts ["a"; "a"]%byte true).
    intros [Hlen _]. discriminate.
Defined.

(** X15: in an engine built by [__init__], [_encode64] and [_decode64] are
    inverse to each other between the values 0..63 and the characters of
    the charmap; [_decode64] raises [KeyError] on any other character and
    [_encode64] raises [IndexError] on a value outside [-64..63]. *)
Theorem encode64_decode64_inverse (charmap : pyval) (endian : bool)
  (e : Base64Engine) :
  Base64Engine_init charmap endian = Ok e →
  (∀ v, 0 ≤ v < 64 → ∃ c, _encode64 e v = Ok c ∧ _decode64 e c = Ok v) ∧
  (∀ c v, _decode64 e c = Ok v → 0 ≤ v < 64 ∧ _encode64 e v = Ok c) ∧
  (∀ c, c ∉ bytemap e → _decode64 e c = Raise KeyError) ∧
  (∀ v, v < -64 ∨ 64 ≤ v → _encode64 e v = Raise IndexError).
Proof.
  intros Hinit. apply init_engine_ok in Hinit as [He _].
  split; [|split; [|split]].
  - intros v Hv. apply (encode64_decode64 e He v Hv).
  - intros c v H. apply (decode64_inv e He c v H).
  - intros c Hc. destruct (decode64_error e c) as [Hv|Herr]; [|exact Herr].
    exfalso. apply Hc. apply (in_alphabet_decode64 e He c). exact Hv.
  - intros v Hv. destruct He as (Hlen & _). unfold _encode64, getitem.
    cbv zeta. unfold len. rewrite Hlen.
    case_bool_decide as H1; case_bool_decide as H2; try reflexivity;
      rewrite lookup_ge_None_2 by lia; reflexivity.
Qed.

Lemma encode64_decode64_inverse_witness :
  (∀ v, 0 ≤ v < 64 →
        ∃ c, _encode64 (h64_engine false) v = Ok c ∧
             _decode64 (h64_engine false) c = Ok v) ∧
  (∀ c v, _decode64 (h64_engine false) c = Ok v →
          0 ≤ v < 64 ∧ _encode64 (h64_engine false) v = Ok c) ∧
  (∀ c, c ∉ bytemap (h64_engine false) →
        _decode64 (h64_engine false) c = Raise KeyError) ∧
  (∀ v, v < -64 ∨ 64 ≤ v →
        _encode64 (h64_engine false) v = Raise IndexError).
Proof.
  apply (encode64_decode64_inverse (PyUnicode HASH64_CHARS) false).
  vm_compute. reflexivity.
Defined.

(** ** Byte translations *)

Lemma iter_byte_chars_insert (tb : list byte) (n : nat) (b : byte) :
  iter_byte_chars (<[n := b]> tb) = <[n := [b]]> (iter_byte_chars tb).
Proof.
  exact (list_fmap_insert (λ c : byte, [c]) tb n b).
Qed.

Lemma concat_iter_byte_chars (tb : list byte) :
  concat (iter_byte_chars tb) = tb.
Proof.
  induction tb as [|c tb IH]; [reflexivity|]. simpl. rewrite IH. reflexivity.
Qed.

Lemma length_iter_byte_chars (tb : list byte) :
  length (iter_byte_chars tb) = length tb.
Proof. unfold iter_byte_chars. apply length_map. Qed.

Lemma key_check (k : pyval) (n : Z) :
  (k' ← (if isinstance_unicode k || isinstance_bytes k then py_ord k
         else Ok k);
   match k' with
   | PyInt k => assert (bool_decide (0 ≤ k < 256));; Ok k
   | _ => Raise AssertionError
   end) = Ok n ↔ key_value k = Some n ∧ 0 ≤ n < 256.
Proof.
  destruct k as [[|c [|c' s]]|[|c [|c' s]]| |m|cls];
    cbn -[bool_decide];
    try (split; [discriminate|intros [? _]; discriminate]).
  all: unfold mbind, result_bind, assert.
  all: case_bool_decide as Hr.
  all: split;
    [intros H; try discriminate; inversion H; subst; split;
     try reflexivity; lia
    |intros [H Hn]; inversion H; subst; try reflexivity; lia].
Qed.

Lemma value_check (v : pyval) (b : list byte) :
  (v' ← match v with
        | PyUnicode u => b ← encode_ascii u; Ok (PyBytes b)
        | _ => Ok v
        end;
   match v' with
   | PyBytes b => assert (bool_decide (len b = 1));; Ok b
   | _ => Raise AssertionError
   end) = Ok b ↔ ∃ c, b = [c] ∧ value_byte v = Some c.
Proof.
  assert (∀ A (x : A) (l : list A), len (x :: l) = 1 → l = []) as Hone.
  { intros A x [|y l] Hl; [reflexivity|]. unfold len in Hl. simpl in Hl. lia. }
  destruct v as [s|u| |m|cls]; cbn -[bool_decide];
    try (split; [discriminate|intros (c & _ & H); discriminate]).
  - unfold mbind, result_bind, assert. case_bool_decide as Hl.
    + destruct s as [|c s]; [discriminate|]. apply Hone in Hl. subst s.
      split.
      * intros H. inversion H. exists c. split; reflexivity.
      * intros (c' & -> & H). inversion H. reflexivity.
    + split; [discriminate|]. intros (c & -> & H).
      destruct s as [|c0 [|c1 s]]; try discriminate. 
      exfalso. apply Hl. reflexivity.
  - unfold mbind, result_bind, assert.
    destruct u as [|c u].
    + cbn -[bool_decide]. rewrite bool_decide_false by discriminate.
      split; [discriminate|intros (c & _ & H); discriminate].
    + unfold encode_ascii. cbn [mapR]. unfold mbind, result_bind.
      case_bool_decide as Hr;
        [|split; [discriminate|intros (c0 & _ & H); destruct u; discriminate]].
      destruct (byte_of_value c) as [b0|ex];
        [|split; [discriminate|intros (c0 & _ & H); destruct u; discriminate]].
      destruct u as [|c' u].
      * cbn -[bool_decide]. rewrite bool_decide_true by reflexivity.
        split.
        -- intros H. inversion H. exists b0. split; reflexivity.
        -- intros (c0 & -> & H). inversion H. reflexivity.
      * destruct (mapR _ (c' :: u)) as [bs|ex] eqn:E;
          [|split; [discriminate|intros (c0 & _ & H); discriminate]].
        apply mapR_length in E. simpl in E.
        rewrite bool_decide_false by (unfold len; simpl; lia).
        split; [discriminate|intros (c0 & _ & H); discriminate].
Qed.

Lemma translation_step_spec (target target' : list (list byte))
  (k v : pyval) :
  translation_step target (k, v) = Ok target' ↔
  ∃ n c, key_value k = Some n ∧ 0 ≤ n < 256 ∧ value_byte v = Some c ∧
         n < len target ∧ target' = <[Z.to_nat n := [c]]> target.
Proof.
  pose proof (key_check k) as Hk. pose proof (value_check v) as Hv.
  unfold translation_step.
  unfold mbind, result_bind in Hk, Hv |- *.
  destruct (if isinstance_unicode k || isinstance_bytes k then py_ord k
            else Ok k) as [k'|ex].
  - destruct (match k' with
              | PyInt k0 =>
                  match assert (bool_decide (0 ≤ k0 < 256)) with
                  | Ok _ => Ok k0
                  | Raise e => Raise e
                  end
              | _ => Raise AssertionError
              end) as [n|ex].
    + destruct (proj1 (Hk n) eq_refl) as [Hkey Hn].
      destruct (match v with
                | PyUnicode u =>
                    match encode_ascii u with
                    | Ok a => Ok (PyBytes a)
                    | Raise e => Raise e
                    end
                | _ => Ok v
                end) as [v'|ex].
      * destruct (match v' with
                  | PyBytes b =>
                      match assert (bool_decide (len b = 1)) with
                      | Ok _ => Ok b
                      | Raise e => Raise e
                      end
                  | _ => Raise AssertionError
                  end) as [b|ex].
        -- destruct (proj1 (Hv b) eq_refl) as (c & -> & Hval).
           unfold setitem. cbv zeta.
           rewrite (bool_decide_false (n < 0)) by lia.
           case_bool_decide as Hr.
           ++ split.
              ** intros H. inversion H. exists n, c.
                 repeat split; try assumption; lia.
              ** intros (n' & c' & Hk' & _ & Hv' & _ & ->).
                 rewrite Hkey in Hk'. rewrite Hval in Hv'.
                 inversion Hk'. inversion Hv'. reflexivity.
           ++ split; [discriminate|].
              intros (n' & c' & Hk' & _ & _ & Hlt & _).
              rewrite Hkey in Hk'. inversion Hk'. lia.
        -- split; [discriminate|].
           intros (n' & c' & _ & _ & Hv' & _).
           pose proof (proj2 (Hv [c']) (ex_intro _ c' (conj eq_refl Hv'))).
           discriminate.
      * split; [discriminate|].
        intros (n' & c' & _ & _ & Hv' & _).
        pose proof (proj2 (Hv [c']) (ex_intro _ c' (conj eq_refl Hv'))).
        discriminate.
    + split; [discriminate|].
      intros (n' & c' & Hk' & Hn' & _).
      pose proof (proj2 (Hk n') (conj Hk' Hn')). discriminate.
  - split; [discriminate|].
    intros (n' & c' & Hk' & Hn' & _).
    pose proof (proj2 (Hk n') (conj Hk' Hn')). discriminate.
Qed.

Lemma valid_item_iff (k v : pyval) :
  valid_item (k, v) ↔
  ∃ n c, key_value k = Some n ∧ 0 ≤ n < 256 ∧ value_byte v = Some c.
Proof.
  unfold valid_item. cbn [fst snd].
  destruct (key_value k) as [n|], (value_byte v) as [c|]; split;
    try (intros []; fail); try (intros (n' & c' & H1 & _ & H2); discriminate).
  - intros Hn. exists n, c. auto.
  - intros (n' & c' & H1 & Hn & _). inversion H1. subst n'. exact Hn.
Qed.

(** The loop over the items, on a target of one-byte strings. *)
Lemma translation_run_inv (mapping : list (pyval * pyval)) (tb : list byte)
  (target' : list (list byte)) :
  for_each translation_step (iter_byte_chars tb) mapping = Ok target' →
  ∃ tb', target' = iter_byte_chars tb' ∧ length tb' = length tb ∧
    Forall valid_item mapping ∧
    Forall (λ item, ∀ n, key_value item.1 = Some n → n < len tb) mapping ∧
    (∀ i, 0 ≤ i →
          Forall (λ item, key_value item.1 ≠ Some i) mapping →
          tb' !! Z.to_nat i = tb !! Z.to_nat i) ∧
    (∀ m1 k v m2 i,
       mapping = m1 ++ (k, v) :: m2 → key_value k = Some i →
       Forall (λ item, key_value item.1 ≠ Some i) m2 →
       ∃ c, value_byte v = Some c ∧ tb' !! Z.to_nat i = Some c).
Proof.
  revert tb. induction mapping as [|[k v] mapping IH]; intros tb Hrun.
  - inversion Hrun. exists tb. repeat split; try constructor.
    intros m1 k v m2 i Hm. destruct m1; discriminate.
  - cbn [for_each] in Hrun.
    destruct (translation_step (iter_byte_chars tb) (k, v)) as [t1|ex] eqn:E;
      [|discriminate].
    apply translation_step_spec in E as (n & c & Hk & Hn & Hv & Hlt & ->).
    unfold len in Hlt. rewrite length_iter_byte_chars in Hlt.
    rewrite <- iter_byte_chars_insert in Hrun.
    apply IH in Hrun as (tb' & -> & Hlen & Hvalid & Hbound & Hkeep & Hlast).
    rewrite length_insert in Hlen.
    exists tb'. split; [reflexivity|]. split; [exact Hlen|].
    split; [|split; [|split]].
    + constructor; [|exact Hvalid]. apply valid_item_iff. eauto.
    + constructor.
      * intros n' Hn'. cbn [fst] in Hn'. rewrite Hk in Hn'. inversion Hn'.
        subst n'. unfold len. lia.
      * eapply Forall_impl; [exact Hbound|]. intros item H n' Hn'.
        specialize (H n' Hn'). unfold len in H |- *.
        rewrite length_insert in H. exact H.
    + intros i Hi Hall. apply Forall_cons in Hall as [Hne Hall].
      cbn [fst] in Hne. rewrite (Hkeep i Hi Hall).
      apply list_lookup_insert_ne. intros Heq. apply Hne. rewrite Hk.
      f_equal. lia.
    + intros m1 k0 v0 m2 i Hm Hk0 Hall. destruct m1 as [|x m1].
      * inversion Hm. subst k0 v0 m2. rewrite Hk in Hk0. inversion Hk0.
        subst i. exists c. split; [exact Hv|].
        rewrite (Hkeep n ltac:(lia) Hall).
        apply list_lookup_insert_eq. lia.
      * inversion Hm. subst x mapping. eapply Hlast; eauto.
Qed.

Lemma translation_run_ok (mapping : list (pyval * pyval)) (tb : list byte) :
  Forall valid_item mapping →
  Forall (λ item, ∀ n, key_value item.1 = Some n → n < len tb) mapping →
  ∃ target', for_each translation_step (iter_byte_chars tb) mapping
             = Ok target'.
Proof.
  intros Hvalid. revert tb.
  induction Hvalid as [|[k v] mapping Hitem _ IH]; intros tb Hbound.
  - eexists. reflexivity.
  - apply Forall_cons in Hbound as [Hb Hbound]. cbn [fst] in Hb.
    apply valid_item_iff in Hitem as (n & c & Hk & Hn & Hv).
    specialize (Hb n Hk).
    assert (translation_step (iter_byte_chars tb) (k, v)
            = Ok (<[Z.to_nat n := [c]]> (iter_byte_chars tb))) as Hstep.
    { apply translation_step_spec. exists n, c.
      repeat split; try assumption; try lia.
      unfold len in Hb |- *. rewrite length_iter_byte_chars. exact Hb. }
    cbn [for_each]. rewrite Hstep, <- iter_byte_chars_insert.
    apply IH. eapply Forall_impl; [exact Hbound|]. intros item H n' Hn'.
    specialize (H n' Hn'). unfold len in H |- *. rewrite length_insert.
    exact H.
Qed.

Lemma ALL_BYTE_VALUES_ok :
  ∃ all, ALL_BYTE_VALUES = Ok all ∧ map ord all = seqZ 0 256.
Proof.
  eexists. split; [vm_compute; reflexivity|vm_compute; reflexivity].
Qed.

(** X16: [compile_byte_translation(mapping)] returns a table of 256 bytes
    when every key names a byte (an integer below 256 or a string of one
    character) and every value is one byte; a byte that no key names is
    mapped to itself, and a byte that a key names is mapped to the value
    of the last item naming it. *)
Theorem compile_byte_translation_table (mapping : list (pyval * pyval)) :
  Forall valid_item mapping →
  ∃ t, compile_byte_translation mapping PyNone = Ok t ∧ len t = 256 ∧
    (∀ i, 0 ≤ i < 256 →
          Forall (λ item, key_value item.1 ≠ Some i) mapping →
          ord <$> t !! Z.to_nat i = Some i) ∧
    (∀ m1 k v m2 i,
       mapping = m1 ++ (k, v) :: m2 → key_value k = Some i →
       Forall (λ item, key_value item.1 ≠ Some i) m2 →
       ∃ c, value_byte v = Some c ∧ t !! Z.to_nat i = Some c).
Proof.
  intros Hvalid.
  destruct ALL_BYTE_VALUES_ok as (all & Hall & Hord).
  assert (length all = 256%nat) as Hlen.
  { rewrite <- (length_map ord), Hord, length_seqZ. reflexivity. }
  destruct (translation_run_ok mapping all Hvalid) as [target' Hrun].
  { apply Forall_forall. intros [k v] Hin n Hk.
    rewrite Forall_forall in Hvalid. specialize (Hvalid _ Hin).
    apply valid_item_iff in Hvalid as (n' & c & Hk' & Hn & _).
    cbn [fst] in Hk. rewrite Hk in Hk'. inversion Hk'. subst n'.
    unfold len. lia. }
  destruct (translation_run_inv mapping all target' Hrun)
    as (tb' & -> & Hl & _ & _ & Hkeep & Hlast).
  exists tb'. unfold compile_byte_translation, _TRANSLATE_SOURCE.
  rewrite Hall. cbn [mbind result_bind]. unfold mbind, result_bind.
  rewrite Hrun, concat_iter_byte_chars.
  split; [reflexivity|]. split; [unfold len; lia|]. split; [|exact Hlast].
  intros i Hi Hno. rewrite (Hkeep i ltac:(lia) Hno).
  rewrite <- list_lookup_fmap. change (ord <$> all) with (map ord all).
  rewrite Hord. apply lookup_seqZ. lia.
Qed.

Lemma compile_byte_translation_table_witness :
  ∃ t, _b32_translate = Ok t ∧ len t = 256 ∧
    (∀ i, 0 ≤ i < 256 →
          Forall (λ item, key_value item.1 ≠ Some i)
            [(PyUnicode [56], PyUnicode [66]);
             (PyUnicode [48], PyUnicode [79])] →
          ord <$> t !! Z.to_nat i = Some i) ∧
    (∀ m1 k v m2 i,
       [(PyUnicode [56], PyUnicode [66]); (PyUnicode [48], PyUnicode [79])]
       = m1 ++ (k, v) :: m2 → key_value k = Some i →
       Forall (λ item, key_value item.1 ≠ Some i) m2 →
       ∃ c, value_byte v = Some c ∧ t !! Z.to_nat i = Some c).
Proof.
  apply compile_byte_translation_table.
  repeat constructor; vm_compute; discriminate.
Defined.

(** X17: an item whose key names no byte, or whose value is not one byte,
    makes [compile_byte_translation] raise, whatever the source. *)
Theorem compile_byte_translation_rejects (mapping : list (pyval * pyval))
  (source : pyval) :
  ¬ Forall valid_item mapping →
  ∃ ex, compile_byte_translation mapping source = Raise ex.
Proof.
  intros Hno. unfold compile_byte_translation.
  assert (∀ tb, ∃ ex,
            (target ← for_each translation_step (iter_byte_chars tb) mapping;
             Ok (concat target)) = Raise ex) as Hrun.
  { intros tb.
    destruct (for_each translation_step (iter_byte_chars tb) mapping)
      as [target'|ex] eqn:E; [|exists ex; reflexivity].
    exfalso. apply Hno.
    apply translation_run_inv in E as (tb' & _ & _ & Hvalid & _).
    exact Hvalid. }
  destruct source as [s|u| |n|cls];
    try (exists AssertionError; reflexivity).
  - unfold assert. case_bool_decide as Hl;
      [|exists AssertionError; reflexivity].
    apply (Hrun s).
  - unfold _TRANSLATE_SOURCE.
    destruct ALL_BYTE_VALUES_ok as (all & -> & _). apply (Hrun all).
Qed.

Lemma compile_byte_translation_rejects_witness :
  ∃ ex, compile_byte_translation [(PyInt 256, PyBytes ["a"%byte])] PyNone
        = Raise ex.
Proof.
  apply compile_byte_translation_rejects.
  intros H. apply Forall_cons in H as [H _]. vm_compute in H.
  destruct H as [_ H]. discriminate.
Defined.

(** X18: with a [source], [compile_byte_translation] insists on 255 bytes
    ([AssertionError] otherwise) and returns a table of 255 bytes, one
    short of the 256 byte values: no item can then name the byte 255. *)
Theorem compile_byte_translation_source (mapping : list (pyval * pyval))
  (s : list byte) :
  (len s ≠ 255 →
   compile_byte_translation mapping (PyBytes s) = Raise AssertionError) ∧
  (∀ t, compile_byte_translation mapping (PyBytes s) = Ok t →
        len s = 255 ∧ len t = 255 ∧
        Forall (λ item, key_value item.1 ≠ Some 255) mapping).
Proof.
  unfold compile_byte_translation, assert. split.
  - intros Hl. rewrite bool_decide_false by exact Hl. reflexivity.
  - intros t. case_bool_decide as Hl; [|discriminate].
    cbn [mbind result_bind]. unfold mbind, result_bind.
    destruct (for_each translation_step (iter_byte_chars s) mapping)
      as [target'|ex] eqn:E; [|discriminate].
    apply translation_run_inv in E as (tb' & -> & Hlen & _ & Hbound & _).
    rewrite concat_iter_byte_chars. intros H. inversion H. subst tb'.
    split; [exact Hl|]. split; [unfold len in Hl |- *; lia|].
    eapply Forall_impl; [exact Hbound|]. intros item Hb Hk.
    specialize (Hb 255 Hk). lia.
Qed.

Lemma compile_byte_translation_source_witness :
  compile_byte_translation [] (PyBytes ["a"; "b"]%byte)
  = Raise AssertionError ∧
  (len (replicate 255 "a"%byte) = 255 ∧
   len (replicate 255 "a"%byte) = 255 ∧
   Forall (λ item, key_value item.1 ≠ Some 255)
     [(PyInt 0, PyBytes ["b"%byte])]).
Proof.
  split.
  - apply (compile_byte_translation_source [] ["a"; "b"]%byte).
    vm_compute. discriminate.
  - apply (proj2 (compile_byte_translation_source
                    [(PyInt 0, PyBytes ["b"%byte])] (replicate 255 "a"%byte))
             ("b"%byte :: replicate 254 "a"%byte)).
    vm_compute. reflexivity.
Defined.

(** * Properties of [_makelang] *)

Lemma makelang_helper_spec (alphabet : string) (fuel : nat) (size : Z)
  (s : string) :
  (Z.to_nat size ≤ fuel)%nat →
  s ∈ _makelang_helper alphabet (S fuel) size ↔
  String.length s = Z.to_nat (Z.max 1 size) ∧
  Forall (λ c, c ∈ String.list_ascii_of_string alphabet) (String.list_ascii_of_string s).
Proof.
  revert size s. induction fuel as [|fuel IH]; intros size s Hfuel.
  - cbn [_makelang_helper]. rewrite bool_decide_true by lia.
    replace (Z.to_nat (Z.max 1 size)) with 1%nat by lia.
    rewrite list_elem_of_fmap. split.
    + intros (c & -> & Hc). split; [reflexivity|].
      cbn. constructor; [exact Hc|constructor].
    + intros [Hlen Hall]. destruct s as [|c [|c' s]]; try discriminate.
      exists c. split; [reflexivity|]. cbn in Hall.
      apply Forall_cons in Hall as [Hc _]. exact Hc.
  - change (_makelang_helper alphabet (S (S fuel)) size)
      with (if bool_decide (size < 2) then
              map (λ char, String char EmptyString)
                  (String.list_ascii_of_string alphabet)
            else
              flat_map (λ char,
                          map (λ tail, String char tail)
                              (_makelang_helper alphabet (S fuel) (size - 1)))
                       (String.list_ascii_of_string alphabet)).
    case_bool_decide as Hsize.
    + replace (Z.to_nat (Z.max 1 size)) with 1%nat by lia.
      rewrite list_elem_of_fmap. split.
      * intros (c & -> & Hc). split; [reflexivity|].
        cbn. constructor; [exact Hc|constructor].
      * intros [Hlen Hall]. destruct s as [|c [|c' s]]; try discriminate.
        exists c. split; [reflexivity|]. cbn in Hall.
        apply Forall_cons in Hall as [Hc _]. exact Hc.
    + replace (Z.to_nat (Z.max 1 size))
        with (S (Z.to_nat (Z.max 1 (size - 1)))) by lia.
      rewrite list_elem_of_In, in_flat_map. split.
      * intros (c & Hc & Hin). apply list_elem_of_In in Hc, Hin.
        apply list_elem_of_fmap in Hin as (tail & -> & Htail).
        apply IH in Htail as [Hlen Hall]; [|lia].
        split; [cbn; rewrite Hlen; reflexivity|].
        cbn. constructor; assumption.
      * intros [Hlen Hall]. destruct s as [|c tail]; [discriminate|].
        cbn in Hlen, Hall. apply Forall_cons in Hall as [Hc Hall].
        exists c. split; [apply list_elem_of_In; exact Hc|].
        apply list_elem_of_In, list_elem_of_fmap. exists tail.
        split; [reflexivity|]. apply IH; [lia|].
        split; [lia|exact Hall].
Qed.

(** X19: [_makelang(alphabet, size)] is the set of the strings of [size]
    characters of [alphabet]; a [size] below 1 gives the strings of one
    character. *)
Theorem makelang_spec (alphabet : string) (size : Z) (s : string) :
  s ∈ _makelang alphabet size ↔
  String.length s = Z.to_nat (Z.max 1 size) ∧
  Forall (λ c, c ∈ String.list_ascii_of_string alphabet) (String.list_ascii_of_string s).
Proof.
  unfold _makelang. rewrite elem_of_list_to_set.
  apply makelang_helper_spec. lia.
Qed.
